(** * markdown2typst: a shallow embedding of the rendering pipeline

    The development follows the modules of the TypeScript sources:
    [utils], [types], [collectors], [frontmatter], [inline-renderer],
    [block-renderer], [output-builder] and [markdown2typst].

    Conventions of the embedding.
    - A JavaScript string is a [string]: a sequence of code units, here
      restricted to the Latin-1 range (one [ascii] per code unit).
    - [null] and [undefined] are [None].
    - Code that may throw lives in the monad [M]: a computation takes the
      mutable part of the render context (the warnings record and the trace of
      callback invocations) and returns an outcome, normal or thrown, with the
      new state.  A thrown exception keeps the state reached so far, as a
      JavaScript [throw] keeps the mutations made before it.
    - An error callback is a function of the error it is handed: it
      returns normally or throws.  The trace of a run lists the errors handed
      to it, in order.  A callback that also changes what it can reach (the
      render context it is called on, the caller's options) is the subject
      of the second embedding, [Effectful], at the end.
    - The renderers are mutually recursive and follow footnote definitions
      through a map, so their recursion is bounded by a [fuel] argument that
      stands for the depth of the call stack still available: every call
      takes one unit, and a call with no unit left throws the engine's
      [RangeError], which the surrounding [try]/[catch] blocks see like any
      other exception.
    - The parser, the YAML decoder, the LaTeX converter and the language and
      country tables come from other packages; they are the variables of the
      sections that use them. *)

From Stdlib Require Import String Ascii ZArith Lia List DecimalString.
From stdpp Require Import base strings gmap list.

Local Open Scope string_scope.
Local Open Scope list_scope.
Set Warnings "-register-all".

(** ** JavaScript string primitives *)

Module Js.

(** [s.repeat(n)] *)
Fixpoint repeat (s : string) (n : nat) : string :=
  match n with
  | O => ""
  | S n' => s +:+ repeat s n'
  end.

(** White space and line terminators of ECMAScript below U+0100:
    TAB, LF, VT, FF, CR, SP and NBSP. *)
Definition isWhiteSpace (c : ascii) : bool :=
  match nat_of_ascii c with
  | 9 | 10 | 11 | 12 | 13 | 32 | 160 => true
  | _ => false
  end.

Fixpoint trimStart (s : string) : string :=
  match s with
  | "" => ""
  | String c s' => if isWhiteSpace c then trimStart s' else s
  end.

Fixpoint trimEnd (s : string) : string :=
  match s with
  | "" => ""
  | String c s' =>
      match trimEnd s' with
      | "" => if isWhiteSpace c then "" else String c ""
      | t => String c t
      end
  end.

(** [s.trim()] *)
Definition trim (s : string) : string := trimEnd (trimStart s).

Definition lowerChar (c : ascii) : ascii :=
  let n := nat_of_ascii c in
  if ((65 <=? n) && (n <=? 90))%nat then ascii_of_nat (n + 32)
  else if ((192 <=? n) && (n <=? 222) && negb (n =? 215))%nat
       then ascii_of_nat (n + 32)
       else c.

(** [s.toLowerCase()] *)
Fixpoint toLowerCase (s : string) : string :=
  match s with
  | "" => ""
  | String c s' => String (lowerChar c) (toLowerCase s')
  end.

(** [s.split(c)] for a one-character separator; never the empty list. *)
Fixpoint split (sep : ascii) (s : string) : list string :=
  match s with
  | "" => [""]
  | String c s' =>
      if Ascii.eqb c sep then "" :: split sep s'
      else match split sep s' with
           | [] => [String c ""]
           | x :: xs => String c x :: xs
           end
  end.

(** [xs.join(sep)] *)
Definition join (sep : string) (xs : list string) : string :=
  String.concat sep xs.

(** [s.startsWith(p)] *)
Definition startsWith (p s : string) : bool := String.prefix p s.

(** A string is truthy when it is not empty. *)
Definition truthy (s : string) : bool :=
  match s with "" => false | _ => true end.

(** [a || b] on strings. *)
Definition orElse (a b : string) : string := if truthy a then a else b.

(** Truthiness of an optional string: present and not empty. *)
Definition truthyOpt (o : option string) : bool :=
  match o with Some s => truthy s | None => false end.

(** [a ?? b] *)
Definition nullish {A} (a : option A) (b : option A) : option A :=
  match a with Some _ => a | None => b end.

Definition isDigit (c : ascii) : bool :=
  let n := nat_of_ascii c in ((48 <=? n) && (n <=? 57))%nat.

(** The longest prefix of decimal digits, and the rest. *)
Fixpoint spanDigits (s : string) : string * string :=
  match s with
  | "" => ("", "")
  | String c s' =>
      if isDigit c
      then let '(d, r) := spanDigits s' in (String c d, r)
      else ("", s)
  end.

(** [parseInt(s, 10)] on a string of decimal digits. *)
Fixpoint parseDigits (acc : N) (s : string) : N :=
  match s with
  | "" => acc
  | String c s' => parseDigits (acc * 10 + (N.of_nat (nat_of_ascii c) - 48))%N s'
  end.

Definition parseInt (s : string) : N := parseDigits 0%N s.

(** A non-negative integer inside a template literal. *)
Definition showN (n : N) : string := NilEmpty.string_of_uint (N.to_uint n).

Definition showNat (n : nat) : string := showN (N.of_nat n).

End Js.

(** [needle] occurs in [hay]. *)
Definition occursIn (needle hay : string) : Prop :=
  exists pre post, hay = pre +:+ needle +:+ post.

(** ** Module [utils] *)

Definition isTypstSpecial (c : ascii) : bool :=
  match c with
  | "\"%char | "#"%char | "*"%char | "_"%char | "`"%char | "["%char
  | "]"%char | "$"%char | "<"%char | ">"%char | "@"%char => true
  | _ => false
  end.

Fixpoint escapeTypstText (input : string) : string :=
  match input with
  | "" => ""
  | String c s =>
      if isTypstSpecial c then String "\" (String c (escapeTypstText s))
      else String c (escapeTypstText s)
  end.

Definition newline : ascii := ascii_of_nat 10.
Definition nl : string := String newline "".
Definition dquote : ascii := ascii_of_nat 34.
Definition dq : string := String dquote "".

(** [s.replace(/c/g, by)] for a one-character pattern. *)
Fixpoint replaceChar (c : ascii) (by_ : string) (s : string) : string :=
  match s with
  | "" => ""
  | String x s' =>
      if Ascii.eqb x c then by_ +:+ replaceChar c by_ s'
      else String x (replaceChar c by_ s')
  end.

Definition escapeTypstString (input : string) : string :=
  replaceChar newline "\n"
    (replaceChar dquote ("\" +:+ dq)
       (replaceChar "\"%char "\\" input)).

Definition indentLines (text : string) (indentLevel : nat) : string :=
  match indentLevel with
  | O => text
  | _ =>
      let indent := Js.repeat "  " indentLevel in
      Js.join nl (map (fun line => indent +:+ line) (Js.split newline text))
  end.

Definition isNonEmpty (value : option string) : bool :=
  match value with
  | Some s => Js.truthy s
  | None => false
  end.

(** [xs.filter(isNonEmpty)], with the type guard applied. *)
Fixpoint filterNonEmpty (xs : list (option string)) : list string :=
  match xs with
  | [] => []
  | Some s :: xs' => if Js.truthy s then s :: filterNonEmpty xs' else filterNonEmpty xs'
  | None :: xs' => filterNonEmpty xs'
  end.

Definition normalizeText (value : option string) : string :=
  Js.trim (default "" value).

Definition renderTypstArray (items : list string) : string :=
  match items with
  | [x] => "(" +:+ x +:+ ",)"
  | _ => "(" +:+ Js.join ", " items +:+ ")"
  end.

Definition backtick : ascii := "`"%char.

(** The loop of [maxBacktickRun], with its two counters. *)
Fixpoint maxBacktickRunFrom (value : string) (run maxRun : nat) : nat :=
  match value with
  | "" => maxRun
  | String c rest =>
      if Ascii.eqb c backtick
      then let run' := S run in
           maxBacktickRunFrom rest run' (if (maxRun <? run')%nat then run' else maxRun)
      else maxBacktickRunFrom rest 0 maxRun
  end.

Definition maxBacktickRun (value : string) : nat := maxBacktickRunFrom value 0 0.

(** ** Module [types] *)

Inductive ErrorSeverity := WARNING | ERROR.

(** A thrown JavaScript value: an [Error] object with its message, or any
    other value with the text [String(value)] gives. *)
Inductive Exn :=
| JsError (message : string)
| JsValue (text : string).

(** [error instanceof Error ? error.message : String(error)] *)
Definition errorMessage (error : Exn) : string :=
  match error with
  | JsError m => m
  | JsValue t => t
  end.

(** What the engine throws when the call stack is exhausted. *)
Definition stackOverflow : Exn := JsError "Maximum call stack size exceeded".

Record ConversionError := {
  severity : ErrorSeverity;
  message : string;
  context : string;
  originalError : option Exn;
  details : list (string * string)
}.

(** A callback is a caller's function: it returns normally ([None]) or throws
    ([Some e]). *)
Definition ErrorCallback := ConversionError -> option Exn.

(** The mutable part of a conversion: [ConversionWarnings], and the trace of
    the errors handed to the callback so far. *)
Record State := {
  externalImages : bool;
  reported : list ConversionError
}.

Inductive Outcome (A : Type) :=
| Ok (value : A)
| Throw (error : Exn).
Arguments Ok {A} value.
Arguments Throw {A} error.

Definition M (A : Type) : Type := State -> Outcome A * State.

Definition ret {A} (a : A) : M A := fun s => (Ok a, s).

Definition throw {A} (e : Exn) : M A := fun s => (Throw e, s).

Definition bind {A B} (m : M A) (k : A -> M B) : M B :=
  fun s =>
    match m s with
    | (Ok a, s') => k a s'
    | (Throw e, s') => (Throw e, s')
    end.

Notation "x <- m ;; k" := (bind m (fun x => k))
  (at level 100, m at next level, right associativity).
Notation "m ;;; k" := (bind m (fun _ => k))
  (at level 100, right associativity).

(** [try { m } catch (error) { handler error }] *)
Definition tryCatch {A} (m : M A) (handler : Exn -> M A) : M A :=
  fun s =>
    match m s with
    | (Ok a, s') => (Ok a, s')
    | (Throw e, s') => handler e s'
    end.

Definition liftOutcome {A} (o : Outcome A) : M A := fun s => (o, s).

(** [xs.map(f)] when [f] may throw: the first exception ends the map. *)
Fixpoint mapM {A B} (f : A -> M B) (xs : list A) : M (list B) :=
  match xs with
  | [] => ret []
  | x :: xs' => y <- f x ;; ys <- mapM f xs' ;; ret (y :: ys)
  end.

(** [if (onError) { onError(error) }]: the error is built and handed over
    only when a callback is present. *)
Definition report (onError : option ErrorCallback) (error : ConversionError) : M unit :=
  fun s =>
    match onError with
    | None => (Ok tt, s)
    | Some callback =>
        let s' := {| externalImages := externalImages s;
                     reported := reported s ++ [error] |} in
        match callback error with
        | None => (Ok tt, s')
        | Some e => (Throw e, s')
        end
    end.

(** [context.warnings.externalImages = true] *)
Definition markExternalImages : M unit :=
  fun s => (Ok tt, {| externalImages := true; reported := reported s |}).

(** [context.warnings.externalImages], read. *)
Definition readExternalImages : M bool :=
  fun s => (Ok (externalImages s), s).

Definition run {A} (m : M A) (s : State) : Outcome A := fst (m s).

Definition initialState : State := {| externalImages := false; reported := [] |}.

(** ** The document tree (mdast) *)

Inductive AlignType := AlignLeft | AlignRight | AlignCenter.

(** The offsets of a node's [position]; a point may lack its [offset]. *)
Record Position := {
  startOffset : option Z;
  endOffset : option Z
}.

(** A [definition] node: [[identifier]: url]. *)
Record DefinitionNode := {
  def_identifier : string;
  def_url : string
}.

(** Nodes of every kind share one type, as the renderers dispatch on the
    [type] tag at run time.  A list owns its items and a table its rows and
    cells, each given by its children; [NOther] stands for the kinds no
    renderer knows ([imageReference], ...). *)
Inductive Node :=
| NText (value : string)
| NStrong (children : list Node)
| NEmphasis (children : list Node)
| NDelete (children : list Node)
| NMark (children : list Node)
| NSubscript (children : list Node)
| NSuperscript (children : list Node)
| NFootnoteReference (identifier : string)
| NInlineCode (value : string)
| NInlineMath (value : string) (position : option Position)
| NImage (url : string)
| NLink (url : string) (children : list Node)
| NLinkReference (identifier : string) (label : option string) (children : list Node)
| NBreak
| NHtml (value : string)
| NYaml (value : string)
| NDefinition (def : DefinitionNode)
| NFootnoteDefinition (identifier : string) (children : list Node)
| NHeading (depth : nat) (children : list Node)
| NParagraph (children : list Node)
| NList (ordered : bool) (items : list (list Node))
| NCode (lang : option string) (value : string)
| NBlockquote (children : list Node)
| NThematicBreak
| NTable (align : option (list (option AlignType))) (rows : list (list (list Node)))
| NMath (value : string)
| NOther (type : string).

(** [node.type] *)
Definition nodeType (node : Node) : string :=
  match node with
  | NText _ => "text"
  | NStrong _ => "strong"
  | NEmphasis _ => "emphasis"
  | NDelete _ => "delete"
  | NMark _ => "mark"
  | NSubscript _ => "subscript"
  | NSuperscript _ => "superscript"
  | NFootnoteReference _ => "footnoteReference"
  | NInlineCode _ => "inlineCode"
  | NInlineMath _ _ => "inlineMath"
  | NImage _ => "image"
  | NLink _ _ => "link"
  | NLinkReference _ _ _ => "linkReference"
  | NBreak => "break"
  | NHtml _ => "html"
  | NYaml _ => "yaml"
  | NDefinition _ => "definition"
  | NFootnoteDefinition _ _ => "footnoteDefinition"
  | NHeading _ _ => "heading"
  | NParagraph _ => "paragraph"
  | NList _ _ => "list"
  | NCode _ _ => "code"
  | NBlockquote _ => "blockquote"
  | NThematicBreak => "thematicBreak"
  | NTable _ _ => "table"
  | NMath _ => "math"
  | NOther t => t
  end.

(** A [footnoteDefinition] node as the footnote map keeps it. *)
Record FootnoteDefinition := {
  fn_identifier : string;
  fn_children : list Node
}.

(** The root of a tree, given by its children. *)
Definition Root := list Node.

(** [RenderContext] without its mutable [warnings], which is in [State]. *)
Record RenderContext := {
  definitions : gmap string DefinitionNode;
  footnoteDefinitions : gmap string FootnoteDefinition;
  onError : option ErrorCallback
}.

(** ** Module [utils], continued: text of inline content *)

Fixpoint plainTextFromPhrasingNode (defs : gmap string DefinitionNode) (node : Node) : string :=
  match node with
  | NText value => value
  | NStrong children | NEmphasis children =>
      Js.join "" (map (plainTextFromPhrasingNode defs) children)
  | NInlineCode value => value
  | NLink _ children =>
      Js.join "" (map (plainTextFromPhrasingNode defs) children)
  | NLinkReference identifier label children =>
      let text := Js.join "" (map (plainTextFromPhrasingNode defs) children) in
      if Js.truthy (Js.trim text) then text
      else match defs !! Js.toLowerCase identifier with
           | Some def => def_url def
           | None => Js.orElse (default "" label) identifier
           end
  | NBreak => nl
  | _ => ""
  end.

Definition plainTextFromPhrasing (nodes : list Node) (defs : gmap string DefinitionNode) : string :=
  Js.join "" (map (plainTextFromPhrasingNode defs) nodes).

(** ** Modules [inline-renderer] and [block-renderer] *)

Definition mkError (sev : ErrorSeverity) (msg ctx : string)
    (orig : option Exn) (det : list (string * string)) : ConversionError :=
  {| severity := sev; message := msg; context := ctx;
     originalError := orig; details := det |}.

Definition renderInlineCode (value : string) : string :=
  "`" +:+ replaceChar backtick "\`" value +:+ "`".

(** [/^https?:\/\//i.test(url)] *)
Definition isExternalUrl (url : string) : bool :=
  let u := Js.toLowerCase url in
  Js.startsWith "http://" u || Js.startsWith "https://" u.

Definition renderImage (url : string) : M string :=
  if isExternalUrl url then
    markExternalImages ;;;
    tryCatch
      (ret ("#external-image(" +:+ nl +:+ "  " +:+ dq +:+ escapeTypstString url +:+ dq +:+ nl +:+ ")"))
      (fun _ => ret ("#external-image(" +:+ nl +:+ "  " +:+ dq +:+ url +:+ dq +:+ nl +:+ ")"))
  else
    tryCatch
      (ret ("#image(" +:+ dq +:+ escapeTypstString url +:+ dq +:+ ")"))
      (fun _ => ret ("#image(" +:+ dq +:+ url +:+ dq +:+ ")")).

(** The test on an inline math node's [position]: both offsets known and the
    span at least four code units longer than the trimmed value. *)
Definition isDisplayMath (position : option Position) (value : string) : bool :=
  match position with
  | Some pos =>
      match endOffset pos, startOffset pos with
      | Some e, Some s => (Z.of_nat (String.length value) + 4 <=? e - s)%Z
      | _, _ => false
      end
  | None => false
  end.

Definition footnoteMissing (identifier : string) : ConversionError :=
  mkError WARNING
    ("Footnote reference [^" +:+ identifier +:+ "] has no matching definition")
    "inline rendering" None [("identifier", identifier)].

Definition footnoteFailed (identifier : string) (error : Exn) : ConversionError :=
  mkError ERROR
    ("Error rendering footnote [^" +:+ identifier +:+ "]: " +:+ errorMessage error)
    "inline rendering" (Some error) [].

Definition inlineMathFailed (value : string) (error : Exn) : ConversionError :=
  mkError WARNING
    ("Failed to convert inline math LaTeX to Typst: " +:+ errorMessage error)
    "inline math rendering" (Some error) [("latex", value)].

Definition linkReferenceMissing (identifier : string) : ConversionError :=
  mkError WARNING
    ("Link reference [" +:+ identifier +:+ "] has no matching definition")
    "inline rendering" None [("identifier", identifier)].

Definition linkReferenceFailed (identifier : string) (error : Exn) : ConversionError :=
  mkError ERROR
    ("Error rendering link reference [" +:+ identifier +:+ "]: " +:+ errorMessage error)
    "inline rendering" (Some error) [].

Definition unknownBlock (node : Node) : ConversionError :=
  mkError WARNING
    ("Unknown block node type: " +:+ nodeType node)
    "block rendering" None [("nodeType", nodeType node)].

Definition blockFailed (node : Node) (error : Exn) : ConversionError :=
  mkError ERROR
    ("Error rendering block node: " +:+ errorMessage error)
    "block rendering" (Some error) [("nodeType", nodeType node)].

Definition blockMathFailed (value : string) (error : Exn) : ConversionError :=
  mkError WARNING
    ("Failed to convert block math LaTeX to Typst: " +:+ errorMessage error)
    "block math rendering" (Some error) [("latex", value)].

Definition emptyTable : ConversionError :=
  mkError WARNING "Empty table found (no rows)" "table rendering" None [].

Definition noColumns : ConversionError :=
  mkError WARNING "Table has no columns" "table rendering" None [].

Definition tableFailed (error : Exn) : ConversionError :=
  mkError ERROR ("Error rendering table: " +:+ errorMessage error)
    "table rendering" (Some error) [].

(** [node.value.replace(/\n$/, '')] *)
Fixpoint stripFinalNewline (s : string) : string :=
  match s with
  | "" => ""
  | String c "" => if Ascii.eqb c newline then "" else s
  | String c s' => String c (stripFinalNewline s')
  end.

Definition fenceLength (value : string) : nat :=
  Nat.max 3 (maxBacktickRun value + 1).

Definition renderCodeBlock (lang : option string) (value : string) (indentLevel : nat) : string :=
  let info := match lang with
              | Some l => if Js.truthy (Js.trim l) then Js.trim l else ""
              | None => ""
              end in
  let value := stripFinalNewline value in
  let fence := Js.repeat "`" (fenceLength value) in
  let open := if Js.truthy info then fence +:+ info else fence in
  let indentedCode := indentLines value indentLevel in
  Js.join nl [indentLines open indentLevel; indentedCode; indentLines fence indentLevel].

(** [alignMap[a ?? 'left'] ?? 'left'] *)
Definition alignName (a : option AlignType) : string :=
  match a with
  | Some AlignRight => "right"
  | Some AlignCenter => "center"
  | Some AlignLeft | None => "left"
  end.

Section Renderers.

(** The LaTeX converter of the [tex2typst] package: it returns Typst math
    or throws. *)
Variable tex2typst : string -> Outcome string.

Definition renderMathBlock (value : string) (indentLevel : nat) (ctx : RenderContext) : M string :=
  let value := Js.trim value in
  tryCatch
    (typstMath <- liftOutcome (tex2typst value) ;;
     ret (indentLines ("$ " +:+ typstMath +:+ " $") indentLevel))
    (fun error =>
       report (onError ctx) (blockMathFailed value error) ;;;
       ret (indentLines ("$ " +:+ value +:+ " $") indentLevel)).

(** The [inlineMath] case of [renderInline]. *)
Definition renderInlineMath (value : string) (position : option Position) (ctx : RenderContext)
    : M (option string) :=
  let value := Js.trim value in
  tryCatch
    (typstMath <- liftOutcome (tex2typst value) ;;
     let isDisplay := isDisplayMath position value in
     ret (Some (if isDisplay then "$ " +:+ typstMath +:+ " $"
                else "$" +:+ typstMath +:+ "$")))
    (fun error =>
       report (onError ctx) (inlineMathFailed value error) ;;;
       let isDisplay := isDisplayMath position value in
       ret (Some (if isDisplay then "$ " +:+ value +:+ " $"
                  else "$" +:+ value +:+ "$"))).

(** The renderers.  In the footnote case of [renderInline] the block
    renderer is looked up when it is needed, with
    [require('./block-renderer.js')]; the bundle resolves it to
    [renderBlock]. *)
Fixpoint renderBlock (fuel : nat) (node : Node) (indentLevel : nat) (ctx : RenderContext)
    {struct fuel} : M (option string) :=
  match fuel with
  | O => throw stackOverflow
  | S fuel =>
      tryCatch
        (match node with
         | NYaml _ | NDefinition _ | NFootnoteDefinition _ _ => ret None
         | NHeading depth children =>
             s <- renderHeading fuel depth children indentLevel ctx ;; ret (Some s)
         | NParagraph children =>
             s <- renderParagraph fuel children ctx ;;
             ret (Some (indentLines s indentLevel))
         | NList ordered items =>
             s <- renderList fuel ordered items indentLevel ctx ;; ret (Some s)
         | NCode lang value => ret (Some (renderCodeBlock lang value indentLevel))
         | NBlockquote children =>
             s <- renderBlockquote fuel children indentLevel ctx ;; ret (Some s)
         | NThematicBreak =>
             ret (Some (indentLines "#line(length: 100%, stroke: 0.6pt)" indentLevel))
         | NTable align rows =>
             s <- renderTable fuel align rows indentLevel ctx ;; ret (Some s)
         | NMath value =>
             s <- renderMathBlock value indentLevel ctx ;; ret (Some s)
         | _ =>
             report (onError ctx) (unknownBlock node) ;;; ret None
         end)
        (fun error =>
           report (onError ctx) (blockFailed node error) ;;; ret None)
  end

with renderHeading (fuel : nat) (depth : nat) (children : list Node) (indentLevel : nat)
    (ctx : RenderContext) {struct fuel} : M string :=
  match fuel with
  | O => throw stackOverflow
  | S fuel =>
      let level := Nat.min (Nat.max depth 1) 6 in
      s <- renderInlines fuel children ctx ;;
      ret (indentLines (Js.repeat "=" level +:+ " " +:+ s) indentLevel)
  end

with renderParagraph (fuel : nat) (children : list Node) (ctx : RenderContext)
    {struct fuel} : M string :=
  match fuel with
  | O => throw stackOverflow
  | S fuel =>
      let text := Js.toLowerCase (Js.trim (plainTextFromPhrasing children (definitions ctx))) in
      if String.eqb text "[toc]" then ret "#outline(title: auto, indent: auto)"
      else renderInlines fuel children ctx
  end

with renderList (fuel : nat) (ordered : bool) (items : list (list Node)) (indentLevel : nat)
    (ctx : RenderContext) {struct fuel} : M string :=
  match fuel with
  | O => throw stackOverflow
  | S fuel =>
      let marker := if ordered then "+" else "-" in
      rendered <- mapM (fun item => renderListItem fuel item marker indentLevel ctx) items ;;
      ret (Js.join nl (List.filter Js.truthy rendered))
  end

with renderListItem (fuel : nat) (children : list Node) (marker : string) (indentLevel : nat)
    (ctx : RenderContext) {struct fuel} : M string :=
  match fuel with
  | O => throw stackOverflow
  | S fuel =>
      let baseIndent := Js.repeat "  " indentLevel in
      let nestedIndentLevel := indentLevel + 1 in
      let renderChild (child : Node) : M (option string) :=
        match child with
        | NList ordered items =>
            s <- renderList fuel ordered items nestedIndentLevel ctx ;; ret (Some s)
        | _ =>
            rendered <- renderBlock fuel child nestedIndentLevel ctx ;;
            ret (if isNonEmpty rendered then rendered else None)
        end in
      match children with
      | NParagraph first :: rest =>
          p <- renderParagraph fuel first ctx ;;
          pushed <- mapM renderChild rest ;;
          ret (Js.join nl ((baseIndent +:+ marker +:+ " " +:+ p) :: omap id pushed))
      | _ =>
          pushed <- mapM renderChild children ;;
          ret (Js.join nl ((baseIndent +:+ marker) :: omap id pushed))
      end
  end

with renderTable (fuel : nat) (align : option (list (option AlignType)))
    (rows : list (list (list Node))) (indentLevel : nat) (ctx : RenderContext)
    {struct fuel} : M string :=
  match fuel with
  | O => throw stackOverflow
  | S fuel =>
      tryCatch
        (match rows with
         | [] => report (onError ctx) emptyTable ;;; ret ""
         | headerRow :: dataRows =>
             let colCount := length headerRow in
             match colCount with
             | O => report (onError ctx) noColumns ;;; ret ""
             | _ =>
                 let aligns := map alignName (default [] align) in
                 let columns := Js.join ", " (replicate colCount "1fr") in
                 headerCells <-
                   mapM (fun cell => content <- renderInlines fuel cell ctx ;;
                                     ret ("[*" +:+ content +:+ "*]")) headerRow ;;
                 dataCells <-
                   mapM (fun cell => content <- renderInlines fuel cell ctx ;;
                                     ret ("[" +:+ content +:+ "]")) (concat dataRows) ;;
                 let alignArgs := Js.join ", " (take colCount aligns) in
                 let lines :=
                   [ "#table(";
                     "  columns: (" +:+ columns +:+ "),";
                     "  align: (" +:+ alignArgs +:+ "),";
                     "  table.header(" +:+ Js.join ", " headerCells +:+ "),";
                     "  " +:+ Js.join ", " dataCells;
                     ")" ] in
                 ret (indentLines (Js.join nl lines) indentLevel)
             end
         end)
        (fun error => report (onError ctx) (tableFailed error) ;;; ret "")
  end

with renderBlockquote (fuel : nat) (children : list Node) (indentLevel : nat)
    (ctx : RenderContext) {struct fuel} : M string :=
  match fuel with
  | O => throw stackOverflow
  | S fuel =>
      rendered <- mapM (fun child => renderBlock fuel child 0 ctx) children ;;
      let body := Js.join (nl +:+ nl) (filterNonEmpty rendered) in
      let open := indentLines "#quote[" indentLevel in
      if negb (Js.truthy (Js.trim body))
      then ret (open +:+ nl +:+ indentLines "]" indentLevel)
      else ret (Js.join nl [open; indentLines body (indentLevel + 1);
                            indentLines "]" indentLevel])
  end

with renderInlines (fuel : nat) (nodes : list Node) (ctx : RenderContext)
    {struct fuel} : M string :=
  match fuel with
  | O => throw stackOverflow
  | S fuel =>
      rendered <- mapM (fun node => renderInline fuel node ctx) nodes ;;
      ret (Js.join "" (filterNonEmpty rendered))
  end

with renderInline (fuel : nat) (node : Node) (ctx : RenderContext)
    {struct fuel} : M (option string) :=
  match fuel with
  | O => throw stackOverflow
  | S fuel =>
      match node with
      | NText value => ret (Some (escapeTypstText value))
      | NStrong children =>
          s <- renderInlines fuel children ctx ;; ret (Some ("*" +:+ s +:+ "*"))
      | NEmphasis children =>
          s <- renderInlines fuel children ctx ;; ret (Some ("_" +:+ s +:+ "_"))
      | NDelete children =>
          s <- renderInlines fuel children ctx ;; ret (Some ("#strike[" +:+ s +:+ "]"))
      | NMark children =>
          s <- renderInlines fuel children ctx ;; ret (Some ("#highlight[" +:+ s +:+ "]"))
      | NSubscript children =>
          s <- renderInlines fuel children ctx ;; ret (Some ("#sub[" +:+ s +:+ "]"))
      | NSuperscript children =>
          s <- renderInlines fuel children ctx ;; ret (Some ("#super[" +:+ s +:+ "]"))
      | NFootnoteReference identifier =>
          match footnoteDefinitions ctx !! Js.toLowerCase identifier with
          | None =>
              report (onError ctx) (footnoteMissing identifier) ;;; ret (Some "")
          | Some def =>
              tryCatch
                (rendered <- mapM (fun child => renderBlock fuel child 0 ctx)
                                  (fn_children def) ;;
                 let content := Js.join " " (filterNonEmpty rendered) in
                 ret (Some ("#footnote[" +:+ Js.trim content +:+ "]")))
                (fun error =>
                   report (onError ctx) (footnoteFailed identifier error) ;;;
                   ret (Some ""))
          end
      | NInlineCode value => ret (Some (renderInlineCode value))
      | NInlineMath value position => renderInlineMath value position ctx
      | NImage url => s <- renderImage url ;; ret (Some s)
      | NLink url children =>
          s <- renderLink fuel url children ctx ;; ret (Some s)
      | NLinkReference identifier label children =>
          renderLinkReference fuel identifier label children ctx
      | NBreak => ret (Some ("\" +:+ nl))
      | NHtml value => ret (Some (escapeTypstText value))
      | _ => ret None
      end
  end

with renderLink (fuel : nat) (url : string) (children : list Node) (ctx : RenderContext)
    {struct fuel} : M string :=
  match fuel with
  | O => throw stackOverflow
  | S fuel =>
      let escaped := escapeTypstString url in
      label <- renderInlines fuel children ctx ;;
      if negb (Js.truthy (Js.trim label))
      then ret ("#link(" +:+ dq +:+ escaped +:+ dq +:+ ")[" +:+ escapeTypstText url +:+ "]")
      else ret ("#link(" +:+ dq +:+ escaped +:+ dq +:+ ")[" +:+ label +:+ "]")
  end

with renderLinkReference (fuel : nat) (identifier : string) (label : option string)
    (children : list Node) (ctx : RenderContext) {struct fuel} : M (option string) :=
  match fuel with
  | O => throw stackOverflow
  | S fuel =>
      let def := definitions ctx !! Js.toLowerCase identifier in
      rendered <- renderInlines fuel children ctx ;;
      let fallback :=
        Js.orElse rendered (escapeTypstText (Js.orElse (default "" label) identifier)) in
      match def with
      | None =>
          report (onError ctx) (linkReferenceMissing identifier) ;;;
          ret (Some fallback)
      | Some def =>
          tryCatch
            (let escaped := escapeTypstString (def_url def) in
             if negb (Js.truthy (Js.trim rendered))
             then ret (Some ("#link(" +:+ dq +:+ escaped +:+ dq +:+ ")["
                             +:+ escapeTypstText (def_url def) +:+ "]"))
             else ret (Some ("#link(" +:+ dq +:+ escaped +:+ dq +:+ ")["
                             +:+ rendered +:+ "]")))
            (fun error =>
               report (onError ctx) (linkReferenceFailed identifier error) ;;;
               ret (Some fallback))
      end
  end.

End Renderers.

(** The [switch] of [renderBlock]: the body of its [try]. *)
Definition renderBlockDispatch (tex2typst : string -> Outcome string) (fuel : nat)
    (node : Node) (indentLevel : nat) (ctx : RenderContext) : M (option string) :=
  match node with
  | NYaml _ | NDefinition _ | NFootnoteDefinition _ _ => ret None
  | NHeading depth children =>
      s <- renderHeading tex2typst fuel depth children indentLevel ctx ;; ret (Some s)
  | NParagraph children =>
      s <- renderParagraph tex2typst fuel children ctx ;;
      ret (Some (indentLines s indentLevel))
  | NList ordered items =>
      s <- renderList tex2typst fuel ordered items indentLevel ctx ;; ret (Some s)
  | NCode lang value => ret (Some (renderCodeBlock lang value indentLevel))
  | NBlockquote children =>
      s <- renderBlockquote tex2typst fuel children indentLevel ctx ;; ret (Some s)
  | NThematicBreak =>
      ret (Some (indentLines "#line(length: 100%, stroke: 0.6pt)" indentLevel))
  | NTable align rows =>
      s <- renderTable tex2typst fuel align rows indentLevel ctx ;; ret (Some s)
  | NMath value =>
      s <- renderMathBlock tex2typst value indentLevel ctx ;; ret (Some s)
  | _ =>
      report (onError ctx) (unknownBlock node) ;;; ret None
  end.

(** [renderBlock] is its dispatch inside the [try], and the [catch] that
    reports the failure and gives [null]. *)
Lemma renderBlock_S (tex2typst : string -> Outcome string) (fuel : nat) (node : Node)
    (indentLevel : nat) (ctx : RenderContext) :
  renderBlock tex2typst (S fuel) node indentLevel ctx
  = tryCatch (renderBlockDispatch tex2typst fuel node indentLevel ctx)
      (fun error => report (onError ctx) (blockFailed node error) ;;; ret None).
Proof. reflexivity. Qed.

(** ** Module [collectors] *)

(** Run [m] and tell whether it threw. *)
Definition attempt (m : M unit) : M (option Exn) :=
  tryCatch (m ;;; ret None) (fun error => ret (Some error)).

Definition duplicateDefinition (def : DefinitionNode) : ConversionError :=
  mkError WARNING
    ("Duplicate link/image definition found: [" +:+ def_identifier def +:+ "]")
    "definition collection" None
    [("identifier", def_identifier def); ("url", def_url def)].

Definition collectDefinitionsFailed (error : Exn) : ConversionError :=
  mkError ERROR ("Error collecting definitions: " +:+ errorMessage error)
    "definition collection" (Some error) [].

(** The [for] loop of [collectDefinitions] over the map built so far.  The
    loop ends with the map and the exception that stopped it, if any. *)
Fixpoint collectDefinitionsLoop (onError : option ErrorCallback) (nodes : list Node)
    (defs : gmap string DefinitionNode) : M (gmap string DefinitionNode * option Exn) :=
  match nodes with
  | [] => ret (defs, None)
  | NDefinition def :: rest =>
      let identifier := Js.toLowerCase (def_identifier def) in
      thrown <- attempt (match defs !! identifier with
                         | Some _ => report onError (duplicateDefinition def)
                         | None => ret tt
                         end) ;;
      match thrown with
      | Some error => ret (defs, Some error)
      | None => collectDefinitionsLoop onError rest (<[identifier := def]> defs)
      end
  | _ :: rest => collectDefinitionsLoop onError rest defs
  end.

Definition collectDefinitions (root : Root) (onError : option ErrorCallback)
    : M (gmap string DefinitionNode) :=
  r <- collectDefinitionsLoop onError root ∅ ;;
  match r with
  | (defs, None) => ret defs
  | (defs, Some error) =>
      report onError (collectDefinitionsFailed error) ;;; ret defs
  end.

Definition duplicateFootnote (identifier : string) : ConversionError :=
  mkError WARNING
    ("Duplicate footnote definition found: [^" +:+ identifier +:+ "]")
    "footnote collection" None [("identifier", identifier)].

Definition collectFootnotesFailed (error : Exn) : ConversionError :=
  mkError ERROR ("Error collecting footnotes: " +:+ errorMessage error)
    "footnote collection" (Some error) [].

Fixpoint collectFootnotesLoop (onError : option ErrorCallback) (nodes : list Node)
    (defs : gmap string FootnoteDefinition) : M (gmap string FootnoteDefinition * option Exn) :=
  match nodes with
  | [] => ret (defs, None)
  | NFootnoteDefinition ident children :: rest =>
      let identifier := Js.toLowerCase ident in
      thrown <- attempt (match defs !! identifier with
                         | Some _ => report onError (duplicateFootnote ident)
                         | None => ret tt
                         end) ;;
      match thrown with
      | Some error => ret (defs, Some error)
      | None =>
          collectFootnotesLoop onError rest
            (<[identifier := {| fn_identifier := ident; fn_children := children |}]> defs)
      end
  | _ :: rest => collectFootnotesLoop onError rest defs
  end.

Definition collectFootnotes (root : Root) (onError : option ErrorCallback)
    : M (gmap string FootnoteDefinition) :=
  r <- collectFootnotesLoop onError root ∅ ;;
  match r with
  | (defs, None) => ret defs
  | (defs, Some error) =>
      report onError (collectFootnotesFailed error) ;;; ret defs
  end.

(** The loop of [findLeadingH1], from index [i]. *)
Fixpoint findLeadingH1From (nodes : list Node) (defs : gmap string DefinitionNode) (i : nat)
    : option (string * nat) :=
  match nodes with
  | [] => None
  | NYaml _ :: rest | NDefinition _ :: rest => findLeadingH1From rest defs (S i)
  | NHeading depth children :: _ =>
      if Nat.eqb depth 1
      then let title := Js.trim (plainTextFromPhrasing children defs) in
           if Js.truthy title then Some (title, i) else None
      else None
  | _ :: _ => None
  end.

Definition leadingH1Failed (error : Exn) : ConversionError :=
  mkError WARNING ("Error extracting leading H1 title: " +:+ errorMessage error)
    "title extraction" (Some error) [].

Definition findLeadingH1 (root : Root) (defs : gmap string DefinitionNode)
    (onError : option ErrorCallback) : M (option (string * nat)) :=
  tryCatch
    (ret (findLeadingH1From root defs 0))
    (fun error => report onError (leadingH1Failed error) ;;; ret None).

(** ** Module [frontmatter] *)

(** A value decoded from YAML by the [js-yaml] package.  Of a number the
    code only looks at its type and at whether it is falsy (0 or NaN); of a
    [Date], at its [toISOString()]. *)
Inductive YamlValue :=
| YNull
| YBool (b : bool)
| YNumber (zeroOrNaN : bool)
| YString (s : string)
| YDate (isoString : string)
| YArray (items : list YamlValue)
| YObject (fields : list (string * YamlValue)).

(** [typeof v] *)
Definition typeOf (v : YamlValue) : string :=
  match v with
  | YBool _ => "boolean"
  | YNumber _ => "number"
  | YString _ => "string"
  | YNull | YDate _ | YArray _ | YObject _ => "object"
  end.

(** [!v] *)
Definition falsy (v : YamlValue) : bool :=
  match v with
  | YNull => true
  | YBool b => negb b
  | YNumber z => z
  | YString s => negb (Js.truthy s)
  | _ => false
  end.

(** [parsed[key]] with ['key' in parsed]. *)
Fixpoint field (key : string) (fields : list (string * YamlValue)) : option YamlValue :=
  match fields with
  | [] => None
  | (k, v) :: rest => if String.eqb k key then Some v else field key rest
  end.

Definition stringField (key : string) (fields : list (string * YamlValue)) : option string :=
  match field key fields with
  | Some (YString s) => Some s
  | _ => None
  end.

(** [items.filter(a => typeof a === 'string')] *)
Fixpoint onlyStrings (items : list YamlValue) : list string :=
  match items with
  | [] => []
  | YString s :: rest => s :: onlyStrings rest
  | _ :: rest => onlyStrings rest
  end.

Definition arrayField (key : string) (fields : list (string * YamlValue)) : option (list string) :=
  match field key fields with
  | Some (YArray items) => Some (onlyStrings items)
  | _ => None
  end.

(** [string | string[]] *)
Inductive AuthorField :=
| OneAuthor (name : string)
| ManyAuthors (names : list string).

Record Frontmatter := {
  fm_title : option string;
  fm_author : option AuthorField;
  fm_authors : option (list string);
  fm_description : option string;
  fm_keywords : option (list string);
  fm_date : option string;
  fm_abstract : option string;
  fm_lang : option string;
  fm_language : option string;
  fm_region : option string
}.

Definition emptyFrontmatter : Frontmatter :=
  {| fm_title := None; fm_author := None; fm_authors := None;
     fm_description := None; fm_keywords := None; fm_date := None;
     fm_abstract := None; fm_lang := None; fm_language := None;
     fm_region := None |}.

Record Markdown2TypstOptions := {
  opt_title : option string;
  opt_author : option AuthorField;
  opt_authors : option (list string);
  opt_description : option string;
  opt_keywords : option (list string);
  opt_date : option string;
  opt_abstract : option string;
  opt_lang : option string;
  opt_language : option string;
  opt_region : option string;
  opt_useH1AsTitle : bool;
  opt_onError : option ErrorCallback
}.

Record DocumentMetadata := {
  title : string;
  authors : list string;
  description : option string;
  keywords : option (list string);
  date : option string;
  abstract : option string;
  lang : option string;
  region : option string
}.

Definition emptyYaml : ConversionError :=
  mkError WARNING "YAML frontmatter is empty or not an object" "frontmatter parsing" None [].

Definition badAuthor (v : YamlValue) : ConversionError :=
  mkError WARNING
    ("Frontmatter " +:+ dq +:+ "author" +:+ dq +:+ " field must be a string or array of strings")
    "frontmatter parsing" None [("fieldType", typeOf v)].

Definition yamlFailed (error : Exn) : ConversionError :=
  mkError WARNING ("Failed to parse YAML frontmatter: " +:+ errorMessage error)
    "frontmatter parsing" (Some error) [].

(** [/^(\d{4})-(\d{1,2})-(\d{1,2})$/.exec(s)]: the three groups. *)
Definition isoMatch (s : string) : option (string * string * string) :=
  let '(y, r1) := Js.spanDigits s in
  match r1 with
  | String "-" r1' =>
      let '(m, r2) := Js.spanDigits r1' in
      match r2 with
      | String "-" r2' =>
          let '(d, r3) := Js.spanDigits r2' in
          if (String.length y =? 4)%nat
             && ((String.length m =? 1) || (String.length m =? 2))%nat
             && ((String.length d =? 1) || (String.length d =? 2))%nat
             && String.eqb r3 ""
          then Some (y, m, d)
          else None
      | _ => None
      end
  | _ => None
  end.

Definition datetime (day month year : N) : string :=
  "datetime(day: " +:+ Js.showN day +:+ ", month: " +:+ Js.showN month
    +:+ ", year: " +:+ Js.showN year +:+ ")".

Definition parseDate (value : string) : Outcome string :=
  let v := Js.toLowerCase (Js.trim value) in
  if String.eqb v "auto" then Ok "auto"
  else if String.eqb v "none" then Ok "none"
  else match isoMatch (Js.trim value) with
       | Some (y, m, d) =>
           let year := Js.parseInt y in
           let month := Js.parseInt m in
           let day := Js.parseInt d in
           Ok (datetime day month year)
       | None => Ok "auto"
       end.

(** [v.split(/[-_]/)[0]] *)
Fixpoint beforeDashOrUnderscore (s : string) : string :=
  match s with
  | "" => ""
  | String c s' =>
      if Ascii.eqb c "-" || Ascii.eqb c "_" then ""
      else String c (beforeDashOrUnderscore s')
  end.

(** [iso.split('T')[0]] *)
Fixpoint beforeT (s : string) : string :=
  match s with
  | "" => ""
  | String c s' => if Ascii.eqb c "T" then "" else String c (beforeT s')
  end.

(** An entry of the [langs] package. *)
Record LangEntry := {
  lang_name : option string;
  lang_local : option string;
  lang_1 : option string;
  lang_2 : option string;
  lang_2B : option string;
  lang_3 : option string
}.

Section Metadata.

(** The [js-yaml] decoder: a value, or an exception on malformed input. *)
Variable parseYaml : string -> Outcome YamlValue.

(** The tables of the [langs] package: [langs.codes('1')], [langs.all()]
    and [langs.where(criterion, value)]. *)
Variable langsCodes1 : list string.
Variable langsAll : list LangEntry.
Variable langsWhere : string -> string -> option LangEntry.

(** The tables of the [country-list] package: [getCodes()] and [getCode(name)]. *)
Variable getCodes : list string.
Variable getCode : string -> option string.

(** [String.prototype.toUpperCase] of the engine. *)
Variable toUpperCase : string -> string.

Definition parseFrontmatterYaml (yaml : string) (onError : option ErrorCallback)
    : M Frontmatter :=
  tryCatch
    (parsed <- liftOutcome (parseYaml yaml) ;;
     if falsy parsed || negb (String.eqb (typeOf parsed) "object")
     then report onError emptyYaml ;;; ret emptyFrontmatter
     else
       let fields := match parsed with YObject fs => fs | _ => [] end in
       author <-
         match field "author" fields with
         | Some (YString s) => ret (Some (OneAuthor s))
         | Some (YArray items) => ret (Some (ManyAuthors (onlyStrings items)))
         | Some v => report onError (badAuthor v) ;;; ret None
         | None => ret None
         end ;;
       ret {| fm_title := stringField "title" fields;
              fm_author := author;
              fm_authors := arrayField "authors" fields;
              fm_description := stringField "description" fields;
              fm_keywords := arrayField "keywords" fields;
              fm_date := match field "date" fields with
                         | Some (YString s) => Some s
                         | Some (YDate iso) => Some (beforeT iso)
                         | _ => None
                         end;
              fm_abstract := stringField "abstract" fields;
              fm_lang := stringField "lang" fields;
              fm_language := stringField "language" fields;
              fm_region := stringField "region" fields |})
    (fun error => report onError (yamlFailed error) ;;; ret emptyFrontmatter).

(** [root.children.find((node) => node.type === 'yaml')], its value. *)
Fixpoint findYaml (nodes : list Node) : option string :=
  match nodes with
  | [] => None
  | NYaml value :: _ => Some value
  | _ :: rest => findYaml rest
  end.

Definition parseFrontmatter (root : Root) (onError : option ErrorCallback) : M Frontmatter :=
  match findYaml root with
  | Some value =>
      if Js.truthy value then parseFrontmatterYaml value onError
      else ret emptyFrontmatter
  | None => ret emptyFrontmatter
  end.

(** The first entry of [langs.all()] whose name or local name is [v], case
    apart, and that has a two-letter code. *)
Fixpoint langByName (v : string) (entries : list LangEntry) : option string :=
  match entries with
  | [] => None
  | entry :: rest =>
      let matches (field : option string) :=
        match field with
        | Some n => Js.truthy n && String.eqb (Js.toLowerCase n) (Js.toLowerCase v)
                    && Js.truthyOpt (lang_1 entry)
        | None => false
        end in
      if matches (lang_name entry) then lang_1 entry
      else if matches (lang_local entry) then lang_1 entry
      else langByName v rest
  end.

(** [langs.where(criterion, v)], when the entry has a two-letter code. *)
Definition langWhere1 (criterion v : string) : option string :=
  match langsWhere criterion v with
  | Some entry => if Js.truthyOpt (lang_1 entry) then lang_1 entry else None
  | None => None
  end.

Definition coerceLanguage (value : option string) : option string :=
  match value with
  | None => None
  | Some value =>
      if negb (Js.truthy value) then None
      else
        let v := Js.trim value in
        if negb (Js.truthy v) then None
        else
          let langPart := Js.toLowerCase (beforeDashOrUnderscore v) in
          if existsb (String.eqb langPart) langsCodes1 then Some langPart
          else match langByName v langsAll with
               | Some code => Some code
               | None =>
                   match langWhere1 "2" (Js.toLowerCase v) with
                   | Some code => Some code
                   | None =>
                       match langWhere1 "2B" (Js.toLowerCase v) with
                       | Some code => Some code
                       | None => langWhere1 "3" (Js.toLowerCase v)
                       end
                   end
               end
  end.

Definition coerceRegion (value : option string) : option string :=
  match value with
  | None => None
  | Some value =>
      if negb (Js.truthy value) then None
      else
        let v := Js.trim value in
        if negb (Js.truthy v) then None
        else
          let upperValue := toUpperCase v in
          if existsb (String.eqb upperValue) getCodes then Some upperValue
          else match getCode v with
               | Some code => if Js.truthy code then Some (toUpperCase code) else None
               | None => None
               end
  end.

(** [typeof a === 'string' ? [a] : a] *)
Definition authorList (a : option AuthorField) : option (list string) :=
  match a with
  | Some (OneAuthor name) => Some [name]
  | Some (ManyAuthors names) => Some names
  | None => None
  end.

Definition mergeMetadata (options : Markdown2TypstOptions) (frontmatter : Frontmatter)
    (leadingTitle : option string) : DocumentMetadata :=
  let title :=
    default "" (Js.nullish (opt_title options)
                  (Js.nullish (fm_title frontmatter) leadingTitle)) in
  let optionsAuthors :=
    default [] (Js.nullish (opt_authors options) (authorList (opt_author options))) in
  let frontmatterAuthors :=
    default [] (Js.nullish (fm_authors frontmatter) (authorList (fm_author frontmatter))) in
  let authors :=
    if (0 <? length optionsAuthors)%nat then optionsAuthors else frontmatterAuthors in
  let lang :=
    coerceLanguage
      (Js.nullish (opt_lang options)
         (Js.nullish (opt_language options)
            (Js.nullish (fm_lang frontmatter) (fm_language frontmatter)))) in
  let region := coerceRegion (Js.nullish (opt_region options) (fm_region frontmatter)) in
  let date := Js.nullish (opt_date options) (fm_date frontmatter) in
  let description := Js.nullish (opt_description options) (fm_description frontmatter) in
  let keywords := Js.nullish (opt_keywords options) (fm_keywords frontmatter) in
  let abstract := Js.nullish (opt_abstract options) (fm_abstract frontmatter) in
  {| title := title; authors := authors; description := description;
     keywords := keywords; date := date; abstract := abstract;
     lang := lang; region := region |}.

End Metadata.

(** ** Module [output-builder] *)

(** The lines of the warnings section when external images were met. *)
Definition warningsSectionLines : list string :=
  [ "// ========================= WARNINGS =========================";
    "";
    "// ------------------------------------------------------------";
    "// NOTE: The conversion did not work perfectly due to intrinsic";
    "// Markdown to Typst limitations. The following custom";
    "// functions, set or show rules are used to visually display";
    "// these minor conversion warnings to the user.";
    "// ------------------------------------------------------------";
    "";
    "// EXTERNAL IMAGES WERE DETECTED!";
    "#let external-image(url) = {";
    "  rect(radius: 4pt, inset: 20pt,)[";
    "    #align(center)[";
    "      #text()[";
    "        External image detected: \";
    "        #link(url)";
    "      ]";
    "    ]";
    "  ]";
    "}";
    "";
    "// ============================================================" ].

Definition warningsSection : string := Js.join nl warningsSectionLines.

Definition buildWarningsSection : M (option string) :=
  hasWarnings <- readExternalImages ;;
  if negb hasWarnings then ret None
  else ret (Some warningsSection).

Definition dateFailed (date : string) (error : Exn) : ConversionError :=
  mkError WARNING
    ("Failed to parse date " +:+ dq +:+ date +:+ dq +:+ ": " +:+ errorMessage error)
    "output building" (Some error) [].

Definition metadataFailed (error : Exn) : ConversionError :=
  mkError ERROR ("Error building document metadata: " +:+ errorMessage error)
    "output building" (Some error) [].

Definition outputFailed (error : Exn) : ConversionError :=
  mkError ERROR ("Fatal error building output: " +:+ errorMessage error)
    "output building" (Some error) [].

(** The [date] argument of [#set document(...)]: the inner [try] of
    [buildOutput]. *)
Definition dateArg (date : string) (ctx : RenderContext) : M string :=
  tryCatch
    (dateTypst <- liftOutcome (parseDate date) ;;
     ret ("date: " +:+ dateTypst))
    (fun error =>
       report (onError ctx) (dateFailed date error) ;;;
       ret "date: auto").

Definition quoted (s : string) : string := dq +:+ escapeTypstString s +:+ dq.

(** The loop that writes one argument per line, a comma after all but the last. *)
Fixpoint docArgLines (docArgs : list string) : list string :=
  match docArgs with
  | [] => []
  | [a] => ["  " +:+ a]
  | a :: rest => ("  " +:+ a +:+ ",") :: docArgLines rest
  end.

Definition nonEmptyList (l : option (list string)) : bool :=
  match l with
  | Some (_ :: _) => true
  | _ => false
  end.

Definition hasMetadata (metadata : DocumentMetadata) : bool :=
  Js.truthy (title metadata)
  || (0 <? length (authors metadata))%nat
  || Js.truthyOpt (description metadata)
  || Js.truthyOpt (date metadata)
  || nonEmptyList (keywords metadata).

Definition frontmatterHeader : list string :=
  ["// ===============  FRONTMATTER  ==============="; ""].

(** The [#set document(...)] block: the outer [try] of the metadata part.
    The two header lines are pushed before anything can throw, so they stay
    in [parts] when the [catch] runs. *)
Definition documentBlock (metadata : DocumentMetadata) (ctx : RenderContext) : M (list string) :=
  tryCatch
    (let args1 :=
       (if Js.truthy (title metadata) then ["title: [" +:+ title metadata +:+ "]"] else [])
       ++ (if (0 <? length (authors metadata))%nat
           then ["author: " +:+ renderTypstArray (map quoted (authors metadata))] else [])
       ++ (if Js.truthyOpt (description metadata)
           then ["description: [" +:+ default "" (description metadata) +:+ "]"] else [])
       ++ (if nonEmptyList (keywords metadata)
           then ["keywords: " +:+ renderTypstArray (map quoted (default [] (keywords metadata)))]
           else []) in
     args2 <- (if Js.truthyOpt (date metadata)
               then a <- dateArg (default "" (date metadata)) ctx ;; ret [a]
               else ret []) ;;
     ret (frontmatterHeader ++ ["#set document("] ++ docArgLines (args1 ++ args2) ++ [")"]))
    (fun error =>
       report (onError ctx) (metadataFailed error) ;;;
       ret frontmatterHeader).

(** [tree.children.filter((_, index) => index !== leadingTitleIndex)] *)
Fixpoint dropIndex {A} (i : nat) (xs : list A) : list A :=
  match xs, i with
  | [], _ => []
  | _ :: xs', O => xs'
  | x :: xs', S i' => x :: dropIndex i' xs'
  end.

(** The nodes of the body: all of them, or all but the leading heading when
    it was taken as the title and the merged title is not blank. *)
Definition nodesForBody (tree : Root) (metadata : DocumentMetadata)
    (leadingTitleIndex : option nat) : list Node :=
  match leadingTitleIndex with
  | Some i =>
      if negb (String.eqb (normalizeText (Some (title metadata))) "")
      then dropIndex i tree else tree
  | None => tree
  end.

Section Output.

Variable tex2typst : string -> Outcome string.

(** The [body] of [buildOutput]: every node rendered at indent 0, the
    empty results dropped, the rest separated by a blank line. *)
Definition renderBody (fuel : nat) (nodes : list Node) (ctx : RenderContext) : M string :=
  rendered <- mapM (fun node => renderBlock tex2typst fuel node 0 ctx) nodes ;;
  ret (Js.join (nl +:+ nl) (filterNonEmpty rendered)).

(** Everything [buildOutput] pushes to [parts] before the warnings section. *)
Definition headerParts (metadata : DocumentMetadata) (ctx : RenderContext) : M (list string) :=
  let hasMeta := hasMetadata metadata in
  parts1 <- (if hasMeta then documentBlock metadata ctx else ret []) ;;
  let parts2 :=
    if Js.truthyOpt (abstract metadata)
    then parts1 ++ (if (0 <? length parts1)%nat then [""] else [])
                ++ ["#let abstract = [" +:+ default "" (abstract metadata) +:+ "]"]
    else parts1 in
  let parts3 :=
    if (Js.truthy (title metadata) || (0 <? length (authors metadata))%nat
        || Js.truthyOpt (date metadata) || Js.truthyOpt (abstract metadata))
       && hasMeta
    then
      let centerLines :=
        (if Js.truthy (title metadata) then ["#title() \ \"] else [])
        ++ (if (0 <? length (authors metadata))%nat
            then ["#context document.author.join(" +:+ dq +:+ ", " +:+ dq +:+ ", last: "
                    +:+ dq +:+ " & " +:+ dq +:+ ") \ \"] else [])
        ++ (if Js.truthyOpt (date metadata)
            then ["#context document.date.display() \ \ "] else [])
        ++ (if Js.truthyOpt (abstract metadata)
            then ["\ *Abstract* \"; "#abstract"] else []) in
      parts2 ++ [""; "#align(center)["; "  " +:+ Js.join " " centerLines; "]"]
    else parts2 in
  let parts4 :=
    if Js.truthyOpt (lang metadata) || Js.truthyOpt (region metadata)
    then
      let textArgs :=
        (if Js.truthyOpt (lang metadata)
         then ["lang: " +:+ dq +:+ default "" (lang metadata) +:+ dq] else [])
        ++ (if Js.truthyOpt (region metadata)
            then ["region: " +:+ dq +:+ default "" (region metadata) +:+ dq] else []) in
      parts3 ++ (if (0 <? length parts3)%nat then [""] else [])
             ++ ["#set text(" +:+ Js.join ", " textArgs +:+ ")"]
    else parts3 in
  ret (if hasMeta
       then parts4 ++ [""; "//  ============================================"]
       else parts4).

(** The [parts] array of [buildOutput] once the body is pushed. *)
Definition outputParts (fuel : nat) (tree : Root) (metadata : DocumentMetadata)
    (leadingTitleIndex : option nat) (ctx : RenderContext) : M (list string * string) :=
  body <- renderBody fuel (nodesForBody tree metadata leadingTitleIndex) ctx ;;
  parts <- headerParts metadata ctx ;;
  section <- buildWarningsSection ;;
  let parts5 :=
    match section with
    | Some w => if Js.truthy w then parts ++ [""; w] else parts
    | None => parts
    end in
  let parts6 :=
    if (0 <? length parts5)%nat && Js.truthy body then parts5 ++ [""] else parts5 in
  let parts7 := if Js.truthy body then parts6 ++ [body] else parts6 in
  ret (parts7, body).

Definition buildOutput (fuel : nat) (tree : Root) (metadata : DocumentMetadata)
    (leadingTitleIndex : option nat) (ctx : RenderContext) : M string :=
  tryCatch
    (r <- outputParts fuel tree metadata leadingTitleIndex ctx ;;
     let '(parts, body) := r in
     ret (if (0 <? length parts)%nat then Js.join nl parts else body))
    (fun error =>
       report (onError ctx) (outputFailed error) ;;;
       throw error).

End Output.

(** ** Modules [parser] and [markdown2typst] *)

Definition parseFailed (error : Exn) : ConversionError :=
  mkError ERROR ("Failed to parse Markdown: " +:+ errorMessage error)
    "markdown parsing" (Some error) [].

Definition conversionFailed (error : Exn) : ConversionError :=
  mkError ERROR ("Fatal error during conversion: " +:+ errorMessage error)
    "markdown2typst" (Some error) [].

(** [warnings: { externalImages: false }] of a fresh context. *)
Definition freshWarnings : M unit :=
  fun s => (Ok tt, {| externalImages := false; reported := reported s |}).

Section Pipeline.

(** The remark processor ([parse] then [runSync]): a tree, or an exception. *)
Variable remark : string -> Outcome Root.
Variable tex2typst : string -> Outcome string.
Variable parseYaml : string -> Outcome YamlValue.
Variable langsCodes1 : list string.
Variable langsAll : list LangEntry.
Variable langsWhere : string -> string -> option LangEntry.
Variable getCodes : list string.
Variable getCode : string -> option string.
Variable toUpperCase : string -> string.

Definition parseMarkdown (markdown : string) (onError : option ErrorCallback) : M Root :=
  tryCatch
    (liftOutcome (remark markdown))
    (fun error => report onError (parseFailed error) ;;; throw error).

Definition markdown2typst (fuel : nat) (markdown : string) (options : Markdown2TypstOptions)
    : M string :=
  let onError := opt_onError options in
  tryCatch
    (tree <- parseMarkdown markdown onError ;;
     definitions <- collectDefinitions tree onError ;;
     footnoteDefinitions <- collectFootnotes tree onError ;;
     frontmatter <- parseFrontmatter parseYaml tree onError ;;
     leadingH1 <- (if opt_useH1AsTitle options
                   then findLeadingH1 tree definitions onError
                   else ret None) ;;
     let metadata :=
       mergeMetadata langsCodes1 langsAll langsWhere getCodes getCode toUpperCase
         options frontmatter (fst <$> leadingH1) in
     freshWarnings ;;;
     let ctx := {| definitions := definitions;
                   footnoteDefinitions := footnoteDefinitions;
                   onError := onError |} in
     buildOutput tex2typst fuel tree metadata (snd <$> leadingH1) ctx)
    (fun error => report onError (conversionFailed error) ;;; throw error).

End Pipeline.

(** ** Examples *)

Module Examples.

Definition noMath (latex : string) : Outcome string := Ok latex.
Definition noYaml (yaml : string) : Outcome YamlValue := Ok YNull.
Definition upper (s : string) : string := s.

Definition plainOptions : Markdown2TypstOptions :=
  {| opt_title := None; opt_author := None; opt_authors := None;
     opt_description := None; opt_keywords := None; opt_date := None;
     opt_abstract := None; opt_lang := None; opt_language := None;
     opt_region := None; opt_useH1AsTitle := false; opt_onError := None |}.

(** A callback that records and returns. *)
Definition listen : ErrorCallback := fun _ => None.

(** A callback that throws whatever it is told. *)
Definition boom : ErrorCallback := fun _ => Some (JsError "boom").

Definition convert (tree : Root) (options : Markdown2TypstOptions) : Outcome string * State :=
  markdown2typst (fun _ => Ok tree) noMath noYaml [] [] (fun _ _ => None) [] (fun _ => None)
    upper 100 "" options initialState.

(** [# Hello Typst], a blank line, [Welcome to **bold**.] *)
Definition hello : Root :=
  [ NHeading 1 [NText "Hello Typst"];
    NParagraph [NText "Welcome to "; NStrong [NText "bold"]; NText "."] ].

End Examples.

(** * Properties *)

(** ** Strings *)

Lemma append_nil_l (s : string) : "" +:+ s = s.
Proof. reflexivity. Qed.

Lemma append_cons (c : ascii) (s t : string) : String c s +:+ t = String c (s +:+ t).
Proof. reflexivity. Qed.

Lemma append_empty_r (s : string) : s +:+ "" = s.
Proof.
  induction s as [|c s IH]; [reflexivity|]. now rewrite append_cons, IH.
Qed.

Lemma append_assoc (a b c : string) : (a +:+ b) +:+ c = a +:+ (b +:+ c).
Proof.
  induction a as [|x a IH]; [reflexivity|]. now rewrite !append_cons, IH.
Qed.

Lemma repeat_backtick_succ (k : nat) (s : string) :
  Js.repeat "`" (S k) +:+ s = String backtick (Js.repeat "`" k +:+ s).
Proof. reflexivity. Qed.

Lemma repeat_backtick_shift (k : nat) (s : string) :
  Js.repeat "`" k +:+ String backtick s = Js.repeat "`" (S k) +:+ s.
Proof.
  induction k as [|k IH]; [reflexivity|].
  rewrite repeat_backtick_succ, IH. reflexivity.
Qed.

(** ** Code fences (module [block-renderer], [renderCodeBlock]) *)

Section BacktickRuns.

Lemma maxBacktickRunFrom_ge_max (s : string) :
  forall run maxRun, maxRun <= maxBacktickRunFrom s run maxRun.
Proof.
  induction s as [|c s IH]; intros run maxRun; simpl; [lia|].
  destruct (Ascii.eqb c backtick).
  - destruct (Nat.ltb_spec maxRun (S run)).
    + etransitivity; [|apply IH]. lia.
    + apply IH.
  - apply IH.
Qed.

(** A run that starts here is counted on top of the run already open. *)
Lemma maxBacktickRunFrom_run (k : nat) :
  forall post run maxRun,
    run <= maxRun ->
    run + k <= maxBacktickRunFrom (Js.repeat "`" k +:+ post) run maxRun.
Proof.
  induction k as [|k IH]; intros post run maxRun Hinv.
  - change (Js.repeat "`" 0 +:+ post) with post.
    pose proof (maxBacktickRunFrom_ge_max post run maxRun). lia.
  - rewrite repeat_backtick_succ. simpl.
    destruct (Nat.ltb_spec maxRun (S run)).
    + specialize (IH post (S run) (S run)). lia.
    + specialize (IH post (S run) maxRun). lia.
Qed.

Lemma maxBacktickRunFrom_anywhere (k : nat) (pre : string) :
  forall post run maxRun,
    run <= maxRun ->
    k <= maxBacktickRunFrom (pre +:+ Js.repeat "`" k +:+ post) run maxRun.
Proof.
  induction pre as [|c pre IH]; intros post run maxRun Hinv.
  - rewrite append_nil_l.
    pose proof (maxBacktickRunFrom_run k post run maxRun Hinv). lia.
  - rewrite append_cons. simpl. destruct (Ascii.eqb c backtick).
    + destruct (Nat.ltb_spec maxRun (S run)); apply IH; lia.
    + apply IH. lia.
Qed.

(** No run of backticks in [value] is longer than [maxBacktickRun value]. *)
Lemma maxBacktickRun_bounds_runs (value : string) (k : nat) :
  occursIn (Js.repeat "`" k) value -> k <= maxBacktickRun value.
Proof.
  intros (pre & post & ->). apply maxBacktickRunFrom_anywhere. lia.
Qed.

(** The count is reached: it is the initial maximum, or the length of a
    run of the text (the open run included). *)
Lemma maxBacktickRunFrom_reached (s : string) :
  forall run maxRun,
    maxBacktickRunFrom s run maxRun = maxRun
    \/ exists pre post,
         Js.repeat "`" run +:+ s
         = pre +:+ Js.repeat "`" (maxBacktickRunFrom s run maxRun) +:+ post.
Proof.
  induction s as [|c s IH]; intros run maxRun; simpl; [now left|].
  destruct (Ascii.eqb_spec c backtick) as [->|Hc].
  - rewrite repeat_backtick_shift.
    destruct (Nat.ltb_spec maxRun (S run)) as [Hlt|Hge].
    + destruct (IH (S run) (S run)) as [Heq|(pre & post & Heq)].
      * right. exists "", s. now rewrite Heq.
      * right. now exists pre, post.
    + destruct (IH (S run) maxRun) as [Heq|(pre & post & Heq)]; [now left|].
      right. now exists pre, post.
  - destruct (IH 0 maxRun) as [Heq|(pre & post & Heq)]; [now left|].
    right. rewrite append_nil_l in Heq.
    exists (Js.repeat "`" run +:+ String c pre), post.
    rewrite append_assoc, append_cons. do 2 f_equal. exact Heq.
Qed.

Lemma maxBacktickRun_reached (value : string) :
  occursIn (Js.repeat "`" (maxBacktickRun value)) value.
Proof.
  unfold maxBacktickRun.
  destruct (maxBacktickRunFrom_reached value 0 0) as [->|(pre & post & Heq)].
  - exists "", value. reflexivity.
  - exists pre, post. exact Heq.
Qed.

Lemma maxBacktickRunFrom_strip (s : string) :
  forall run maxRun,
    maxBacktickRunFrom (stripFinalNewline s) run maxRun = maxBacktickRunFrom s run maxRun.
Proof.
  induction s as [|c s IH]; intros run maxRun; [reflexivity|].
  destruct s as [|d s].
  - simpl. destruct (Ascii.eqb_spec c newline) as [->|Hc]; reflexivity.
  - change (stripFinalNewline (String c (String d s)))
      with (String c (stripFinalNewline (String d s))).
    cbn [maxBacktickRunFrom]. destruct (Ascii.eqb c backtick); apply IH.
Qed.

End BacktickRuns.

Definition codeInfo (lang : option string) : string :=
  match lang with
  | Some l => Js.trim l
  | None => ""
  end.

(** C7.  A code block is wrapped in a fence of backticks that is at least
    three long and strictly longer than every run of backticks in the code
    value (before or after the final newline is dropped), and exactly one
    longer than the longest run when that makes three or more; the opening
    line is that fence with the trimmed language tag, if any, right behind
    it, then come the code and the same fence as closing line, each
    indented. *)
Theorem renderCodeBlock_fence (lang : option string) (value : string) (indentLevel : nat) :
  let code := stripFinalNewline value in
  let fence := Js.repeat "`" (fenceLength code) in
  3 <= fenceLength code
  /\ (forall k, occursIn (Js.repeat "`" k) value -> k < fenceLength code)
  /\ (forall k, occursIn (Js.repeat "`" k) code -> k < fenceLength code)
  /\ (exists k, occursIn (Js.repeat "`" k) code /\ fenceLength code = Nat.max 3 (k + 1))
  /\ renderCodeBlock lang value indentLevel
     = Js.join nl [ indentLines (fence +:+ codeInfo lang) indentLevel;
                    indentLines code indentLevel;
                    indentLines fence indentLevel ].
Proof.
  intros code fence. unfold fenceLength. repeat split.
  - lia.
  - intros k Hk. apply maxBacktickRun_bounds_runs in Hk.
    unfold code, maxBacktickRun in *. rewrite maxBacktickRunFrom_strip. lia.
  - intros k Hk. apply maxBacktickRun_bounds_runs in Hk. lia.
  - exists (maxBacktickRun code). split; [apply maxBacktickRun_reached | reflexivity].
  - unfold renderCodeBlock, codeInfo. fold code. fold (fenceLength code). fold fence.
    destruct lang as [l|]; [destruct (Js.trim l) eqn:Hl|]; simpl Js.truthy; cbv iota;
      rewrite ?append_empty_r; reflexivity.
Qed.

(** ** Dates (module [frontmatter], [parseDate]) *)






(** C4.  An ISO date renders as the [datetime] constructor with numeric day,
    month and year, and [auto] and [none] are kept; but a date that cannot be
    read, here [not-a-date], renders as [auto] with nothing reported to a
    callback that is listening, although the builder has a warning ready for
    it. *)
Theorem unparseable_date_reports_nothing :
  parseDate "2024-01-15" = Ok "datetime(day: 15, month: 1, year: 2024)"
  /\ parseDate "auto" = Ok "auto"
  /\ parseDate "none" = Ok "none"
  /\ parseDate "not-a-date" = Ok "auto"
  /\ (forall ctx st, dateArg "not-a-date" ctx st = (Ok "date: auto", st))
  /\ let options :=
       {| opt_title := None; opt_author := None; opt_authors := None;
          opt_description := None; opt_keywords := None;
          opt_date := Some "not-a-date"; opt_abstract := None;
          opt_lang := None; opt_language := None; opt_region := None;
          opt_useH1AsTitle := false; opt_onError := Some Examples.listen |} in
     Examples.convert [NParagraph [NText "Body"]] options
     = (Ok (Js.join nl
              [ "// ===============  FRONTMATTER  ===============";
                "";
                "#set document(";
                "  date: auto";
                ")";
                "";
                "#align(center)[";
                "  #context document.date.display() \ \ ";
                "]";
                "";
                "//  ============================================";
                "";
                "Body" ]),
        {| externalImages := false; reported := [] |}).
Proof.
  repeat split; intros; vm_compute; reflexivity.
Qed.

(** ** Metadata precedence (module [frontmatter], [mergeMetadata]) *)

Section MergeProperties.

Variable langsCodes1 : list string.
Variable langsAll : list LangEntry.
Variable langsWhere : string -> string -> option LangEntry.
Variable getCodes : list string.
Variable getCode : string -> option string.
Variable toUpperCase : string -> string.

Let merge := mergeMetadata langsCodes1 langsAll langsWhere getCodes getCode toUpperCase.
Let language := coerceLanguage langsCodes1 langsAll langsWhere.
Let country := coerceRegion getCodes getCode toUpperCase.

(** The authors a side supplies: the plural field when present, else the
    singular one, a lone name counting as a list of one. *)
Definition suppliedAuthors (plural : option (list string)) (singular : option AuthorField)
    : list string :=
  match plural, singular with
  | Some names, _ => names
  | None, Some (OneAuthor name) => [name]
  | None, Some (ManyAuthors names) => names
  | None, None => []
  end.

(** C2, as the code has it.  For the title the option beats the
    frontmatter, which beats the leading heading handed in (none when the
    extraction is off), which beats the empty title; for description,
    keywords, date and abstract the option, when supplied, is the merged
    value, else the frontmatter's; language and region are normalized from
    the first supplied of the option and frontmatter fields; the authors of
    the options win only when their list is not empty, else the
    frontmatter's authors are taken.  In particular option title [B] over
    frontmatter title [A] gives [B]. *)
Theorem mergeMetadata_precedence (options : Markdown2TypstOptions)
    (frontmatter : Frontmatter) (leadingTitle : option string) :
  let m := merge options frontmatter leadingTitle in
  ((forall t, opt_title options = Some t -> title m = t)
   /\ (opt_title options = None ->
       forall t, fm_title frontmatter = Some t -> title m = t)
   /\ (opt_title options = None -> fm_title frontmatter = None ->
       forall t, leadingTitle = Some t -> title m = t)
   /\ (opt_title options = None -> fm_title frontmatter = None ->
       leadingTitle = None -> title m = ""))
  /\ ((forall d, opt_description options = Some d -> description m = Some d)
      /\ (opt_description options = None -> description m = fm_description frontmatter))
  /\ ((forall k, opt_keywords options = Some k -> keywords m = Some k)
      /\ (opt_keywords options = None -> keywords m = fm_keywords frontmatter))
  /\ ((forall d, opt_date options = Some d -> date m = Some d)
      /\ (opt_date options = None -> date m = fm_date frontmatter))
  /\ ((forall a, opt_abstract options = Some a -> abstract m = Some a)
      /\ (opt_abstract options = None -> abstract m = fm_abstract frontmatter))
  /\ ((forall l, opt_lang options = Some l -> lang m = language (Some l))
      /\ (opt_lang options = None ->
          forall l, opt_language options = Some l -> lang m = language (Some l))
      /\ (opt_lang options = None -> opt_language options = None ->
          forall l, fm_lang frontmatter = Some l -> lang m = language (Some l))
      /\ (opt_lang options = None -> opt_language options = None ->
          fm_lang frontmatter = None -> lang m = language (fm_language frontmatter)))
  /\ ((forall r, opt_region options = Some r -> region m = country (Some r))
      /\ (opt_region options = None -> region m = country (fm_region frontmatter)))
  /\ ((suppliedAuthors (opt_authors options) (opt_author options) <> [] ->
       authors m = suppliedAuthors (opt_authors options) (opt_author options))
      /\ (suppliedAuthors (opt_authors options) (opt_author options) = [] ->
          authors m = suppliedAuthors (fm_authors frontmatter) (fm_author frontmatter)))
  /\ (opt_title options = Some "B" -> fm_title frontmatter = Some "A" -> title m = "B").
Proof.
  assert (Hsup : forall plural singular,
             default [] (Js.nullish plural (authorList singular))
             = suppliedAuthors plural singular).
  { intros [p|] [[n|ns]|]; reflexivity. }
  subst merge language country. unfold mergeMetadata. cbn [title description keywords
    date abstract lang region authors]. rewrite !Hsup.
  repeat split.
  all: try (intros; repeat match goal with H : _ = Some _ |- _ => rewrite H end;
            repeat match goal with H : _ = None |- _ => rewrite H end;
            reflexivity).
  - intros Hne. destruct (suppliedAuthors _ _) eqn:E; [congruence|reflexivity].
  - intros ->. reflexivity.
Qed.

End MergeProperties.

(** C2, the claim as written fails on authors: an option that supplies the
    empty author list does not beat the frontmatter's authors, while an
    option that supplies the empty keyword list does beat the frontmatter's
    keywords. *)
Lemma mergeMetadata_empty_option_authors :
  let options :=
    {| opt_title := None; opt_author := None; opt_authors := Some [];
       opt_description := None; opt_keywords := Some []; opt_date := None;
       opt_abstract := None; opt_lang := None; opt_language := None;
       opt_region := None; opt_useH1AsTitle := false; opt_onError := None |} in
  let frontmatter :=
    {| fm_title := None; fm_author := None; fm_authors := Some ["Ann"];
       fm_description := None; fm_keywords := Some ["k"]; fm_date := None;
       fm_abstract := None; fm_lang := None; fm_language := None;
       fm_region := None |} in
  let merged :=
    mergeMetadata [] [] (fun _ _ => None) [] (fun _ => None) (fun s => s)
      options frontmatter None in
  opt_authors options = Some []
  /\ authors merged = ["Ann"]
  /\ keywords merged = Some [].
Proof. repeat split. Qed.

(** ** Inline math (module [inline-renderer]) *)

Section InlineMath.

Variable tex2typst : string -> Outcome string.

(** Math between the delimiters of display or of inline math. *)
Definition delimited (display : bool) (math : string) : string :=
  if display then "$ " +:+ math +:+ " $" else "$" +:+ math +:+ "$".

(** C8.  For a math span whose source offsets are known: when the span is
    at least four code units longer than its trimmed value it is rendered
    between [$ ] and [ $] (display), and when it is exactly two longer it
    is rendered between [$] and [$] (inline).  The same delimiters are used
    whether the converter succeeds (they wrap its result) or throws (the
    warning is handed to the callback, then they wrap the trimmed LaTeX). *)
Theorem inlineMath_delimiters (fuel : nat) (value : string) (s e : Z)
    (ctx : RenderContext) (display : bool) :
  let v := Js.trim value in
  let span := (e - s)%Z in
  let len := Z.of_nat (String.length v) in
  (if display then (len + 4 <= span)%Z else (span = len + 2)%Z) ->
  forall st,
    renderInline tex2typst (S fuel)
      (NInlineMath value (Some {| startOffset := Some s; endOffset := Some e |})) ctx st
    = match tex2typst v with
      | Ok typstMath => (Ok (Some (delimited display typstMath)), st)
      | Throw error =>
          (report (onError ctx) (inlineMathFailed v error) ;;;
           ret (Some (delimited display v))) st
      end.
Proof.
  intros v span len Hspan st.
  assert (Hd : isDisplayMath (Some {| startOffset := Some s; endOffset := Some e |}) v
               = display).
  { unfold isDisplayMath; cbn [endOffset startOffset]. fold len span.
    destruct display.
    - apply Z.leb_le. exact Hspan.
    - apply Z.leb_gt. lia. }
  cbn [renderInline]. unfold renderInlineMath. fold v.
  unfold tryCatch, bind, liftOutcome, ret. rewrite Hd.
  destruct (tex2typst v) as [typstMath|error]; reflexivity.
Qed.

End InlineMath.

(** A display span [$$x$$] and an inline span [$x$], with a converter that
    always throws and a callback that listens. *)
Lemma inlineMath_delimiters_witness :
  let failing : string -> Outcome string := fun _ => Throw (JsError "no") in
  let ctx := {| definitions := ∅; footnoteDefinitions := ∅;
                onError := Some Examples.listen |} in
  run (renderInline failing 1
         (NInlineMath "x" (Some {| startOffset := Some 0%Z; endOffset := Some 5%Z |})) ctx)
      initialState = Ok (Some "$ x $")
  /\ run (renderInline failing 1
            (NInlineMath "x" (Some {| startOffset := Some 0%Z; endOffset := Some 3%Z |})) ctx)
         initialState = Ok (Some "$x$").
Proof.
  split; unfold run.
  - rewrite (inlineMath_delimiters _ 0 "x" 0%Z 5%Z _ true); [reflexivity | vm_compute; discriminate].
  - rewrite (inlineMath_delimiters _ 0 "x" 0%Z 3%Z _ false); [reflexivity | reflexivity].
Defined.

(** ** The error channel *)

(** The callback, if there is one, returns normally on [error]. *)
Definition returnsNormally (onError : option ErrorCallback) (error : ConversionError) : Prop :=
  match onError with
  | Some callback => callback error = None
  | None => True
  end.

(** The callback returns normally on whatever it is handed. *)
Definition quiet (onError : option ErrorCallback) : Prop :=
  forall error, returnsNormally onError error.

(** What reaches the callback of [errors]: all with a callback, none without. *)
Definition noted (onError : option ErrorCallback) (errors : list ConversionError)
    : list ConversionError :=
  match onError with
  | Some _ => errors
  | None => []
  end.

Definition addReports (st : State) (errors : list ConversionError) : State :=
  {| externalImages := externalImages st; reported := reported st ++ errors |}.

Lemma addReports_nil (st : State) : addReports st [] = st.
Proof. destruct st; unfold addReports; simpl. now rewrite app_nil_r. Qed.

Lemma addReports_app (st : State) (a b : list ConversionError) :
  addReports (addReports st a) b = addReports st (a ++ b).
Proof. unfold addReports; simpl. now rewrite app_assoc. Qed.

Lemma noted_app (onError : option ErrorCallback) (a b : list ConversionError) :
  noted onError (a ++ b) = noted onError a ++ noted onError b.
Proof. destruct onError; reflexivity. Qed.

Lemma report_returns (onError : option ErrorCallback) (error : ConversionError) (st : State) :
  returnsNormally onError error ->
  report onError error st = (Ok tt, addReports st (noted onError [error])).
Proof.
  unfold returnsNormally, report. destruct onError as [callback|]; simpl.
  - intros ->. reflexivity.
  - intros _. now rewrite addReports_nil.
Qed.

Lemma report_throws (callback : ErrorCallback) (error : ConversionError) (e : Exn) (st : State) :
  callback error = Some e ->
  report (Some callback) error st = (Throw e, addReports st [error]).
Proof. unfold report. intros ->. reflexivity. Qed.

(** Unfold the monad under a computation applied to a state. *)
Ltac monad :=
  repeat (progress unfold attempt, tryCatch, bind, liftOutcome, ret, throw).

(** [details.key] *)
Fixpoint detail (key : string) (details : list (string * string)) : option string :=
  match details with
  | [] => None
  | (k, v) :: rest => if String.eqb k key then Some v else detail key rest
  end.

(** ** Duplicate definitions (module [collectors]) *)

Section DuplicateDefinitions.

(** The map the loop builds, and the warnings it hands over, when no
    callback throws. *)
Fixpoint definitionsOf (nodes : list Node) (defs : gmap string DefinitionNode)
    : gmap string DefinitionNode :=
  match nodes with
  | [] => defs
  | NDefinition def :: rest =>
      definitionsOf rest (<[Js.toLowerCase (def_identifier def) := def]> defs)
  | _ :: rest => definitionsOf rest defs
  end.

Fixpoint duplicatesOf (nodes : list Node) (defs : gmap string DefinitionNode)
    : list ConversionError :=
  match nodes with
  | [] => []
  | NDefinition def :: rest =>
      let key := Js.toLowerCase (def_identifier def) in
      match defs !! key with
      | Some _ => duplicateDefinition def :: duplicatesOf rest (<[key := def]> defs)
      | None => duplicatesOf rest (<[key := def]> defs)
      end
  | _ :: rest => duplicatesOf rest defs
  end.

Lemma collectDefinitionsLoop_quiet (onError : option ErrorCallback) :
  quiet onError ->
  forall nodes defs st,
    collectDefinitionsLoop onError nodes defs st
    = (Ok (definitionsOf nodes defs, None),
       addReports st (noted onError (duplicatesOf nodes defs))).
Proof.
  intros Hq nodes. induction nodes as [|node rest IH]; intros defs st.
  - simpl. unfold ret. destruct onError; simpl; now rewrite addReports_nil.
  - destruct node; try exact (IH defs st).
    cbn [collectDefinitionsLoop definitionsOf duplicatesOf].
    destruct (defs !! Js.toLowerCase (def_identifier def)) as [old|]; monad.
    + rewrite (report_returns _ _ _ (Hq _)), IH.
      rewrite addReports_app, <- noted_app. reflexivity.
    + apply IH.
Qed.

Lemma collectDefinitions_quiet (onError : option ErrorCallback) (root : Root) (st : State) :
  quiet onError ->
  collectDefinitions root onError st
  = (Ok (definitionsOf root ∅), addReports st (noted onError (duplicatesOf root ∅))).
Proof.
  intros Hq. unfold collectDefinitions, bind.
  now rewrite (collectDefinitionsLoop_quiet _ Hq).
Qed.

Lemma definitionsOf_app (a b : list Node) :
  forall defs, definitionsOf (a ++ b) defs = definitionsOf b (definitionsOf a defs).
Proof.
  induction a as [|node a IH]; intros defs; [reflexivity|].
  destruct node; simpl; apply IH.
Qed.

Lemma duplicatesOf_app (a b : list Node) :
  forall defs,
    duplicatesOf (a ++ b) defs
    = duplicatesOf a defs ++ duplicatesOf b (definitionsOf a defs).
Proof.
  induction a as [|node a IH]; intros defs; [reflexivity|].
  destruct node; simpl; try apply IH.
  destruct (defs !! _); simpl; now rewrite IH.
Qed.

(** No definition of [nodes] has [key] as its lower-cased identifier. *)
Fixpoint keyFree (key : string) (nodes : list Node) : Prop :=
  match nodes with
  | [] => True
  | NDefinition def :: rest =>
      Js.toLowerCase (def_identifier def) <> key /\ keyFree key rest
  | _ :: rest => keyFree key rest
  end.

(** The warning is about [key]: its [identifier] detail lower-cases to it. *)
Definition aboutKey (key : string) (error : ConversionError) : bool :=
  match detail "identifier" (details error) with
  | Some identifier => String.eqb (Js.toLowerCase identifier) key
  | None => false
  end.

Lemma definitionsOf_keyFree (key : string) (nodes : list Node) :
  keyFree key nodes ->
  forall defs, definitionsOf nodes defs !! key = defs !! key.
Proof.
  induction nodes as [|node rest IH]; intros Hfree defs; [reflexivity|].
  destruct node; simpl in *; try now apply IH.
  destruct Hfree as [Hne Hfree]. rewrite (IH Hfree).
  now apply lookup_insert_ne.
Qed.

Lemma duplicatesOf_keyFree (key : string) (nodes : list Node) :
  keyFree key nodes ->
  forall defs, List.filter (aboutKey key) (duplicatesOf nodes defs) = [].
Proof.
  induction nodes as [|node rest IH]; intros Hfree defs; [reflexivity|].
  destruct node; simpl in *; try now apply IH.
  destruct Hfree as [Hne Hfree].
  destruct (defs !! _); [|now apply IH].
  cbn [List.filter]. unfold aboutKey at 1. cbn.
  destruct (String.eqb_spec (Js.toLowerCase (def_identifier def)) key); [contradiction|].
  now apply IH.
Qed.

End DuplicateDefinitions.

Section References.

Variable tex2typst : string -> Outcome string.

(** The text a link shows: the rendered label, or the escaped target when
    the label is blank. *)
Definition linkText (rendered target : string) : string :=
  if Js.truthy (Js.trim rendered) then rendered else escapeTypstText target.

(** A reference whose identifier is defined renders as a link to the
    definition's URL. *)
Lemma renderLinkReference_resolved (fuel : nat) (identifier : string) (label : option string)
    (children : list Node) (ctx : RenderContext) (def : DefinitionNode)
    (rendered : string) (st st' : State) :
  definitions ctx !! Js.toLowerCase identifier = Some def ->
  renderInlines tex2typst fuel children ctx st = (Ok rendered, st') ->
  renderLinkReference tex2typst (S fuel) identifier label children ctx st
  = (Ok (Some ("#link(" +:+ dq +:+ escapeTypstString (def_url def) +:+ dq +:+ ")["
               +:+ linkText rendered (def_url def) +:+ "]")), st').
Proof.
  intros Hdef Hlabel. cbn [renderLinkReference]. rewrite Hdef. monad.
  rewrite Hlabel. unfold linkText. now destruct (Js.truthy (Js.trim rendered)).
Qed.

(** The fallback of an unresolved link reference: the rendered children,
    or, when they render to nothing, the escaped label, or identifier when
    the label is absent or empty. *)
Definition linkReferenceFallback (rendered : string) (label : option string)
    (identifier : string) : string :=
  if Js.truthy rendered then rendered
  else escapeTypstText (match label with
                        | Some (String c l) => String c l
                        | _ => identifier
                        end).

Lemma renderLinkReference_unresolved (fuel : nat) (identifier : string)
    (label : option string) (children : list Node) (ctx : RenderContext)
    (rendered : string) (st st' : State) :
  definitions ctx !! Js.toLowerCase identifier = None ->
  returnsNormally (onError ctx) (linkReferenceMissing identifier) ->
  renderInlines tex2typst fuel children ctx st = (Ok rendered, st') ->
  renderLinkReference tex2typst (S fuel) identifier label children ctx st
  = (Ok (Some (linkReferenceFallback rendered label identifier)),
     addReports st' (noted (onError ctx) [linkReferenceMissing identifier])).
Proof.
  intros Hdef Hcb Hlabel. cbn [renderLinkReference]. rewrite Hdef. monad.
  rewrite Hlabel, (report_returns _ _ _ Hcb).
  unfold linkReferenceFallback, Js.orElse.
  destruct label as [[|c l]|]; reflexivity.
Qed.

(** C3, as the code has it.  When two top-level definitions have the same
    lower-cased identifier and no other definition has it, and the
    callback, if any, returns normally, the collected map sends that
    identifier to the second definition, so a reference to it renders as a
    link to the second definition's URL; and of that identifier exactly one
    warning reaches the callback: it carries the identifier as the second
    definition writes it and the URL of the second, kept, definition. *)
Theorem collectDefinitions_duplicate (pre mid post : list Node) (d1 d2 : DefinitionNode)
    (onError : option ErrorCallback) (st : State) :
  let key := Js.toLowerCase (def_identifier d1) in
  let root := pre ++ NDefinition d1 :: mid ++ NDefinition d2 :: post in
  Js.toLowerCase (def_identifier d2) = key ->
  keyFree key pre -> keyFree key mid -> keyFree key post ->
  quiet onError ->
  exists defs new,
    collectDefinitions root onError st = (Ok defs, addReports st (noted onError new))
    /\ defs !! key = Some d2
    /\ List.filter (aboutKey key) new = [duplicateDefinition d2]
    /\ details (duplicateDefinition d2)
       = [("identifier", def_identifier d2); ("url", def_url d2)]
    /\ severity (duplicateDefinition d2) = WARNING
    /\ forall fuel identifier label children ctx rendered s s',
         definitions ctx = defs ->
         Js.toLowerCase identifier = key ->
         renderInlines tex2typst fuel children ctx s = (Ok rendered, s') ->
         renderLinkReference tex2typst (S fuel) identifier label children ctx s
         = (Ok (Some ("#link(" +:+ dq +:+ escapeTypstString (def_url d2) +:+ dq +:+ ")["
                      +:+ linkText rendered (def_url d2) +:+ "]")), s').
Proof.
  intros key root Hkey Hpre Hmid Hpost Hq.
  exists (definitionsOf root ∅), (duplicatesOf root ∅).
  assert (Hlookup : definitionsOf root ∅ !! key = Some d2).
  { unfold root. rewrite definitionsOf_app. cbn [definitionsOf].
    rewrite definitionsOf_app. cbn [definitionsOf].
    rewrite (definitionsOf_keyFree _ _ Hpost), Hkey. apply lookup_insert_eq. }
  split; [now apply collectDefinitions_quiet|].
  split; [exact Hlookup|].
  split; [|split; [reflexivity|split; [reflexivity|]]].
  - unfold root. rewrite duplicatesOf_app, List.filter_app.
    rewrite (duplicatesOf_keyFree _ _ Hpre). cbn [duplicatesOf app].
    fold key. rewrite (definitionsOf_keyFree _ _ Hpre), lookup_empty.
    rewrite duplicatesOf_app, List.filter_app.
    rewrite (duplicatesOf_keyFree _ _ Hmid). cbn [duplicatesOf app].
    rewrite Hkey, (definitionsOf_keyFree _ _ Hmid), lookup_insert_eq.
    cbn [List.filter]. rewrite (duplicatesOf_keyFree _ _ Hpost).
    unfold aboutKey. cbn. rewrite Hkey, String.eqb_refl. reflexivity.
  - intros fuel identifier label children ctx rendered s s' Hctx Hid Hrender.
    apply renderLinkReference_resolved; [|exact Hrender].
    now rewrite Hctx, Hid.
Qed.

End References.

(** Two definitions [[a]: https://one] and [[A]: https://two], a reference
    [[text][a]], and a callback that listens. *)
Lemma collectDefinitions_duplicate_witness :
  let d1 := {| def_identifier := "a"; def_url := "https://one" |} in
  let d2 := {| def_identifier := "A"; def_url := "https://two" |} in
  exists defs new,
    collectDefinitions [NDefinition d1; NDefinition d2] (Some Examples.listen) initialState
    = (Ok defs, addReports initialState new)
    /\ defs !! "a" = Some d2
    /\ List.filter (aboutKey "a") new = [duplicateDefinition d2].
Proof.
  intros d1 d2.
  destruct (collectDefinitions_duplicate Examples.noMath [] [] [] d1 d2
              (Some Examples.listen) initialState)
    as (defs & new & Hrun & Hdefs & Hnew & _);
    [reflexivity | exact I | exact I | exact I | intros error; reflexivity |].
  exists defs, new. repeat split; assumption.
Defined.

(** C3, the claim as written fails on the URL of the warning: the warning
    for a duplicate carries the URL of the definition that is kept, not of
    the one that is overwritten. *)
Lemma duplicate_warning_carries_kept_url :
  let d1 := {| def_identifier := "a"; def_url := "https://one" |} in
  let d2 := {| def_identifier := "A"; def_url := "https://two" |} in
  exists warning,
    reported (snd (collectDefinitions [NDefinition d1; NDefinition d2]
                     (Some Examples.listen) initialState)) = [warning]
    /\ detail "url" (details warning) = Some "https://two"
    /\ detail "url" (details warning) <> Some (def_url d1).
Proof.
  intros d1 d2. eexists. split; [vm_compute; reflexivity|].
  split; [reflexivity | discriminate].
Qed.

(** ** Unresolved references (module [inline-renderer]) *)

Section UnresolvedReferences.

Variable tex2typst : string -> Outcome string.

(** C1, as the code has it.  Provided the callback, if any, returns
    normally on the warning: a footnote reference with no definition under
    its lower-cased identifier renders as the empty text; a link reference
    with no definition, once its children have rendered, renders as that
    rendering when it is not empty, else as the escaped label, or
    identifier when the label is absent or empty; neither throws, and each
    hands exactly one warning of its own to the callback when there is
    one (and none when there is no callback). *)
Theorem unresolved_reference_fallback (fuel : nat) (ctx : RenderContext) (st : State) :
  (forall identifier,
      footnoteDefinitions ctx !! Js.toLowerCase identifier = None ->
      returnsNormally (onError ctx) (footnoteMissing identifier) ->
      renderInline tex2typst (S fuel) (NFootnoteReference identifier) ctx st
      = (Ok (Some ""), addReports st (noted (onError ctx) [footnoteMissing identifier])))
  /\ (forall identifier label children rendered st',
         definitions ctx !! Js.toLowerCase identifier = None ->
         returnsNormally (onError ctx) (linkReferenceMissing identifier) ->
         renderInlines tex2typst fuel children ctx st = (Ok rendered, st') ->
         renderInline tex2typst (S (S fuel)) (NLinkReference identifier label children) ctx st
         = (Ok (Some (linkReferenceFallback rendered label identifier)),
            addReports st' (noted (onError ctx) [linkReferenceMissing identifier]))).
Proof.
  split.
  - intros identifier Hdef Hcb. cbn [renderInline]. rewrite Hdef. monad.
    now rewrite (report_returns _ _ _ Hcb).
  - intros identifier label children rendered st' Hdef Hcb Hchildren.
    cbn [renderInline]. now apply renderLinkReference_unresolved.
Qed.

End UnresolvedReferences.

(** A footnote reference [[^note]] and link references [[text][ref]] and
    [[][a_b]] with no definitions, and a callback that listens. *)
Lemma unresolved_reference_fallback_witness :
  let ctx := {| definitions := ∅; footnoteDefinitions := ∅;
                onError := Some Examples.listen |} in
  renderInline Examples.noMath 1 (NFootnoteReference "note") ctx initialState
  = (Ok (Some ""), addReports initialState [footnoteMissing "note"])
  /\ renderInline Examples.noMath 4 (NLinkReference "ref" (Some "ref") [NText "text"]) ctx
       initialState
     = (Ok (Some "text"), addReports initialState [linkReferenceMissing "ref"])
  /\ renderInline Examples.noMath 4 (NLinkReference "a_b" None []) ctx initialState
     = (Ok (Some "a\_b"), addReports initialState [linkReferenceMissing "a_b"]).
Proof.
  intros ctx.
  split; [|split].
  - apply (proj1 (unresolved_reference_fallback Examples.noMath 0 ctx initialState));
      reflexivity.
  - apply (proj2 (unresolved_reference_fallback Examples.noMath 2 ctx initialState)
             "ref" (Some "ref") [NText "text"] "text" initialState); reflexivity.
  - apply (proj2 (unresolved_reference_fallback Examples.noMath 2 ctx initialState)
             "a_b" None [] "" initialState); reflexivity.
Defined.

(** C1, the claim as written fails on footnotes: an unresolved footnote
    reference renders as the empty text, which contains neither its label
    nor its identifier. *)
Lemma unresolved_footnote_renders_nothing :
  let ctx := {| definitions := ∅; footnoteDefinitions := ∅;
                onError := Some Examples.listen |} in
  exists out,
    run (renderInline Examples.noMath 10 (NFootnoteReference "note") ctx) initialState
    = Ok (Some out)
    /\ ~ occursIn "note" out.
Proof.
  intros ctx. exists "". split; [reflexivity|].
  intros (pre & post & H). destruct pre; discriminate H.
Qed.

(** ** Two runs side by side

    Two computations are [related] when, from any two states, they end in
    the same outcome (the same value, or the same exception), and keep a
    relation [Rf] between their external-image flags.  The outcome of a
    renderer never depends on the state it starts from: the flag is only
    read by the output builder, the trace only by the caller. *)

(** What the callback does with [error]: nothing without a callback. *)
Definition callbackOutcome (onError : option ErrorCallback) (error : ConversionError)
    : option Exn :=
  match onError with
  | Some callback => callback error
  | None => None
  end.

(** The two callbacks throw on the same errors, and the same exceptions. *)
Definition sameCallback (onError1 onError2 : option ErrorCallback) : Prop :=
  forall error, callbackOutcome onError1 error = callbackOutcome onError2 error.

Lemma sameCallback_refl (onError : option ErrorCallback) : sameCallback onError onError.
Proof. intros error. reflexivity. Qed.

Lemma sameCallback_quiet (callback : ErrorCallback) :
  (forall error, callback error = None) -> sameCallback (Some callback) None.
Proof. intros H error. apply H. Qed.

Section Related.

Variable Rf : bool -> bool -> Prop.

Definition related {A} (m1 m2 : M A) : Prop :=
  forall s1 s2,
    fst (m1 s1) = fst (m2 s2)
    /\ (Rf (externalImages s1) (externalImages s2) ->
        Rf (externalImages (snd (m1 s1))) (externalImages (snd (m2 s2)))).

Lemma related_ret {A} (a : A) : related (ret a) (ret a).
Proof. intros s1 s2. split; [reflexivity | exact (fun H => H)]. Qed.

Lemma related_throw {A} (e : Exn) : related (@throw A e) (throw e).
Proof. intros s1 s2. split; [reflexivity | exact (fun H => H)]. Qed.

Lemma related_liftOutcome {A} (o : Outcome A) : related (liftOutcome o) (liftOutcome o).
Proof. intros s1 s2. split; [reflexivity | exact (fun H => H)]. Qed.

Lemma related_bind {A B} (m1 m2 : M A) (k1 k2 : A -> M B) :
  related m1 m2 -> (forall a, related (k1 a) (k2 a)) ->
  related (bind m1 k1) (bind m2 k2).
Proof.
  intros Hm Hk s1 s2. unfold bind.
  destruct (Hm s1 s2) as [Hout Hflag].
  destruct (m1 s1) as [[a1|e1] s1'], (m2 s2) as [[a2|e2] s2']; simpl in *;
    try discriminate Hout.
  - injection Hout as ->. destruct (Hk a2 s1' s2') as [Hout' Hflag']. tauto.
  - injection Hout as ->. tauto.
Qed.

Lemma related_tryCatch {A} (m1 m2 : M A) (h1 h2 : Exn -> M A) :
  related m1 m2 -> (forall e, related (h1 e) (h2 e)) ->
  related (tryCatch m1 h1) (tryCatch m2 h2).
Proof.
  intros Hm Hh s1 s2. unfold tryCatch.
  destruct (Hm s1 s2) as [Hout Hflag].
  destruct (m1 s1) as [[a1|e1] s1'], (m2 s2) as [[a2|e2] s2']; simpl in *;
    try discriminate Hout.
  - tauto.
  - injection Hout as ->. destruct (Hh e2 s1' s2') as [Hout' Hflag']. tauto.
Qed.

Lemma related_mapM {A B} (f1 f2 : A -> M B) (xs : list A) :
  (forall x, In x xs -> related (f1 x) (f2 x)) ->
  related (mapM f1 xs) (mapM f2 xs).
Proof.
  induction xs as [|x xs IH]; intros Hf; cbn [mapM].
  - apply related_ret.
  - apply related_bind; [apply Hf; now left|]. intros y.
    apply related_bind; [apply IH; intros; apply Hf; now right|]. intros ys.
    apply related_ret.
Qed.

Lemma related_report (onError1 onError2 : option ErrorCallback) (error : ConversionError) :
  sameCallback onError1 onError2 ->
  related (report onError1 error) (report onError2 error).
Proof.
  intros Hcb s1 s2. specialize (Hcb error). unfold report, callbackOutcome in *.
  destruct onError1 as [c1|], onError2 as [c2|]; simpl in *.
  - rewrite Hcb. destruct (c2 error); simpl; tauto.
  - rewrite Hcb. simpl; tauto.
  - rewrite <- Hcb. simpl; tauto.
  - tauto.
Qed.

Lemma related_attempt (m1 m2 : M unit) :
  related m1 m2 -> related (attempt m1) (attempt m2).
Proof.
  intros Hm. unfold attempt. apply related_tryCatch.
  - apply related_bind; [exact Hm|]. intros _. apply related_ret.
  - intros e. apply related_ret.
Qed.

End Related.

(** The image URLs of a node, wherever they sit below it. *)
Fixpoint imageUrls (node : Node) : list string :=
  match node with
  | NImage url => [url]
  | NStrong children | NEmphasis children | NDelete children | NMark children
  | NSubscript children | NSuperscript children | NLink _ children
  | NLinkReference _ _ children | NFootnoteDefinition _ children
  | NHeading _ children | NParagraph children | NBlockquote children =>
      flat_map imageUrls children
  | NList _ items => flat_map (flat_map imageUrls) items
  | NTable _ rows => flat_map (flat_map (flat_map imageUrls)) rows
  | _ => []
  end.

Section ImagesOk.

Variable Q : string -> Prop.

(** Every image URL below the node satisfies [Q]. *)
Definition nodeOk (node : Node) : Prop :=
  forall url, In url (imageUrls node) -> Q url.

Definition nodesOk (nodes : list Node) : Prop :=
  forall node, In node nodes -> nodeOk node.

Lemma nodesOk_children (node : Node) (children : list Node) :
  imageUrls node = flat_map imageUrls children ->
  nodeOk node -> nodesOk children.
Proof.
  intros Heq Hok child Hin url Hurl. apply Hok. rewrite Heq.
  apply in_flat_map. eauto.
Qed.

Lemma nodesOk_item (ordered : bool) (items : list (list Node)) (item : list Node) :
  nodeOk (NList ordered items) -> In item items -> nodesOk item.
Proof.
  intros Hok Hitem child Hin url Hurl. apply Hok. cbn [imageUrls].
  apply in_flat_map. exists item. split; [assumption|].
  apply in_flat_map. eauto.
Qed.

Lemma nodesOk_cell (align : option (list (option AlignType)))
    (rows : list (list (list Node))) (row : list (list Node)) (cell : list Node) :
  nodeOk (NTable align rows) -> In row rows -> In cell row -> nodesOk cell.
Proof.
  intros Hok Hrow Hcell child Hin url Hurl. apply Hok. cbn [imageUrls].
  apply in_flat_map. exists row. split; [assumption|].
  apply in_flat_map. exists cell. split; [assumption|].
  apply in_flat_map. eauto.
Qed.

Lemma nodesOk_tail (node : Node) (nodes : list Node) :
  nodesOk (node :: nodes) -> nodesOk nodes.
Proof. intros H n Hn. apply H. now right. Qed.

Lemma nodesOk_head (node : Node) (nodes : list Node) :
  nodesOk (node :: nodes) -> nodeOk node.
Proof. intros H. apply H. now left. Qed.

End ImagesOk.

Ltac rel :=
  repeat first
    [ apply related_ret
    | apply related_throw
    | apply related_liftOutcome
    | apply related_report; assumption
    | apply related_bind; [|intros ?]
    | apply related_tryCatch; [|intros ?] ].

Section RenderersRelated.

Variable tex2typst : string -> Outcome string.
Variable Rf : bool -> bool -> Prop.
Variable Q : string -> Prop.

Hypothesis image_related :
  forall url, Q url -> related Rf (renderImage url) (renderImage url).

Variable defs : gmap string DefinitionNode.
Variable fns : gmap string FootnoteDefinition.
Variables onError1 onError2 : option ErrorCallback.

Hypothesis callbacks : sameCallback onError1 onError2.
Hypothesis footnotesOk :
  forall key def, fns !! key = Some def -> nodesOk Q (fn_children def).

Let ctx1 := {| definitions := defs; footnoteDefinitions := fns; onError := onError1 |}.
Let ctx2 := {| definitions := defs; footnoteDefinitions := fns; onError := onError2 |}.

(** All the renderers, with [fuel] units of stack, are related on the two
    contexts. *)
Definition relatedAt (fuel : nat) : Prop :=
  (forall node i, nodeOk Q node ->
     related Rf (renderBlock tex2typst fuel node i ctx1)
                (renderBlock tex2typst fuel node i ctx2))
  /\ (forall depth children i, nodesOk Q children ->
        related Rf (renderHeading tex2typst fuel depth children i ctx1)
                   (renderHeading tex2typst fuel depth children i ctx2))
  /\ (forall children, nodesOk Q children ->
        related Rf (renderParagraph tex2typst fuel children ctx1)
                   (renderParagraph tex2typst fuel children ctx2))
  /\ (forall ordered items i, (forall item, In item items -> nodesOk Q item) ->
        related Rf (renderList tex2typst fuel ordered items i ctx1)
                   (renderList tex2typst fuel ordered items i ctx2))
  /\ (forall children marker i, nodesOk Q children ->
        related Rf (renderListItem tex2typst fuel children marker i ctx1)
                   (renderListItem tex2typst fuel children marker i ctx2))
  /\ (forall align rows i,
        (forall row cell, In row rows -> In cell row -> nodesOk Q cell) ->
        related Rf (renderTable tex2typst fuel align rows i ctx1)
                   (renderTable tex2typst fuel align rows i ctx2))
  /\ (forall children i, nodesOk Q children ->
        related Rf (renderBlockquote tex2typst fuel children i ctx1)
                   (renderBlockquote tex2typst fuel children i ctx2))
  /\ (forall nodes, nodesOk Q nodes ->
        related Rf (renderInlines tex2typst fuel nodes ctx1)
                   (renderInlines tex2typst fuel nodes ctx2))
  /\ (forall node, nodeOk Q node ->
        related Rf (renderInline tex2typst fuel node ctx1)
                   (renderInline tex2typst fuel node ctx2))
  /\ (forall url children, nodesOk Q children ->
        related Rf (renderLink tex2typst fuel url children ctx1)
                   (renderLink tex2typst fuel url children ctx2))
  /\ (forall identifier label children, nodesOk Q children ->
        related Rf (renderLinkReference tex2typst fuel identifier label children ctx1)
                   (renderLinkReference tex2typst fuel identifier label children ctx2)).

Lemma related_renderMathBlock (value : string) (i : nat) :
  related Rf (renderMathBlock tex2typst value i ctx1)
             (renderMathBlock tex2typst value i ctx2).
Proof. unfold renderMathBlock. rel. Qed.

Lemma related_renderInlineMath (value : string) (position : option Position) :
  related Rf (renderInlineMath tex2typst value position ctx1)
             (renderInlineMath tex2typst value position ctx2).
Proof. unfold renderInlineMath. rel. Qed.

Lemma relatedAt_zero : relatedAt 0.
Proof. unfold relatedAt. repeat apply conj; intros; apply related_throw. Qed.

Lemma dispatch_related (fuel : nat) :
  relatedAt fuel ->
  forall node i, nodeOk Q node ->
    related Rf (renderBlockDispatch tex2typst fuel node i ctx1)
               (renderBlockDispatch tex2typst fuel node i ctx2).
Proof.
  intros (Hblock & Hheading & Hparagraph & Hlist & Hitem & Htable & Hquote & _)
         node i Hok.
  unfold renderBlockDispatch.
  destruct node; rel;
    lazymatch goal with
    | |- related _ (renderHeading _ _ _ _ _ _) _ =>
        apply Hheading; eapply nodesOk_children; [|exact Hok]; reflexivity
    | |- related _ (renderParagraph _ _ _ _) _ =>
        apply Hparagraph; eapply nodesOk_children; [|exact Hok]; reflexivity
    | |- related _ (renderList _ _ _ _ _ _) _ =>
        apply Hlist; intros item Hin; eapply nodesOk_item; eassumption
    | |- related _ (renderBlockquote _ _ _ _ _) _ =>
        apply Hquote; eapply nodesOk_children; [|exact Hok]; reflexivity
    | |- related _ (renderTable _ _ _ _ _ _) _ =>
        apply Htable; intros row cell Hrow Hcell; eapply nodesOk_cell; eassumption
    end.
Qed.

Lemma relatedAt_succ (fuel : nat) : relatedAt fuel -> relatedAt (S fuel).
Proof.
  intros Hfuel.
  pose proof Hfuel as (Hblock & Hheading & Hparagraph & Hlist & Hitem & Htable & Hquote
                       & Hinlines & Hinline & Hlink & Hreference).
  assert (HitemChild : forall (i : nat) (child : Node), nodeOk Q child ->
    related Rf
      (match child with
       | NList ordered items =>
           s <- renderList tex2typst fuel ordered items (i + 1) ctx1 ;; ret (Some s)
       | _ =>
           rendered <- renderBlock tex2typst fuel child (i + 1) ctx1 ;;
           ret (if isNonEmpty rendered then rendered else None)
       end)
      (match child with
       | NList ordered items =>
           s <- renderList tex2typst fuel ordered items (i + 1) ctx2 ;; ret (Some s)
       | _ =>
           rendered <- renderBlock tex2typst fuel child (i + 1) ctx2 ;;
           ret (if isNonEmpty rendered then rendered else None)
       end)).
  { intros i child Hchild.
    destruct child; rel; try (apply Hblock; assumption).
    apply Hlist. intros item Hin. eapply nodesOk_item; eassumption. }
  unfold relatedAt. repeat apply conj.
  - (* renderBlock *)
    intros node i Hok. rewrite !renderBlock_S.
    apply related_tryCatch; [|intros e; rel].
    now apply dispatch_related.
  - (* renderHeading *)
    intros depth children i Hok. cbn [renderHeading]. rel. now apply Hinlines.
  - (* renderParagraph *)
    intros children Hok. cbn [renderParagraph]. cbn [definitions ctx1 ctx2].
    destruct (String.eqb _ _); rel. now apply Hinlines.
  - (* renderList *)
    intros ordered items i Hok. cbn [renderList]. rel.
    apply related_mapM. intros item Hin. apply Hitem. now apply Hok.
  - (* renderListItem *)
    intros children marker i Hok. cbn [renderListItem].
    destruct children as [|first rest]; [rel; apply related_mapM; intros ? []|].
    assert (Hrest : related Rf
              (mapM (fun child =>
                 match child with
                 | NList ordered items =>
                     s <- renderList tex2typst fuel ordered items (i + 1) ctx1 ;; ret (Some s)
                 | _ =>
                     rendered <- renderBlock tex2typst fuel child (i + 1) ctx1 ;;
                     ret (if isNonEmpty rendered then rendered else None)
                 end) rest)
              (mapM (fun child =>
                 match child with
                 | NList ordered items =>
                     s <- renderList tex2typst fuel ordered items (i + 1) ctx2 ;; ret (Some s)
                 | _ =>
                     rendered <- renderBlock tex2typst fuel child (i + 1) ctx2 ;;
                     ret (if isNonEmpty rendered then rendered else None)
                 end) rest)).
    { apply related_mapM. intros child Hin. apply HitemChild. apply Hok. now right. }
    assert (Hall : related Rf
              (mapM (fun child =>
                 match child with
                 | NList ordered items =>
                     s <- renderList tex2typst fuel ordered items (i + 1) ctx1 ;; ret (Some s)
                 | _ =>
                     rendered <- renderBlock tex2typst fuel child (i + 1) ctx1 ;;
                     ret (if isNonEmpty rendered then rendered else None)
                 end) (first :: rest))
              (mapM (fun child =>
                 match child with
                 | NList ordered items =>
                     s <- renderList tex2typst fuel ordered items (i + 1) ctx2 ;; ret (Some s)
                 | _ =>
                     rendered <- renderBlock tex2typst fuel child (i + 1) ctx2 ;;
                     ret (if isNonEmpty rendered then rendered else None)
                 end) (first :: rest))).
    { apply related_mapM. intros child Hin. apply HitemChild. now apply Hok. }
    destruct first; try (apply related_bind; [exact Hall | intros ?; apply related_ret]).
    apply related_bind.
    + apply Hparagraph. eapply nodesOk_children; [|apply (nodesOk_head _ _ _ Hok)].
      reflexivity.
    + intros p. apply related_bind; [exact Hrest | intros ?; apply related_ret].
  - (* renderTable *)
    intros align rows i Hok. cbn [renderTable]. apply related_tryCatch; [|intros e; rel].
    destruct rows as [|headerRow dataRows]; [rel|].
    destruct (length headerRow) eqn:Hlen; [rel|]. rel.
    + apply related_mapM. intros cell Hin. rel. apply Hinlines.
      eapply Hok; [now left | exact Hin].
    + apply related_mapM. intros cell Hin. rel. apply Hinlines.
      apply in_concat in Hin as (row & Hrow & Hcell).
      eapply Hok; [right; exact Hrow | exact Hcell].
  - (* renderBlockquote *)
    intros children i Hok. cbn [renderBlockquote]. apply related_bind.
    + apply related_mapM. intros child Hin. apply Hblock. now apply Hok.
    + intros rendered. destruct (negb _); apply related_ret.
  - (* renderInlines *)
    intros nodes Hok. cbn [renderInlines]. rel.
    apply related_mapM. intros node Hin. apply Hinline. now apply Hok.
  - (* renderInline *)
    intros node Hok. cbn [renderInline].
    destruct node; rel;
      try (apply Hinlines; eapply nodesOk_children; [|exact Hok]; reflexivity);
      lazymatch goal with
      | |- related _ (match footnoteDefinitions _ !! _ with _ => _ end) _ =>
          cbn [footnoteDefinitions ctx1 ctx2];
          destruct (fns !! Js.toLowerCase identifier) as [def|] eqn:Hdef; rel;
          apply related_mapM; intros child Hin; apply Hblock;
          exact (footnotesOk _ _ Hdef child Hin)
      | |- related _ (renderImage _) _ => apply image_related; apply Hok; now left
      | |- related _ (renderLink _ _ _ _ _) _ =>
          apply Hlink; eapply nodesOk_children; [|exact Hok]; reflexivity
      | |- related _ (renderLinkReference _ _ _ _ _ _) _ =>
          apply Hreference; eapply nodesOk_children; [|exact Hok]; reflexivity
      end.
  - (* renderLink *)
    intros url children Hok. cbn [renderLink]. apply related_bind.
    + now apply Hinlines.
    + intros label. destruct (negb _); apply related_ret.
  - (* renderLinkReference *)
    intros identifier label children Hok. cbn [renderLinkReference].
    cbn [definitions ctx1 ctx2]. apply related_bind; [now apply Hinlines|].
    intros rendered. destruct (defs !! Js.toLowerCase identifier); rel.
    destruct (negb _); apply related_ret.
Qed.

Lemma renderers_related (fuel : nat) : relatedAt fuel.
Proof.
  induction fuel as [|fuel IH]; [apply relatedAt_zero | now apply relatedAt_succ].
Qed.

End RenderersRelated.

(** ** Corollaries for whole contexts *)

(** Two contexts with the same maps whose callbacks throw alike. *)
Definition sameMaps (ctx1 ctx2 : RenderContext) : Prop :=
  definitions ctx1 = definitions ctx2
  /\ footnoteDefinitions ctx1 = footnoteDefinitions ctx2
  /\ sameCallback (onError ctx1) (onError ctx2).

Lemma sameMaps_refl (ctx : RenderContext) : sameMaps ctx ctx.
Proof. repeat split. Qed.

(** Every image URL below a footnote definition of the context satisfies [Q]. *)
Definition footnotesOk (Q : string -> Prop) (ctx : RenderContext) : Prop :=
  forall key def, footnoteDefinitions ctx !! key = Some def -> nodesOk Q (fn_children def).

Lemma renderImage_related (Rf : bool -> bool -> Prop) (url : string) :
  Rf true true -> related Rf (renderImage url) (renderImage url).
Proof.
  intros Htrue s1 s2. unfold renderImage.
  destruct (isExternalUrl url); cbn; tauto.
Qed.


Section WholeContexts.

Variable tex2typst : string -> Outcome string.
Variable Rf : bool -> bool -> Prop.
Variable Q : string -> Prop.

Hypothesis image_related :
  forall url, Q url -> related Rf (renderImage url) (renderImage url).

Variables ctx1 ctx2 : RenderContext.
Hypothesis same : sameMaps ctx1 ctx2.
Hypothesis footnotes : footnotesOk Q ctx1.

Lemma renderers_related_ctx (fuel : nat) :
  relatedAt tex2typst Rf Q (definitions ctx1) (footnoteDefinitions ctx1)
    (onError ctx1) (onError ctx2) fuel.
Proof.
  destruct same as (_ & _ & Hcb).
  exact (renderers_related tex2typst Rf Q image_related _ _ _ _ Hcb footnotes fuel).
Qed.

Lemma ctx2_eq :
  ctx2 = {| definitions := definitions ctx1;
            footnoteDefinitions := footnoteDefinitions ctx1;
            onError := onError ctx2 |}.
Proof.
  destruct same as (Hd & Hf & _). destruct ctx1, ctx2; simpl in *. now subst.
Qed.

Lemma ctx1_eq :
  ctx1 = {| definitions := definitions ctx1;
            footnoteDefinitions := footnoteDefinitions ctx1;
            onError := onError ctx1 |}.
Proof. now destruct ctx1. Qed.

Lemma renderBlock_related (fuel : nat) (node : Node) (i : nat) :
  nodeOk Q node ->
  related Rf (renderBlock tex2typst fuel node i ctx1)
             (renderBlock tex2typst fuel node i ctx2).
Proof.
  intros Hok. rewrite ctx2_eq, ctx1_eq at 1.
  now apply (renderers_related_ctx fuel).
Qed.



Lemma renderInlines_related (fuel : nat) (nodes : list Node) :
  nodesOk Q nodes ->
  related Rf (renderInlines tex2typst fuel nodes ctx1)
             (renderInlines tex2typst fuel nodes ctx2).
Proof.
  intros Hok. rewrite ctx2_eq, ctx1_eq at 1.
  now apply (renderers_related_ctx fuel).
Qed.

Lemma renderBody_related (fuel : nat) (nodes : list Node) :
  nodesOk Q nodes ->
  related Rf (renderBody tex2typst fuel nodes ctx1)
             (renderBody tex2typst fuel nodes ctx2).
Proof.
  intros Hok. unfold renderBody. apply related_bind.
  - apply related_mapM. intros node Hin. apply renderBlock_related. now apply Hok.
  - intros rendered. apply related_ret.
Qed.

End WholeContexts.

(** No condition on images. *)
Definition anyUrl : string -> Prop := fun _ => True.

Lemma nodeOk_any (node : Node) : nodeOk anyUrl node.
Proof. intros url _. exact I. Qed.

Lemma nodesOk_any (nodes : list Node) : nodesOk anyUrl nodes.
Proof. intros node _. apply nodeOk_any. Qed.

Lemma footnotesOk_any (ctx : RenderContext) : footnotesOk anyUrl ctx.
Proof. intros key def _. apply nodesOk_any. Qed.



(** ** Fault isolation per block (module [block-renderer], [renderBlock]) *)



Lemma filterNonEmpty_cons (x : option string) (xs : list (option string)) :
  filterNonEmpty (x :: xs) = filterNonEmpty [x] ++ filterNonEmpty xs.
Proof. destruct x as [[|c s]|]; reflexivity. Qed.

Section Skipping.

Variable f : Node -> M (option string).
Variable node : Node.

(** The outcome of [f] does not depend on the state, and on [node] it is
    [null]. *)
Hypothesis f_outcome : forall n s1 s2, fst (f n s1) = fst (f n s2).
Hypothesis f_node : forall s, fst (f node s) = Ok None.



End Skipping.

Section FaultIsolation.

Variable tex2typst : string -> Outcome string.


End FaultIsolation.

Module FaultExamples.


Definition context (callback : ErrorCallback) : RenderContext :=
  {| definitions := ∅; footnoteDefinitions := ∅; onError := Some callback |}.

Definition options (callback : option ErrorCallback) : Markdown2TypstOptions :=
  {| opt_title := None; opt_author := None; opt_authors := None;
     opt_description := None; opt_keywords := None; opt_date := None;
     opt_abstract := None; opt_lang := None; opt_language := None;
     opt_region := None; opt_useH1AsTitle := false; opt_onError := callback |}.



End FaultExamples.



(** ** Callbacks that only return or throw (module [markdown2typst]) *)

(** Two computations that, from states with the same flag, end in the same
    outcome and the same flag.  The output builder reads the flag, so it is
    tracked rather than related. *)
Definition tracked {A} (m1 m2 : M A) : Prop :=
  forall s1 s2,
    externalImages s1 = externalImages s2 ->
    fst (m1 s1) = fst (m2 s2)
    /\ externalImages (snd (m1 s1)) = externalImages (snd (m2 s2)).

Lemma related_tracked {A} (m1 m2 : M A) : related eq m1 m2 -> tracked m1 m2.
Proof. intros H s1 s2 Hflag. destruct (H s1 s2) as [Hout Hkeep]. auto. Qed.

Lemma tracked_bind {A B} (m1 m2 : M A) (k1 k2 : A -> M B) :
  tracked m1 m2 -> (forall a, tracked (k1 a) (k2 a)) ->
  tracked (bind m1 k1) (bind m2 k2).
Proof.
  intros Hm Hk s1 s2 Hflag. unfold bind.
  destruct (Hm s1 s2 Hflag) as [Hout Hflag'].
  destruct (m1 s1) as [[a1|e1] s1'], (m2 s2) as [[a2|e2] s2']; simpl in *;
    try discriminate Hout.
  - injection Hout as ->. now apply Hk.
  - injection Hout as ->. auto.
Qed.

Lemma tracked_tryCatch {A} (m1 m2 : M A) (h1 h2 : Exn -> M A) :
  tracked m1 m2 -> (forall e, tracked (h1 e) (h2 e)) ->
  tracked (tryCatch m1 h1) (tryCatch m2 h2).
Proof.
  intros Hm Hh s1 s2 Hflag. unfold tryCatch.
  destruct (Hm s1 s2 Hflag) as [Hout Hflag'].
  destruct (m1 s1) as [[a1|e1] s1'], (m2 s2) as [[a2|e2] s2']; simpl in *;
    try discriminate Hout.
  - auto.
  - injection Hout as ->. now apply Hh.
Qed.

Lemma tracked_buildWarningsSection : tracked buildWarningsSection buildWarningsSection.
Proof.
  intros s1 s2 Hflag. unfold buildWarningsSection, readExternalImages, bind, ret.
  rewrite Hflag. destruct (externalImages s2) eqn:E; simpl; rewrite ?E, ?Hflag; now split.
Qed.

Lemma related_freshWarnings (Rf : bool -> bool -> Prop) :
  Rf false false -> related Rf freshWarnings freshWarnings.
Proof. intros H s1 s2. cbn. tauto. Qed.

Section StagesRelated.

Variable Rf : bool -> bool -> Prop.
Variables onError1 onError2 : option ErrorCallback.
Hypothesis callbacks : sameCallback onError1 onError2.

Lemma collectDefinitionsLoop_related (nodes : list Node) :
  forall defs,
    related Rf (collectDefinitionsLoop onError1 nodes defs)
               (collectDefinitionsLoop onError2 nodes defs).
Proof.
  induction nodes as [|node rest IH]; intros defs; [apply related_ret|].
  destruct node; try apply IH.
  cbn [collectDefinitionsLoop]. apply related_bind.
  - apply related_attempt. destruct (defs !! _); rel.
  - intros [error|]; [apply related_ret | apply IH].
Qed.

Lemma collectDefinitions_related (root : Root) :
  related Rf (collectDefinitions root onError1) (collectDefinitions root onError2).
Proof.
  unfold collectDefinitions. apply related_bind.
  - apply collectDefinitionsLoop_related.
  - intros [defs [error|]]; rel.
Qed.

Lemma collectFootnotesLoop_related (nodes : list Node) :
  forall defs,
    related Rf (collectFootnotesLoop onError1 nodes defs)
               (collectFootnotesLoop onError2 nodes defs).
Proof.
  induction nodes as [|node rest IH]; intros defs; [apply related_ret|].
  destruct node; try apply IH.
  cbn [collectFootnotesLoop]. apply related_bind.
  - apply related_attempt. destruct (defs !! _); rel.
  - intros [error|]; [apply related_ret | apply IH].
Qed.

Lemma collectFootnotes_related (root : Root) :
  related Rf (collectFootnotes root onError1) (collectFootnotes root onError2).
Proof.
  unfold collectFootnotes. apply related_bind.
  - apply collectFootnotesLoop_related.
  - intros [defs [error|]]; rel.
Qed.

Lemma findLeadingH1_related (root : Root) (defs : gmap string DefinitionNode) :
  related Rf (findLeadingH1 root defs onError1) (findLeadingH1 root defs onError2).
Proof. unfold findLeadingH1. rel. Qed.

Lemma parseFrontmatter_related (parseYaml : string -> Outcome YamlValue) (root : Root) :
  related Rf (parseFrontmatter parseYaml root onError1)
             (parseFrontmatter parseYaml root onError2).
Proof.
  unfold parseFrontmatter. destruct (findYaml root) as [value|]; [|apply related_ret].
  destruct (Js.truthy value); [|apply related_ret].
  unfold parseFrontmatterYaml. rel.
  destruct (_ || _); rel.
  destruct (field "author" _) as [[]|]; rel.
Qed.

Lemma parseMarkdown_related (remark : string -> Outcome Root) (markdown : string) :
  related Rf (parseMarkdown remark markdown onError1)
             (parseMarkdown remark markdown onError2).
Proof. unfold parseMarkdown. rel. Qed.

End StagesRelated.

Section OutputTracked.

Variable tex2typst : string -> Outcome string.
Variables ctx1 ctx2 : RenderContext.
Hypothesis same : sameMaps ctx1 ctx2.

Lemma headerParts_related (Rf : bool -> bool -> Prop) (metadata : DocumentMetadata) :
  related Rf (headerParts metadata ctx1) (headerParts metadata ctx2).
Proof.
  destruct same as (_ & _ & Hcb).
  unfold headerParts. apply related_bind; [|intros parts; apply related_ret].
  destruct (hasMetadata metadata); [|apply related_ret].
  unfold documentBlock. rel.
  destruct (Js.truthyOpt (date metadata)); rel.
Qed.

Lemma buildOutput_tracked (fuel : nat) (tree : Root) (metadata : DocumentMetadata)
    (leadingTitleIndex : option nat) :
  tracked (buildOutput tex2typst fuel tree metadata leadingTitleIndex ctx1)
          (buildOutput tex2typst fuel tree metadata leadingTitleIndex ctx2).
Proof.
  pose proof same as (_ & _ & Hcb).
  unfold buildOutput. apply tracked_tryCatch.
  - apply tracked_bind.
    + unfold outputParts. apply tracked_bind.
      * apply related_tracked.
        apply (renderBody_related tex2typst eq anyUrl
                 (fun url _ => renderImage_related eq url eq_refl)
                 ctx1 ctx2 same (footnotesOk_any ctx1)).
        apply nodesOk_any.
      * intros body. apply tracked_bind.
        -- apply related_tracked. apply headerParts_related.
        -- intros parts. apply tracked_bind; [apply tracked_buildWarningsSection|].
           intros section. apply related_tracked. apply related_ret.
    + intros [parts body]. apply related_tracked. apply related_ret.
  - intros e. apply related_tracked. rel.
Qed.

End OutputTracked.

(** The options with another callback, or none. *)
Definition withOnError (options : Markdown2TypstOptions) (callback : option ErrorCallback)
    : Markdown2TypstOptions :=
  {| opt_title := opt_title options; opt_author := opt_author options;
     opt_authors := opt_authors options; opt_description := opt_description options;
     opt_keywords := opt_keywords options; opt_date := opt_date options;
     opt_abstract := opt_abstract options; opt_lang := opt_lang options;
     opt_language := opt_language options; opt_region := opt_region options;
     opt_useH1AsTitle := opt_useH1AsTitle options; opt_onError := callback |}.

Section CallbackObserves.

Variable remark : string -> Outcome Root.
Variable tex2typst : string -> Outcome string.
Variable parseYaml : string -> Outcome YamlValue.
Variable langsCodes1 : list string.
Variable langsAll : list LangEntry.
Variable langsWhere : string -> string -> option LangEntry.
Variable getCodes : list string.
Variable getCode : string -> option string.
Variable toUpperCase : string -> string.

Let convert :=
  markdown2typst remark tex2typst parseYaml langsCodes1 langsAll langsWhere
    getCodes getCode toUpperCase.

Lemma markdown2typst_tracked (fuel : nat) (markdown : string)
    (options : Markdown2TypstOptions) (onError1 onError2 : option ErrorCallback) :
  sameCallback onError1 onError2 ->
  tracked (convert fuel markdown (withOnError options onError1))
          (convert fuel markdown (withOnError options onError2)).
Proof.
  intros Hcb. subst convert. unfold markdown2typst.
  cbn [withOnError opt_onError opt_useH1AsTitle].
  apply tracked_tryCatch; [|intros e; apply related_tracked; rel].
  apply tracked_bind; [apply related_tracked; now apply parseMarkdown_related|].
  intros tree.
  apply tracked_bind; [apply related_tracked; now apply collectDefinitions_related|].
  intros definitions.
  apply tracked_bind; [apply related_tracked; now apply collectFootnotes_related|].
  intros footnoteDefinitions.
  apply tracked_bind; [apply related_tracked; now apply parseFrontmatter_related|].
  intros frontmatter.
  apply tracked_bind.
  { apply related_tracked.
    destruct (opt_useH1AsTitle options);
      [now apply findLeadingH1_related | apply related_ret]. }
  intros leadingH1.
  apply tracked_bind; [apply related_tracked; now apply related_freshWarnings|].
  intros _.
  apply buildOutput_tracked. repeat split. exact Hcb.
Qed.

(** A callback that only returns or throws: converting with a callback
    that returns normally on every error it is handed and converting with no
    callback, all other options equal, end alike, with the same output text
    or with the same exception thrown. *)
Lemma quiet_callback_same_outcome (fuel : nat) (markdown : string)
    (options : Markdown2TypstOptions) (callback : ErrorCallback) :
  (forall error, callback error = None) ->
  run (convert fuel markdown (withOnError options (Some callback))) initialState
  = run (convert fuel markdown (withOnError options None)) initialState.
Proof.
  intros Hquiet. unfold run.
  apply (markdown2typst_tracked fuel markdown options (Some callback) None).
  - now apply sameCallback_quiet.
  - reflexivity.
Qed.

End CallbackObserves.

(** ** Remote images and the helper preamble
       (modules [inline-renderer], [output-builder]) *)


(** The line is not the warnings section. *)
Definition notPreamble (line : string) : Prop := String.eqb line warningsSection = false.

Ltac lines :=
  repeat first
    [ assumption
    | apply List.Forall_nil
    | apply List.Forall_cons; [reflexivity|]
    | apply List.Forall_app; split
    | match goal with |- Forall _ (if ?b then _ else _) => destruct b end ].

Lemma docArgLines_notPreamble (docArgs : list string) :
  Forall notPreamble (docArgLines docArgs).
Proof.
  induction docArgs as [|a rest IH]; [constructor|].
  destruct rest as [|b rest]; cbn [docArgLines] in *; lines.
Qed.

Lemma bind_Ok {A B} (m : M A) (k : A -> M B) (s s' : State) (b : B) :
  bind m k s = (Ok b, s') ->
  exists a s1, m s = (Ok a, s1) /\ k a s1 = (Ok b, s').
Proof.
  unfold bind. destruct (m s) as [[a|e] s1]; [|discriminate].
  intros H. now exists a, s1.
Qed.

Lemma tryCatch_Ok {A} (m : M A) (h : Exn -> M A) (s s' : State) (a : A) :
  tryCatch m h s = (Ok a, s') ->
  m s = (Ok a, s') \/ exists e s1, m s = (Throw e, s1) /\ h e s1 = (Ok a, s').
Proof.
  unfold tryCatch. destruct (m s) as [[a'|e] s1]; intros H.
  - now left.
  - right. now exists e, s1.
Qed.

Lemma ret_Ok {A} (a b : A) (s s' : State) : ret a s = (Ok b, s') -> a = b /\ s = s'.
Proof. unfold ret. intros H; injection H as -> ->. now split. Qed.

Lemma documentBlock_notPreamble (metadata : DocumentMetadata) (ctx : RenderContext)
    (s s' : State) (parts : list string) :
  documentBlock metadata ctx s = (Ok parts, s') -> Forall notPreamble parts.
Proof.
  unfold documentBlock. intros H.
  apply tryCatch_Ok in H as [H|(e & s1 & _ & H)].
  - apply bind_Ok in H as (args2 & s1 & _ & H). apply ret_Ok in H as [<- _].
    unfold frontmatterHeader. lines. apply docArgLines_notPreamble.
  - apply bind_Ok in H as ([] & s2 & _ & H). apply ret_Ok in H as [<- _].
    unfold frontmatterHeader. lines.
Qed.

Lemma headerParts_notPreamble (metadata : DocumentMetadata) (ctx : RenderContext)
    (s s' : State) (header : list string) :
  headerParts metadata ctx s = (Ok header, s') -> Forall notPreamble header.
Proof.
  unfold headerParts. intros H.
  apply bind_Ok in H as (parts1 & s1 & Hparts1 & H). apply ret_Ok in H as [<- _].
  assert (H1 : Forall notPreamble parts1).
  { destruct (hasMetadata metadata).
    - eapply documentBlock_notPreamble; eassumption.
    - apply ret_Ok in Hparts1 as [<- _]. constructor. }
  lines.
Qed.

(** Handing an error to the callback leaves the flag alone, and so does
    building the header. *)
Lemma headerParts_flag (metadata : DocumentMetadata) (ctx : RenderContext) (s : State) :
  externalImages (snd (headerParts metadata ctx s)) = externalImages s.
Proof.
  apply (headerParts_related ctx ctx (sameMaps_refl ctx)
           (fun b _ => b = externalImages s) metadata s s).
  reflexivity.
Qed.

Lemma report_flag (onError : option ErrorCallback) (error : ConversionError) (s : State) :
  externalImages (snd (report onError error s)) = externalImages s.
Proof.
  unfold report. destruct onError as [callback|]; [|reflexivity].
  now destruct (callback error).
Qed.

Lemma In_dropIndex {A} (x : A) (xs : list A) :
  forall i, In x (dropIndex i xs) -> In x xs.
Proof.
  induction xs as [|y xs IH]; intros i H; [destruct i; exact H|].
  destruct i as [|i]; cbn [dropIndex] in H.
  - now right.
  - destruct H as [->|H]; [now left | right; eauto].
Qed.


Section Footnotes.

Variable root : Root.





End Footnotes.

(** What the output builder pushes for the warnings: a blank line and the
    section when the flag is set, nothing otherwise. *)
Definition preambleParts (flag : bool) : list string :=
  if flag then [""; warningsSection] else [].

(** What it pushes for the body after the parts [before]. *)
Definition bodyParts (before : list string) (body : string) : list string :=
  if Js.truthy body
  then (if (0 <? length before)%nat then [""] else []) ++ [body]
  else [].

(** The construct a remote image renders to. *)
Definition externalImage (url : string) : string :=
  "#external-image(" +:+ nl +:+ "  " +:+ dq +:+ escapeTypstString url +:+ dq +:+ nl +:+ ")".

Section Preamble.

Variable tex2typst : string -> Outcome string.



Lemma renderBlock_keeps_flag (fuel : nat) (node : Node) (i : nat) (ctx : RenderContext)
    (s : State) :
  externalImages s = true ->
  externalImages (snd (renderBlock tex2typst fuel node i ctx s)) = true.
Proof.
  apply (renderBlock_related tex2typst (fun b _ => b = true) anyUrl
           (fun url _ => renderImage_related _ url eq_refl)
           ctx ctx (sameMaps_refl ctx) (footnotesOk_any ctx) fuel node i
           (nodeOk_any node) s s).
Qed.

Lemma mapM_app {A B} (f : A -> M B) (xs ys : list A) (s : State) :
  mapM f (xs ++ ys) s
  = (rs <- mapM f xs ;; rs' <- mapM f ys ;; ret (rs ++ rs')) s.
Proof.
  revert s. induction xs as [|x xs IH]; intros s; cbn [app mapM].
  - unfold bind, ret. now destruct (mapM f ys s) as [[rs'|e] s1].
  - unfold bind, ret in *. destruct (f x s) as [[y|e] s1]; [|reflexivity].
    rewrite IH. destruct (mapM f xs s1) as [[rs|e] s2]; [|reflexivity].
    now destruct (mapM f ys s2) as [[rs'|e] s3].
Qed.

(** A computation that leaves a set flag set, and one that sets it. *)
Definition keepsFlag {A} (m : M A) : Prop :=
  forall s, externalImages s = true -> externalImages (snd (m s)) = true.

Definition setsFlag {A} (m : M A) : Prop :=
  forall s, externalImages (snd (m s)) = true.

Lemma related_keepsFlag {A} (m : M A) :
  related (fun b _ => b = true) m m -> keepsFlag m.
Proof. intros H s. apply (H s s). Qed.

Lemma keepsFlag_ret {A} (a : A) : keepsFlag (ret a).
Proof. intros s H. exact H. Qed.

Lemma keepsFlag_bind {A B} (m : M A) (k : A -> M B) :
  keepsFlag m -> (forall a, keepsFlag (k a)) -> keepsFlag (bind m k).
Proof.
  intros Hm Hk s Hs. unfold bind. specialize (Hm s Hs).
  destruct (m s) as [[a|e] s1]; [now apply Hk | exact Hm].
Qed.

Lemma setsFlag_bind {A B} (m : M A) (k : A -> M B) :
  setsFlag m -> (forall a, keepsFlag (k a)) -> setsFlag (bind m k).
Proof.
  intros Hm Hk s. unfold bind. specialize (Hm s).
  destruct (m s) as [[a|e] s1]; [now apply Hk | exact Hm].
Qed.


Lemma mapM_keepsFlag {A B} (f : A -> M B) (xs : list A) :
  (forall x, keepsFlag (f x)) -> keepsFlag (mapM f xs).
Proof.
  intros Hf. induction xs as [|x xs IH]; cbn [mapM]; [apply keepsFlag_ret|].
  apply keepsFlag_bind; [apply Hf|]. intros y.
  apply keepsFlag_bind; [exact IH|]. intros ys. apply keepsFlag_ret.
Qed.



Lemma outputParts_shape (fuel : nat) (tree : Root) (metadata : DocumentMetadata)
    (leadingTitleIndex : option nat) (ctx : RenderContext) (st st' : State)
    (parts : list string) (body : string) :
  outputParts tex2typst fuel tree metadata leadingTitleIndex ctx st
  = (Ok (parts, body), st') ->
  exists header s1,
    renderBody tex2typst fuel (nodesForBody tree metadata leadingTitleIndex) ctx st
    = (Ok body, s1)
    /\ externalImages st' = externalImages s1
    /\ Forall notPreamble header
    /\ parts = header ++ preambleParts (externalImages st')
                      ++ bodyParts (header ++ preambleParts (externalImages st')) body.
Proof.
  unfold outputParts. intros H.
  apply bind_Ok in H as (body' & s1 & Hbody & H).
  apply bind_Ok in H as (header & s2 & Hheader & H).
  apply bind_Ok in H as (section & s3 & Hsection & H).
  apply ret_Ok in H as [H <-]. injection H as <- <-.
  pose proof (headerParts_flag metadata ctx s1) as Hflag. rewrite Hheader in Hflag.
  cbn [snd] in Hflag.
  unfold buildWarningsSection, readExternalImages, bind, ret in Hsection.
  exists header, s1. split; [exact Hbody|].
  assert (Hs3 : s3 = s2 /\ section = if externalImages s2 then Some warningsSection else None).
  { destruct (externalImages s2); cbn in Hsection; injection Hsection as <- <-; now split. }
  destruct Hs3 as [-> ->].
  split; [exact Hflag|]. split; [eapply headerParts_notPreamble; eassumption|].
  unfold preambleParts, bodyParts.
  destruct (externalImages s2); change (Js.truthy warningsSection) with true; cbv iota;
    destruct (Js.truthy body'); rewrite ?andb_true_r, ?andb_false_r, ?app_nil_r;
    cbn [app];
    try match goal with |- context [(0 <? length ?l)%nat] => destruct (0 <? length l)%nat end;
    rewrite ?app_nil_r, <- ?app_assoc; reflexivity.
Qed.

End Preamble.

Lemma length_append (a b : string) :
  String.length (a +:+ b) = String.length a + String.length b.
Proof.
  induction a as [|c a IH]; [reflexivity|]. rewrite append_cons. simpl. now rewrite IH.
Qed.



(** * Further properties *)

(** ** Lines of a text (module [utils]) *)

(** [c] occurs in [s]. *)
Fixpoint hasChar (c : ascii) (s : string) : bool :=
  match s with
  | "" => false
  | String x s' => Ascii.eqb x c || hasChar c s'
  end.

Lemma hasChar_append (c : ascii) (a b : string) :
  hasChar c (a +:+ b) = hasChar c a || hasChar c b.
Proof.
  induction a as [|x a IH]; [reflexivity|].
  rewrite append_cons. simpl. rewrite IH. now rewrite orb_assoc.
Qed.

Lemma split_nonempty (sep : ascii) (s : string) : Js.split sep s <> [].
Proof.
  destruct s as [|c s]; simpl; [discriminate|].
  destruct (Ascii.eqb c sep); [discriminate|].
  destruct (Js.split sep s); discriminate.
Qed.

Lemma join_cons2 (sep x y : string) (ys : list string) :
  Js.join sep (x :: y :: ys) = x +:+ sep +:+ Js.join sep (y :: ys).
Proof. reflexivity. Qed.

Lemma join_cons_char (sep : string) (c : ascii) (x : string) (xs : list string) :
  Js.join sep (String c x :: xs) = String c (Js.join sep (x :: xs)).
Proof. destruct xs; reflexivity. Qed.

(** Joining the pieces of a split with the separator gives the text back. *)
Lemma join_split (sep : ascii) (s : string) :
  Js.join (String sep "") (Js.split sep s) = s.
Proof.
  induction s as [|c s IH]; [reflexivity|]. cbn [Js.split].
  destruct (Ascii.eqb_spec c sep) as [->|Hc].
  - pose proof (split_nonempty sep s) as Hne.
    destruct (Js.split sep s) as [|x xs]; [contradiction|].
    rewrite join_cons2, IH. reflexivity.
  - pose proof (split_nonempty sep s) as Hne.
    destruct (Js.split sep s) as [|x xs]; [contradiction|].
    rewrite join_cons_char, IH. reflexivity.
Qed.

(** Splitting two texts joined by the separator gives the pieces of both. *)
Lemma split_app (sep : ascii) (a b : string) :
  Js.split sep (a +:+ String sep b) = Js.split sep a ++ Js.split sep b.
Proof.
  induction a as [|c a IH].
  - rewrite append_nil_l. cbn [Js.split]. now rewrite Ascii.eqb_refl.
  - rewrite append_cons. cbn [Js.split]. rewrite IH.
    destruct (Ascii.eqb c sep); [reflexivity|].
    pose proof (split_nonempty sep a) as Hne.
    destruct (Js.split sep a) as [|x xs]; [contradiction|]. reflexivity.
Qed.

Lemma split_whole (sep : ascii) (s : string) :
  hasChar sep s = false -> Js.split sep s = [s].
Proof.
  induction s as [|c s IH]; [reflexivity|]. simpl.
  destruct (Ascii.eqb c sep); [discriminate|]. simpl. intros H.
  now rewrite (IH H).
Qed.

Lemma split_pieces (sep : ascii) (s : string) :
  Forall (fun piece => hasChar sep piece = false) (Js.split sep s).
Proof.
  induction s as [|c s IH]; [repeat constructor|]. cbn [Js.split].
  destruct (Ascii.eqb c sep) eqn:Hc; [now constructor|].
  destruct (Js.split sep s) as [|x xs]; [repeat constructor; simpl; now rewrite Hc|].
  inversion IH as [|? ? Hx Hxs]; subst. constructor; [|exact Hxs].
  simpl. now rewrite Hc.
Qed.

(** Splitting a join of pieces that are free of the separator gives the
    pieces back. *)
Lemma split_join (sep : ascii) (pieces : list string) :
  pieces <> [] ->
  Forall (fun piece => hasChar sep piece = false) pieces ->
  Js.split sep (Js.join (String sep "") pieces) = pieces.
Proof.
  induction pieces as [|x xs IH]; [contradiction|]. intros _ H.
  inversion H as [|? ? Hx Hxs]; subst.
  destruct xs as [|y ys]; [now apply split_whole|].
  rewrite join_cons2. change (String sep "" +:+ ?t) with (String sep t).
  rewrite split_app, (split_whole _ _ Hx), IH; [reflexivity|discriminate|exact Hxs].
Qed.

Lemma split_join_lines (sep : ascii) (texts : list string) :
  texts <> [] ->
  Js.split sep (Js.join (String sep "") texts) = concat (map (Js.split sep) texts).
Proof.
  induction texts as [|x xs IH]; [contradiction|]. intros _.
  destruct xs as [|y ys]; [simpl; now rewrite app_nil_r|].
  rewrite join_cons2. change (String sep "" +:+ ?t) with (String sep t).
  rewrite split_app, IH; [reflexivity|discriminate].
Qed.

Lemma join_app (sep : string) (xs ys : list string) :
  xs <> [] -> ys <> [] ->
  Js.join sep (xs ++ ys) = Js.join sep xs +:+ sep +:+ Js.join sep ys.
Proof.
  induction xs as [|x xs IH]; [contradiction|]. intros _ Hys.
  destruct xs as [|x' xs].
  - destruct ys as [|y ys]; [contradiction|]. reflexivity.
  - change ((x :: x' :: xs) ++ ys) with (x :: x' :: (xs ++ ys)).
    rewrite !join_cons2. change (x' :: xs ++ ys) with ((x' :: xs) ++ ys).
    rewrite IH; [|discriminate|exact Hys]. now rewrite !append_assoc.
Qed.

Lemma repeat_add (s : string) (a b : nat) :
  Js.repeat s (a + b) = Js.repeat s a +:+ Js.repeat s b.
Proof.
  induction a as [|a IH]; [reflexivity|]. simpl. now rewrite IH, append_assoc.
Qed.

Lemma hasChar_indent (n : nat) : hasChar newline (Js.repeat "  " n) = false.
Proof. induction n as [|n IH]; [reflexivity|]. simpl. exact IH. Qed.

(** The margin of an indent level. *)
Definition margin (indentLevel : nat) : string := Js.repeat "  " indentLevel.

Lemma indentLines_map (text : string) (indentLevel : nat) :
  indentLines text indentLevel
  = Js.join nl (map (fun line => margin indentLevel +:+ line) (Js.split newline text)).
Proof.
  destruct indentLevel as [|n]; [|reflexivity].
  unfold indentLines, margin. cbn [Js.repeat].
  rewrite (map_ext _ (fun line => line)) by reflexivity.
  rewrite map_id. symmetry. apply join_split.
Qed.

Lemma indentLines_split (text : string) (indentLevel : nat) :
  Js.split newline (indentLines text indentLevel)
  = map (fun line => margin indentLevel +:+ line) (Js.split newline text).
Proof.
  rewrite indentLines_map. apply split_join.
  - pose proof (split_nonempty newline text). now destruct (Js.split newline text).
  - apply List.Forall_map. eapply List.Forall_impl; [|apply split_pieces].
    intros piece H. cbn beta. rewrite hasChar_append, H. unfold margin.
    now rewrite hasChar_indent.
Qed.

(** X1.  Every line of the text gets the margin of the level, two spaces
    per level, blank lines included, and no line is added or lost; the text
    is unchanged at level 0. *)
Theorem indentLines_lines (text : string) (indentLevel : nat) :
  Js.split newline (indentLines text indentLevel)
  = map (fun line => Js.repeat "  " indentLevel +:+ line) (Js.split newline text)
  /\ length (Js.split newline (indentLines text indentLevel))
     = length (Js.split newline text)
  /\ String.length (Js.repeat "  " indentLevel) = 2 * indentLevel
  /\ indentLines text 0 = text.
Proof.
  split; [apply indentLines_split|]. split; [|split; [|reflexivity]].
  - now rewrite indentLines_split, length_map.
  - induction indentLevel as [|n IH]; [reflexivity|].
    cbn [Js.repeat]. rewrite length_append, IH. simpl String.length. lia.
Qed.

Lemma indentLines_add (text : string) (a b : nat) :
  indentLines (indentLines text a) b = indentLines text (a + b).
Proof.
  rewrite (indentLines_map _ b), indentLines_split, (indentLines_map _ (a + b)).
  rewrite map_map. f_equal. apply map_ext. intros line.
  unfold margin. rewrite Nat.add_comm, repeat_add. now rewrite append_assoc.
Qed.

Lemma indentLines_join (texts : list string) (indentLevel : nat) :
  texts <> [] ->
  indentLines (Js.join nl texts) indentLevel
  = Js.join nl (map (fun text => indentLines text indentLevel) texts).
Proof.
  intros Hne. rewrite indentLines_map.
  change nl with (String newline "") at 2. rewrite (split_join_lines _ _ Hne).
  clear Hne. induction texts as [|x xs IH]; [reflexivity|].
  cbn [map concat]. destruct xs as [|y ys].
  - cbn [map concat]. rewrite app_nil_r. now rewrite indentLines_map.
  - rewrite map_app, join_app.
    + rewrite IH. change (map ?f (y :: ys)) with (f y :: map f ys).
      rewrite join_cons2. now rewrite <- indentLines_map.
    + pose proof (split_nonempty newline x). now destruct (Js.split newline x).
    + cbn [map concat]. pose proof (split_nonempty newline y).
      now destruct (Js.split newline y).
Qed.

(** X2.  Indenting composes: a text indented by [a] levels and then by [b]
    is the text indented by [a + b] levels; and a text made of several
    pieces, one per line group, is indented piece by piece. *)
Theorem indentLines_compose (text : string) (a b : nat) :
  indentLines (indentLines text a) b = indentLines text (a + b)
  /\ forall texts, texts <> [] ->
       indentLines (Js.join nl texts) a
       = Js.join nl (map (fun piece => indentLines piece a) texts).
Proof.
  split; [apply indentLines_add|]. intros texts Hne. now apply indentLines_join.
Qed.

(** Two pieces, the second of two lines, at level 1. *)
Lemma indentLines_compose_witness :
  indentLines (Js.join nl ["a"; "b" +:+ nl +:+ "c"]) 1
  = Js.join nl [indentLines "a" 1; indentLines ("b" +:+ nl +:+ "c") 1].
Proof.
  apply (proj2 (indentLines_compose "" 1 0) ["a"; "b" +:+ nl +:+ "c"]). discriminate.
Defined.

(** ** The last line feed of a code value (module [block-renderer]) *)

Lemma stripFinalNewline_append (s : string) : stripFinalNewline (s +:+ nl) = s.
Proof.
  induction s as [|c s IH]; [reflexivity|].
  rewrite append_cons. cbn [stripFinalNewline].
  destruct (s +:+ nl) eqn:Hs.
  - destruct s; discriminate Hs.
  - now rewrite IH.
Qed.

(** The text ends with a line feed. *)
Fixpoint endsWithNewline (s : string) : bool :=
  match s with
  | "" => false
  | String c "" => Ascii.eqb c newline
  | String _ s' => endsWithNewline s'
  end.

Lemma stripFinalNewline_id (s : string) :
  endsWithNewline s = false -> stripFinalNewline s = s.
Proof.
  induction s as [|c s IH]; [reflexivity|]. cbn [endsWithNewline stripFinalNewline].
  destruct s as [|c' s'].
  - now intros ->.
  - intros H. now rewrite (IH H).
Qed.

Lemma stripFinalNewline_ends (s : string) :
  endsWithNewline s = true -> stripFinalNewline s +:+ nl = s.
Proof.
  induction s as [|c s IH]; [discriminate|]. cbn [endsWithNewline stripFinalNewline].
  destruct s as [|c' s'].
  - destruct (Ascii.eqb_spec c newline) as [->|]; [reflexivity|discriminate].
  - intros H. rewrite append_cons. now rewrite (IH H).
Qed.

(** X3.  Only the last line feed of a code value is dropped: a value
    with one line feed appended renders as the value itself does when it
    does not end in a line feed, and a value that ends in one loses exactly
    that one. *)
Theorem renderCodeBlock_final_newline (lang : option string) (value : string)
    (indentLevel : nat) :
  stripFinalNewline (value +:+ nl) = value
  /\ (endsWithNewline value = false ->
      stripFinalNewline value = value
      /\ renderCodeBlock lang (value +:+ nl) indentLevel
         = renderCodeBlock lang value indentLevel)
  /\ (endsWithNewline value = true -> stripFinalNewline value +:+ nl = value).
Proof.
  split; [apply stripFinalNewline_append|]. split.
  - intros H. split; [now apply stripFinalNewline_id|].
    unfold renderCodeBlock. now rewrite stripFinalNewline_append, stripFinalNewline_id.
  - apply stripFinalNewline_ends.
Qed.

(** ** Escaping (module [utils]) *)

(** Typst markup read back: a backslash stands for the character after it. *)
Fixpoint readTypstText (s : string) : string :=
  match s with
  | "" => ""
  | String "\" (String c s') => String c (readTypstText s')
  | String c s' => String c (readTypstText s')
  end.

(** No character of the text is special. *)
Fixpoint plainChars (s : string) : bool :=
  match s with
  | "" => true
  | String c s' => negb (isTypstSpecial c) && plainChars s'
  end.

(** Every special character of the markup is escaped, and nothing else is. *)
Fixpoint escapedText (s : string) : bool :=
  match s with
  | "" => true
  | String "\" (String c s') => isTypstSpecial c && escapedText s'
  | String c s' => negb (isTypstSpecial c) && escapedText s'
  end.

Lemma escapeTypstText_app (a b : string) :
  escapeTypstText (a +:+ b) = escapeTypstText a +:+ escapeTypstText b.
Proof.
  induction a as [|c a IH]; [reflexivity|].
  rewrite append_cons. cbn [escapeTypstText]. rewrite IH.
  now destruct (isTypstSpecial c).
Qed.

Lemma escapeTypstText_cons (c : ascii) (s : string) :
  escapeTypstText (String c s)
  = if isTypstSpecial c then String "\" (String c (escapeTypstText s))
    else String c (escapeTypstText s).
Proof. reflexivity. Qed.

Lemma not_special_not_backslash (c : ascii) :
  isTypstSpecial c = false -> c <> "\"%char.
Proof. intros H ->. discriminate H. Qed.

Lemma readTypstText_plain (c : ascii) (s : string) :
  c <> "\"%char -> readTypstText (String c s) = String c (readTypstText s).
Proof.
  intros Hc. destruct c as [[] [] [] [] [] [] [] []]; try reflexivity. now elim Hc.
Qed.

Lemma escapedText_plain (c : ascii) (s : string) :
  c <> "\"%char -> escapedText (String c s) = negb (isTypstSpecial c) && escapedText s.
Proof.
  intros Hc. destruct c as [[] [] [] [] [] [] [] []]; try reflexivity. now elim Hc.
Qed.

Lemma readTypstText_escape (s : string) : readTypstText (escapeTypstText s) = s.
Proof.
  induction s as [|c s IH]; [reflexivity|]. rewrite escapeTypstText_cons.
  destruct (isTypstSpecial c) eqn:Hc.
  - cbn [readTypstText]. now rewrite IH.
  - rewrite readTypstText_plain by now apply not_special_not_backslash.
    now rewrite IH.
Qed.

Lemma escapedText_escape (s : string) : escapedText (escapeTypstText s) = true.
Proof.
  induction s as [|c s IH]; [reflexivity|]. rewrite escapeTypstText_cons.
  destruct (isTypstSpecial c) eqn:Hc.
  - cbn [escapedText]. now rewrite Hc, IH.
  - rewrite escapedText_plain by now apply not_special_not_backslash.
    now rewrite Hc, IH.
Qed.

(** X4.  In escaped text every special character stands behind a
    backslash of its own and nothing else is escaped; reading the escapes
    back gives the input, so two texts escape to the same markup only when
    they are equal; text is escaped piece by piece, and text without special
    characters is left as it is. *)
Theorem escapeTypstText_faithful (input : string) :
  escapedText (escapeTypstText input) = true
  /\ readTypstText (escapeTypstText input) = input
  /\ (forall other, escapeTypstText other = escapeTypstText input -> other = input)
  /\ (forall rest, escapeTypstText (input +:+ rest)
                   = escapeTypstText input +:+ escapeTypstText rest)
  /\ (plainChars input = true -> escapeTypstText input = input).
Proof.
  split; [apply escapedText_escape|]. split; [apply readTypstText_escape|].
  split; [|split; [apply escapeTypstText_app|]].
  - intros other H. rewrite <- (readTypstText_escape other), H.
    apply readTypstText_escape.
  - induction input as [|c s IH]; [reflexivity|]. cbn [plainChars]. intros H.
    apply andb_prop in H as [Hc H]. apply negb_true_iff in Hc.
    now rewrite escapeTypstText_cons, Hc, (IH H).
Qed.

(** The piece of a string literal a character is written as. *)
Definition escapeStringChar (c : ascii) : string :=
  if Ascii.eqb c "\" then "\\"
  else if Ascii.eqb c dquote then "\" +:+ dq
  else if Ascii.eqb c newline then "\n"
  else String c "".

Lemma escapeStringChar_eq (c : ascii) :
  escapeStringChar c
  = if Ascii.eqb c "\" then String "\" (String "\" "")
    else if Ascii.eqb c dquote then String "\" (String dquote "")
    else if Ascii.eqb c newline then String "\" (String "n" "")
    else String c "".
Proof. reflexivity. Qed.

Lemma append_two (a b : ascii) (t : string) :
  String a (String b "") +:+ t = String a (String b t).
Proof. reflexivity. Qed.

Lemma replaceChar_app (c : ascii) (by_ a b : string) :
  replaceChar c by_ (a +:+ b) = replaceChar c by_ a +:+ replaceChar c by_ b.
Proof.
  induction a as [|x a IH]; [reflexivity|].
  rewrite append_cons. cbn [replaceChar]. rewrite IH.
  destruct (Ascii.eqb x c); [now rewrite append_assoc | reflexivity].
Qed.

(** The three replacements of [escapeTypstString] amount to one pass: the
    backslashes the later passes write are not escaped again. *)
Lemma escapeTypstString_cons (c : ascii) (s : string) :
  escapeTypstString (String c s) = escapeStringChar c +:+ escapeTypstString s.
Proof.
  unfold escapeTypstString, escapeStringChar. cbn [replaceChar].
  destruct (Ascii.eqb_spec c "\") as [->|Hbs].
  - rewrite !replaceChar_app. reflexivity.
  - cbn [replaceChar]. destruct (Ascii.eqb_spec c dquote) as [->|Hdq].
    + rewrite !replaceChar_app. reflexivity.
    + cbn [replaceChar]. destruct (Ascii.eqb_spec c newline) as [->|Hnl]; reflexivity.
Qed.

(** A string literal read back: a backslash before a backslash or a quote
    stands for that character, and before [n] for a line feed. *)
Fixpoint readTypstString (s : string) : string :=
  match s with
  | "" => ""
  | String "\" (String c s') =>
      String (if Ascii.eqb c "n" then newline else c) (readTypstString s')
  | String c s' => String c (readTypstString s')
  end.

(** The text can stand between the quotes of a string literal: no bare
    quote, no bare line feed, and every backslash starts one of the three
    escapes. *)
Fixpoint stringBody (s : string) : bool :=
  match s with
  | "" => true
  | String "\" (String c s') =>
      (Ascii.eqb c "\" || Ascii.eqb c dquote || Ascii.eqb c "n") && stringBody s'
  | String c s' =>
      negb (Ascii.eqb c "\") && negb (Ascii.eqb c dquote) && negb (Ascii.eqb c newline)
      && stringBody s'
  end.

Lemma readTypstString_plain (c : ascii) (s : string) :
  c <> "\"%char -> readTypstString (String c s) = String c (readTypstString s).
Proof.
  intros Hc. destruct c as [[] [] [] [] [] [] [] []]; try reflexivity. now elim Hc.
Qed.

Lemma stringBody_plain (c : ascii) (s : string) :
  c <> "\"%char ->
  stringBody (String c s)
  = negb (Ascii.eqb c "\") && negb (Ascii.eqb c dquote) && negb (Ascii.eqb c newline)
    && stringBody s.
Proof.
  intros Hc. destruct c as [[] [] [] [] [] [] [] []]; try reflexivity. now elim Hc.
Qed.

Lemma readTypstString_escaped (c : ascii) (s : string) :
  readTypstString (String "\" (String c s))
  = String (if Ascii.eqb c "n" then newline else c) (readTypstString s).
Proof. reflexivity. Qed.

Lemma stringBody_escaped (c : ascii) (s : string) :
  stringBody (String "\" (String c s))
  = (Ascii.eqb c "\" || Ascii.eqb c dquote || Ascii.eqb c "n") && stringBody s.
Proof. reflexivity. Qed.

Lemma readTypstString_escape (s : string) : readTypstString (escapeTypstString s) = s.
Proof.
  induction s as [|c s IH]; [reflexivity|].
  rewrite escapeTypstString_cons, escapeStringChar_eq.
  destruct (Ascii.eqb_spec c "\") as [->|Hbs];
    [rewrite append_two, readTypstString_escaped, IH; reflexivity|].
  destruct (Ascii.eqb_spec c dquote) as [->|Hdq];
    [rewrite append_two, readTypstString_escaped, IH; reflexivity|].
  destruct (Ascii.eqb_spec c newline) as [->|Hnl];
    [rewrite append_two, readTypstString_escaped, IH; reflexivity|].
  rewrite append_cons, append_nil_l, readTypstString_plain by exact Hbs.
  now rewrite IH.
Qed.

Lemma stringBody_escape (s : string) : stringBody (escapeTypstString s) = true.
Proof.
  induction s as [|c s IH]; [reflexivity|].
  rewrite escapeTypstString_cons, escapeStringChar_eq.
  destruct (Ascii.eqb_spec c "\") as [->|Hbs];
    [rewrite append_two, stringBody_escaped, IH; reflexivity|].
  destruct (Ascii.eqb_spec c dquote) as [->|Hdq];
    [rewrite append_two, stringBody_escaped, IH; reflexivity|].
  destruct (Ascii.eqb_spec c newline) as [->|Hnl];
    [rewrite append_two, stringBody_escaped, IH; reflexivity|].
  rewrite append_cons, append_nil_l, stringBody_plain by exact Hbs.
  rewrite IH.
  destruct (Ascii.eqb_spec c "\"); [contradiction|].
  destruct (Ascii.eqb_spec c dquote); [contradiction|].
  destruct (Ascii.eqb_spec c newline); [contradiction|]. reflexivity.
Qed.

(** X5.  The three replacements of [escapeTypstString] act as one pass
    over the input, character by character; the result can stand between
    the quotes of a string literal (no bare quote, no bare line feed, every
    backslash stands before a backslash, a quote or [n]); and reading those
    escapes back gives the input, so the escaping loses nothing. *)
Theorem escapeTypstString_faithful (input : string) :
  (forall c, escapeTypstString (String c input)
             = escapeStringChar c +:+ escapeTypstString input)
  /\ stringBody (escapeTypstString input) = true
  /\ hasChar newline (escapeTypstString input) = false
  /\ readTypstString (escapeTypstString input) = input
  /\ (forall other, escapeTypstString other = escapeTypstString input -> other = input).
Proof.
  split; [intros c; apply escapeTypstString_cons|].
  split; [apply stringBody_escape|].
  split; [|split; [apply readTypstString_escape|]].
  - induction input as [|c s IH]; [reflexivity|].
    rewrite escapeTypstString_cons, hasChar_append, IH, escapeStringChar_eq.
    destruct (Ascii.eqb_spec c "\") as [->|Hbs]; [reflexivity|].
    destruct (Ascii.eqb_spec c dquote) as [->|Hdq]; [reflexivity|].
    destruct (Ascii.eqb_spec c newline) as [->|Hnl]; [reflexivity|].
    cbn [hasChar]. destruct (Ascii.eqb_spec c newline); [contradiction|reflexivity].
  - intros other H. rewrite <- (readTypstString_escape other), H.
    apply readTypstString_escape.
Qed.

(** ** What the collectors collect (module [collectors]) *)

(** The last definition of [nodes] whose identifier is [key], case apart. *)
Fixpoint lastDefinition (key : string) (nodes : list Node) : option DefinitionNode :=
  match nodes with
  | [] => None
  | NDefinition def :: rest =>
      match lastDefinition key rest with
      | Some later => Some later
      | None =>
          if String.eqb (Js.toLowerCase (def_identifier def)) key then Some def else None
      end
  | _ :: rest => lastDefinition key rest
  end.

Fixpoint countDefinitions (nodes : list Node) : nat :=
  match nodes with
  | [] => 0
  | NDefinition _ :: rest => S (countDefinitions rest)
  | _ :: rest => countDefinitions rest
  end.

Lemma definitionsOf_lookup (key : string) (nodes : list Node) :
  forall defs,
    definitionsOf nodes defs !! key
    = match lastDefinition key nodes with
      | Some def => Some def
      | None => defs !! key
      end.
Proof.
  induction nodes as [|node rest IH]; intros defs; [reflexivity|].
  destruct node; cbn [definitionsOf lastDefinition]; try apply IH.
  rewrite IH. destruct (lastDefinition key rest); [reflexivity|].
  destruct (String.eqb_spec (Js.toLowerCase (def_identifier def)) key) as [->|Hne].
  - apply lookup_insert_eq.
  - now apply lookup_insert_ne.
Qed.

Lemma definitionsOf_size (nodes : list Node) :
  forall defs,
    length (duplicatesOf nodes defs) + size (definitionsOf nodes defs)
    = countDefinitions nodes + size defs.
Proof.
  induction nodes as [|node rest IH]; intros defs; [reflexivity|].
  destruct node; cbn [definitionsOf duplicatesOf countDefinitions]; try apply IH.
  destruct (defs !! Js.toLowerCase (def_identifier def)) as [old|] eqn:Hold.
  - cbn [length]. rewrite Nat.add_succ_l, IH.
    rewrite map_size_insert_Some by (rewrite Hold; eauto). reflexivity.
  - rewrite IH, map_size_insert_None by exact Hold. lia.
Qed.

Lemma duplicatesOf_warnings (nodes : list Node) :
  forall defs,
    Forall (fun error => severity error = WARNING
                         /\ context error = "definition collection")
           (duplicatesOf nodes defs).
Proof.
  induction nodes as [|node rest IH]; intros defs; [constructor|].
  destruct node; cbn [duplicatesOf]; try apply IH.
  destruct (defs !! _); [constructor; [now split|]|]; apply IH.
Qed.

(** X6.  With a callback that returns, or none, [collectDefinitions]
    returns a map whose keys are lower-cased identifiers: a key is bound to
    the last top-level definition with that identifier, case apart, and is
    unbound when there is none; every definition is either a binding of the
    map or announced by one warning, so the warnings and the bindings
    together count the definitions; and nothing but those warnings reaches
    the callback. *)
Theorem collectDefinitions_last_wins (root : Root) (onError : option ErrorCallback)
    (st : State) :
  quiet onError ->
  exists defs warnings,
    collectDefinitions root onError st = (Ok defs, addReports st (noted onError warnings))
    /\ (forall key, defs !! key = lastDefinition key root)
    /\ length warnings + size defs = countDefinitions root
    /\ Forall (fun error => severity error = WARNING
                            /\ context error = "definition collection") warnings.
Proof.
  intros Hq. exists (definitionsOf root ∅), (duplicatesOf root ∅).
  split; [now apply collectDefinitions_quiet|].
  split; [|split].
  - intros key. rewrite definitionsOf_lookup, lookup_empty.
    now destruct (lastDefinition key root).
  - rewrite definitionsOf_size, map_size_empty. lia.
  - apply duplicatesOf_warnings.
Qed.

(** Two definitions of [ref] that differ by case, a paragraph between them:
    the second is kept, and one warning and one binding count the two. *)
Lemma collectDefinitions_last_wins_witness :
  exists defs warnings,
    collectDefinitions
      [ NDefinition {| def_identifier := "Ref"; def_url := "https://one" |};
        NParagraph [NText "text"];
        NDefinition {| def_identifier := "REF"; def_url := "https://two" |} ]
      (Some Examples.listen) initialState
    = (Ok defs, addReports initialState (noted (Some Examples.listen) warnings))
    /\ defs !! "ref" = Some {| def_identifier := "REF"; def_url := "https://two" |}
    /\ length warnings + size defs = 2.
Proof.
  destruct (collectDefinitions_last_wins
              [ NDefinition {| def_identifier := "Ref"; def_url := "https://one" |};
                NParagraph [NText "text"];
                NDefinition {| def_identifier := "REF"; def_url := "https://two" |} ]
              (Some Examples.listen) initialState)
    as (defs & warnings & Hrun & Hlookup & Hcount & _).
  - intros error. reflexivity.
  - exists defs, warnings. split; [exact Hrun|]. split; [|exact Hcount].
    rewrite Hlookup. reflexivity.
Defined.

(** The loop when the callback returns on the warnings it is handed. *)
Lemma collectDefinitionsLoop_returns (onError : option ErrorCallback) (nodes : list Node) :
  forall defs st,
    Forall (returnsNormally onError) (duplicatesOf nodes defs) ->
    collectDefinitionsLoop onError nodes defs st
    = (Ok (definitionsOf nodes defs, None),
       addReports st (noted onError (duplicatesOf nodes defs))).
Proof.
  induction nodes as [|node rest IH]; intros defs st Hq.
  - simpl. unfold ret. destruct onError; simpl; now rewrite addReports_nil.
  - destruct node; try exact (IH defs st Hq).
    cbn [collectDefinitionsLoop definitionsOf duplicatesOf] in *.
    destruct (defs !! Js.toLowerCase (def_identifier def)) as [old|]; monad.
    + inversion Hq as [|? ? Hhere Hrest]; subst.
      rewrite (report_returns _ _ _ Hhere), (IH _ _ Hrest).
      rewrite addReports_app, <- noted_app. reflexivity.
    + now apply IH.
Qed.

Lemma collectDefinitionsLoop_app (onError : option ErrorCallback) (a b : list Node) :
  forall defs st,
    collectDefinitionsLoop onError (a ++ b) defs st
    = (r <- collectDefinitionsLoop onError a defs ;;
       match r with
       | (defs', None) => collectDefinitionsLoop onError b defs'
       | (defs', Some error) => ret (defs', Some error)
       end) st.
Proof.
  induction a as [|node a IH]; intros defs st.
  - cbn [app collectDefinitionsLoop]. reflexivity.
  - destruct node; try exact (IH defs st).
    cbn [app collectDefinitionsLoop].
    unfold bind in *. destruct (attempt _ st) as [[[error|]|e] s1]; try reflexivity.
    apply IH.
Qed.

(** X7.  A callback that throws on a duplicate warning stops the
    collection there: the exception is handed back to the callback as a
    collection error, and when the callback returns on that, the map built
    up to the duplicate is the result, so the identifier keeps its earlier
    definition and the definitions after the duplicate are not collected;
    when the callback throws again, that exception leaves
    [collectDefinitions]. *)
Theorem collectDefinitions_stops_at_throw (before after : list Node) (def : DefinitionNode)
    (callback : ErrorCallback) (thrown : Exn) (st : State) :
  Forall (fun error => callback error = None) (duplicatesOf before ∅) ->
  is_Some (definitionsOf before ∅ !! Js.toLowerCase (def_identifier def)) ->
  callback (duplicateDefinition def) = Some thrown ->
  let reports :=
    duplicatesOf before ∅ ++ [duplicateDefinition def; collectDefinitionsFailed thrown] in
  collectDefinitions (before ++ NDefinition def :: after) (Some callback) st
  = match callback (collectDefinitionsFailed thrown) with
    | None => (Ok (definitionsOf before ∅), addReports st reports)
    | Some again => (Throw again, addReports st reports)
    end.
Proof.
  intros Hbefore [old Hold] Hthrow reports. unfold collectDefinitions.
  unfold bind at 1. rewrite collectDefinitionsLoop_app. unfold bind at 1.
  rewrite (collectDefinitionsLoop_returns (Some callback) before ∅ st Hbefore).
  cbn [collectDefinitionsLoop noted]. rewrite Hold. monad.
  rewrite (report_throws _ _ _ _ Hthrow).
  unfold report. unfold reports.
  destruct (callback (collectDefinitionsFailed thrown)) as [again|];
    unfold addReports; cbn [reported externalImages];
    rewrite <- !app_assoc; reflexivity.
Qed.

(** A callback that throws on warnings and returns on errors: of [a], [A]
    and [b] only the first [a] is collected. *)
Lemma collectDefinitions_stops_at_throw_witness :
  let first := {| def_identifier := "a"; def_url := "https://one" |} in
  let second := {| def_identifier := "A"; def_url := "https://two" |} in
  let third := {| def_identifier := "b"; def_url := "https://three" |} in
  let callback : ErrorCallback :=
    fun error => match severity error with
                 | WARNING => Some (JsError "stop")
                 | ERROR => None
                 end in
  collectDefinitions [NDefinition first; NDefinition second; NDefinition third]
    (Some callback) initialState
  = (Ok (<["a" := first]> ∅),
     addReports initialState
       [duplicateDefinition second; collectDefinitionsFailed (JsError "stop")]).
Proof.
  intros first second third callback.
  apply (collectDefinitions_stops_at_throw [NDefinition first] [NDefinition third] second
           callback (JsError "stop") initialState).
  - constructor.
  - exists first. reflexivity.
  - reflexivity.
Defined.

(** The footnotes: the map the loop builds and its warnings. *)
Fixpoint footnotesOf (nodes : list Node) (defs : gmap string FootnoteDefinition)
    : gmap string FootnoteDefinition :=
  match nodes with
  | [] => defs
  | NFootnoteDefinition identifier children :: rest =>
      footnotesOf rest
        (<[Js.toLowerCase identifier :=
             {| fn_identifier := identifier; fn_children := children |}]> defs)
  | _ :: rest => footnotesOf rest defs
  end.

Fixpoint duplicateFootnotesOf (nodes : list Node) (defs : gmap string FootnoteDefinition)
    : list ConversionError :=
  match nodes with
  | [] => []
  | NFootnoteDefinition identifier children :: rest =>
      let key := Js.toLowerCase identifier in
      let def := {| fn_identifier := identifier; fn_children := children |} in
      match defs !! key with
      | Some _ => duplicateFootnote identifier :: duplicateFootnotesOf rest (<[key := def]> defs)
      | None => duplicateFootnotesOf rest (<[key := def]> defs)
      end
  | _ :: rest => duplicateFootnotesOf rest defs
  end.

Fixpoint lastFootnote (key : string) (nodes : list Node) : option FootnoteDefinition :=
  match nodes with
  | [] => None
  | NFootnoteDefinition identifier children :: rest =>
      match lastFootnote key rest with
      | Some later => Some later
      | None =>
          if String.eqb (Js.toLowerCase identifier) key
          then Some {| fn_identifier := identifier; fn_children := children |}
          else None
      end
  | _ :: rest => lastFootnote key rest
  end.

Fixpoint countFootnotes (nodes : list Node) : nat :=
  match nodes with
  | [] => 0
  | NFootnoteDefinition _ _ :: rest => S (countFootnotes rest)
  | _ :: rest => countFootnotes rest
  end.

Lemma collectFootnotesLoop_quiet (onError : option ErrorCallback) :
  quiet onError ->
  forall nodes defs st,
    collectFootnotesLoop onError nodes defs st
    = (Ok (footnotesOf nodes defs, None),
       addReports st (noted onError (duplicateFootnotesOf nodes defs))).
Proof.
  intros Hq nodes. induction nodes as [|node rest IH]; intros defs st.
  - simpl. unfold ret. destruct onError; simpl; now rewrite addReports_nil.
  - destruct node; try exact (IH defs st).
    cbn [collectFootnotesLoop footnotesOf duplicateFootnotesOf].
    destruct (defs !! Js.toLowerCase identifier) as [old|]; monad.
    + rewrite (report_returns _ _ _ (Hq _)), IH.
      rewrite addReports_app, <- noted_app. reflexivity.
    + apply IH.
Qed.

Lemma collectFootnotes_quiet (onError : option ErrorCallback) (root : Root) (st : State) :
  quiet onError ->
  collectFootnotes root onError st
  = (Ok (footnotesOf root ∅), addReports st (noted onError (duplicateFootnotesOf root ∅))).
Proof.
  intros Hq. unfold collectFootnotes, bind.
  now rewrite (collectFootnotesLoop_quiet _ Hq).
Qed.

Lemma footnotesOf_lookup (key : string) (nodes : list Node) :
  forall defs,
    footnotesOf nodes defs !! key
    = match lastFootnote key nodes with
      | Some def => Some def
      | None => defs !! key
      end.
Proof.
  induction nodes as [|node rest IH]; intros defs; [reflexivity|].
  destruct node; cbn [footnotesOf lastFootnote]; try apply IH.
  rewrite IH. destruct (lastFootnote key rest); [reflexivity|].
  destruct (String.eqb_spec (Js.toLowerCase identifier) key) as [->|Hne].
  - apply lookup_insert_eq.
  - now apply lookup_insert_ne.
Qed.

Lemma footnotesOf_size (nodes : list Node) :
  forall defs,
    length (duplicateFootnotesOf nodes defs) + size (footnotesOf nodes defs)
    = countFootnotes nodes + size defs.
Proof.
  induction nodes as [|node rest IH]; intros defs; [reflexivity|].
  destruct node; cbn [footnotesOf duplicateFootnotesOf countFootnotes]; try apply IH.
  destruct (defs !! Js.toLowerCase identifier) as [old|] eqn:Hold.
  - cbn [length]. rewrite Nat.add_succ_l, IH.
    rewrite map_size_insert_Some by (rewrite Hold; eauto). reflexivity.
  - rewrite IH, map_size_insert_None by exact Hold. lia.
Qed.

(** X8.  With a callback that returns, or none, [collectFootnotes] binds
    a lower-cased identifier to the last top-level footnote definition with
    that identifier, case apart, with its children, and to nothing when there
    is none; footnote definitions below the top level are not collected;
    the warnings and the bindings together count the top-level footnote
    definitions. *)
Theorem collectFootnotes_last_wins (root : Root) (onError : option ErrorCallback)
    (st : State) :
  quiet onError ->
  exists defs warnings,
    collectFootnotes root onError st = (Ok defs, addReports st (noted onError warnings))
    /\ (forall key, defs !! key = lastFootnote key root)
    /\ length warnings + size defs = countFootnotes root
    /\ warnings = duplicateFootnotesOf root ∅.
Proof.
  intros Hq. exists (footnotesOf root ∅), (duplicateFootnotesOf root ∅).
  split; [now apply collectFootnotes_quiet|]. split; [|split; [|reflexivity]].
  - intros key. rewrite footnotesOf_lookup, lookup_empty.
    now destruct (lastFootnote key root).
  - rewrite footnotesOf_size, map_size_empty. lia.
Qed.

(** Two footnotes [note] that differ by case and one inside a quote: the
    second is kept, the nested one is not collected. *)
Lemma collectFootnotes_last_wins_witness :
  exists defs warnings,
    collectFootnotes
      [ NFootnoteDefinition "Note" [NParagraph [NText "one"]];
        NBlockquote [NFootnoteDefinition "inner" []];
        NFootnoteDefinition "note" [NParagraph [NText "two"]] ]
      (Some Examples.listen) initialState
    = (Ok defs, addReports initialState (noted (Some Examples.listen) warnings))
    /\ defs !! "note"
       = Some {| fn_identifier := "note"; fn_children := [NParagraph [NText "two"]] |}
    /\ defs !! "inner" = None
    /\ warnings = [duplicateFootnote "note"].
Proof.
  destruct (collectFootnotes_last_wins
              [ NFootnoteDefinition "Note" [NParagraph [NText "one"]];
                NBlockquote [NFootnoteDefinition "inner" []];
                NFootnoteDefinition "note" [NParagraph [NText "two"]] ]
              (Some Examples.listen) initialState)
    as (defs & warnings & Hrun & Hlookup & _ & Hwarnings).
  - intros error. reflexivity.
  - exists defs, warnings. split; [exact Hrun|]. rewrite !Hlookup.
    split; [reflexivity|]. split; [reflexivity|]. exact Hwarnings.
Defined.

(** ** The leading heading (modules [collectors], [output-builder]) *)

(** The nodes [findLeadingH1] steps over. *)
Definition steppedOver (node : Node) : bool :=
  match node with
  | NYaml _ | NDefinition _ => true
  | _ => false
  end.

Lemma findLeadingH1From_found (nodes : list Node) (defs : gmap string DefinitionNode) :
  forall i text index,
    findLeadingH1From nodes defs i = Some (text, index) ->
    exists before children after,
      nodes = before ++ NHeading 1 children :: after
      /\ forallb steppedOver before = true
      /\ index = i + length before
      /\ text = Js.trim (plainTextFromPhrasing children defs)
      /\ text <> "".
Proof.
  induction nodes as [|node rest IH]; intros i text index H; [discriminate|].
  destruct node; cbn [findLeadingH1From] in H; try discriminate.
  - apply IH in H as (before & children & after & -> & Hb & -> & Ht & Hne).
    exists (NYaml value :: before), children, after.
    repeat split; try assumption; cbn [length]; lia.
  - apply IH in H as (before & children & after & -> & Hb & -> & Ht & Hne).
    exists (NDefinition def :: before), children, after.
    repeat split; try assumption; cbn [length]; lia.
  - destruct (Nat.eqb_spec depth 1) as [->|]; [|discriminate].
    destruct (Js.trim (plainTextFromPhrasing children defs)) as [|c t] eqn:Ht;
      [discriminate|].
    injection H as <- <-. exists [], children, rest.
    repeat split; try easy; cbn [length]; lia.
Qed.

Lemma findLeadingH1From_finds (before after children : list Node)
    (defs : gmap string DefinitionNode) :
  forallb steppedOver before = true ->
  forall i,
    findLeadingH1From (before ++ NHeading 1 children :: after) defs i
    = let text := Js.trim (plainTextFromPhrasing children defs) in
      if Js.truthy text then Some (text, i + length before) else None.
Proof.
  induction before as [|node before IH]; intros Hb i.
  - cbn [app findLeadingH1From length Nat.eqb]. now rewrite Nat.add_0_r.
  - cbn [forallb] in Hb. apply andb_prop in Hb as [Hnode Hb].
    destruct node; try discriminate Hnode;
      cbn [app findLeadingH1From length]; rewrite (IH Hb);
      now rewrite Nat.add_succ_comm.
Qed.

Lemma dropIndex_middle {A} (before after : list A) (x : A) :
  dropIndex (length before) (before ++ x :: after) = before ++ after.
Proof.
  induction before as [|y before IH]; [reflexivity|].
  cbn [length app dropIndex]. now rewrite IH.
Qed.

(** X9.  [findLeadingH1] never throws and reports nothing.  It finds a
    title exactly when the first node that is neither front matter nor a
    definition is a heading of depth 1 whose plain text is not blank: the
    title is that text trimmed and the index is that heading's; any other
    first node, a deeper heading or a blank one gives no title, and so does
    a tree of front matter and definitions only. *)
Theorem findLeadingH1_first_heading (root : Root) (defs : gmap string DefinitionNode)
    (onError : option ErrorCallback) (st : State) :
  exists found,
    findLeadingH1 root defs onError st = (Ok found, st)
    /\ (forall text index,
          found = Some (text, index) <->
          exists before children after,
            root = before ++ NHeading 1 children :: after
            /\ forallb steppedOver before = true
            /\ index = length before
            /\ text = Js.trim (plainTextFromPhrasing children defs)
            /\ text <> "").
Proof.
  exists (findLeadingH1From root defs 0). split; [reflexivity|].
  intros text index. split.
  - intros H. apply findLeadingH1From_found in H
      as (before & children & after & H1 & H2 & H3 & H4 & H5).
    exists before, children, after. now repeat split.
  - intros (before & children & after & -> & Hb & -> & -> & Hne).
    rewrite (findLeadingH1From_finds _ _ _ _ Hb). cbn zeta.
    destruct (Js.trim (plainTextFromPhrasing children defs)); [contradiction|].
    reflexivity.
Qed.

(** X10.  When a leading heading was found and the merged title is not
    blank, the body is rendered from the tree without that heading,
    whichever source the title came from, the other nodes in their order;
    when the merged title is blank the heading stays in the body, and
    without a leading heading the whole tree is the body. *)
Theorem leading_heading_leaves_body (before after children : list Node)
    (defs : gmap string DefinitionNode) (metadata : DocumentMetadata) :
  let tree := before ++ NHeading 1 children :: after in
  forallb steppedOver before = true ->
  Js.trim (plainTextFromPhrasing children defs) <> "" ->
  exists text index,
    findLeadingH1From tree defs 0 = Some (text, index)
    /\ nodesForBody tree metadata (Some index)
       = (if String.eqb (Js.trim (title metadata)) "" then tree else before ++ after)
    /\ nodesForBody tree metadata None = tree.
Proof.
  intros tree Hb Hne.
  exists (Js.trim (plainTextFromPhrasing children defs)), (length before).
  split; [|split; [|reflexivity]].
  - unfold tree. rewrite (findLeadingH1From_finds _ _ _ _ Hb). cbn zeta.
    destruct (Js.trim (plainTextFromPhrasing children defs)); [contradiction|reflexivity].
  - unfold nodesForBody, normalizeText.
    change (default "" (Some (title metadata))) with (title metadata).
    destruct (String.eqb (Js.trim (title metadata)) ""); cbn [negb]; [reflexivity|].
    apply dropIndex_middle.
Qed.

(** A title given by the options: the leading heading still leaves the body. *)
Lemma leading_heading_leaves_body_witness :
  let heading := NHeading 1 [NText "Title"] in
  let tree := [NYaml "lang: en"; heading; NParagraph [NText "Body"]] in
  let metadata :=
    {| title := "From options"; authors := []; description := None; keywords := None;
       date := None; abstract := None; lang := None; region := None |} in
  exists text index,
    findLeadingH1From tree ∅ 0 = Some (text, index)
    /\ nodesForBody tree metadata (Some index)
       = [NYaml "lang: en"; NParagraph [NText "Body"]]
    /\ nodesForBody tree metadata None = tree.
Proof.
  intros heading tree metadata.
  apply (leading_heading_leaves_body [NYaml "lang: en"] [NParagraph [NText "Body"]]
           [NText "Title"] ∅ metadata).
  - reflexivity.
  - discriminate.
Defined.

(** ** Front matter (module [frontmatter]) *)

(** The warnings of a decoded front matter: only the [author] field has one. *)
Definition authorWarnings (fields : list (string * YamlValue)) : list ConversionError :=
  match field "author" fields with
  | Some (YString _) | Some (YArray _) | None => []
  | Some v => [badAuthor v]
  end.

(** The fields the front matter is read from. *)
Definition frontmatterKeys : list string :=
  [ "title"; "author"; "authors"; "description"; "keywords"; "date"; "abstract";
    "lang"; "language"; "region" ].

Lemma addReports_noted_nil (onError : option ErrorCallback) (st : State) :
  addReports st (noted onError []) = st.
Proof. destruct onError; apply addReports_nil. Qed.

Section FrontmatterProperties.

Variable parseYaml : string -> Outcome YamlValue.

(** X11.  With a callback that returns, or none, [parseFrontmatterYaml]
    never throws and hands over at most one warning.  When the decoder
    throws, the front matter is empty and the warning carries the decoder's
    exception; a scalar or null document gives the empty front matter and
    the not-an-object warning; a list or a timestamp passes for an object
    and gives the empty front matter with no warning at all; and of a
    mapping only an [author] that is neither a string nor a list is warned
    about: a value of the wrong type in any other field is dropped
    silently, the other fields being kept. *)
Theorem parseFrontmatterYaml_recovers (yaml : string) (onError : option ErrorCallback)
    (st : State) :
  quiet onError ->
  exists frontmatter warnings,
    parseFrontmatterYaml parseYaml yaml onError st
    = (Ok frontmatter, addReports st (noted onError warnings))
    /\ length warnings <= 1
    /\ Forall (fun error => severity error = WARNING) warnings
    /\ (forall error,
          parseYaml yaml = Throw error ->
          frontmatter = emptyFrontmatter /\ warnings = [yamlFailed error])
    /\ (forall value,
          parseYaml yaml = Ok value -> (forall fields, value <> YObject fields) ->
          frontmatter = emptyFrontmatter
          /\ warnings = match value with
                        | YArray _ | YDate _ => []
                        | _ => [emptyYaml]
                        end)
    /\ (forall fields,
          parseYaml yaml = Ok (YObject fields) ->
          warnings = authorWarnings fields
          /\ fm_title frontmatter = stringField "title" fields
          /\ fm_author frontmatter
             = match field "author" fields with
               | Some (YString name) => Some (OneAuthor name)
               | Some (YArray items) => Some (ManyAuthors (onlyStrings items))
               | _ => None
               end
          /\ fm_authors frontmatter = arrayField "authors" fields
          /\ fm_description frontmatter = stringField "description" fields
          /\ fm_keywords frontmatter = arrayField "keywords" fields
          /\ fm_abstract frontmatter = stringField "abstract" fields
          /\ fm_lang frontmatter = stringField "lang" fields
          /\ fm_language frontmatter = stringField "language" fields
          /\ fm_region frontmatter = stringField "region" fields).
Proof.
  intros Hq. unfold parseFrontmatterYaml. monad.
  destruct (parseYaml yaml) as [value|error] eqn:Hparse.
  - destruct value as [|b|z|s|iso|items|fields];
      cbn [falsy typeOf String.eqb Ascii.eqb Bool.eqb orb negb].
    + rewrite (report_returns _ _ _ (Hq _)).
      exists emptyFrontmatter, [emptyYaml]. split; [reflexivity|].
      split; [cbn; lia|]. split; [now repeat constructor|].
      split; [discriminate|]. split; [now intros value [= <-] _|discriminate].
    + replace (negb b || true) with true by now destruct b.
      rewrite (report_returns _ _ _ (Hq _)).
      exists emptyFrontmatter, [emptyYaml]. split; [reflexivity|].
      split; [cbn; lia|]. split; [now repeat constructor|].
      split; [discriminate|]. split; [now intros value [= <-] _|discriminate].
    + replace (z || true) with true by now destruct z.
      rewrite (report_returns _ _ _ (Hq _)).
      exists emptyFrontmatter, [emptyYaml]. split; [reflexivity|].
      split; [cbn; lia|]. split; [now repeat constructor|].
      split; [discriminate|]. split; [now intros value [= <-] _|discriminate].
    + replace (negb (Js.truthy s) || true) with true by now destruct (Js.truthy s).
      rewrite (report_returns _ _ _ (Hq _)).
      exists emptyFrontmatter, [emptyYaml]. split; [reflexivity|].
      split; [cbn; lia|]. split; [now repeat constructor|].
      split; [discriminate|]. split; [now intros value [= <-] _|discriminate].
    + exists emptyFrontmatter, []. split; [now rewrite addReports_noted_nil|].
      split; [cbn; lia|]. split; [constructor|].
      split; [discriminate|]. split; [now intros value [= <-] _|discriminate].
    + exists emptyFrontmatter, []. split; [now rewrite addReports_noted_nil|].
      split; [cbn; lia|]. split; [constructor|].
      split; [discriminate|]. split; [now intros value [= <-] _|discriminate].
    + unfold authorWarnings.
      destruct (field "author" fields) as [[|b|z|s|iso|items|fs]|] eqn:Hauthor;
        try rewrite (report_returns _ _ _ (Hq _));
        eexists; eexists;
        (split; [try reflexivity; now rewrite addReports_noted_nil|]);
        (split; [cbn; lia|]);
        (split; [now repeat constructor|]);
        (split; [discriminate|]);
        (split; [intros value [= <-] Hno; now elim (Hno fields)|]);
        intros fields' [= <-]; rewrite ?Hauthor; now repeat split.
  - rewrite (report_returns _ _ _ (Hq _)).
    exists emptyFrontmatter, [yamlFailed error]. split; [reflexivity|].
    split; [cbn; lia|]. split; [now repeat constructor|].
    split; [now intros error' [= <-]|]. split; discriminate.
Qed.

Lemma field_other (key k : string) (v : YamlValue) (before after : list (string * YamlValue)) :
  k <> key -> field key (before ++ (k, v) :: after) = field key (before ++ after).
Proof.
  intros Hne. induction before as [|[k' v'] before IH]; cbn [app field].
  - destruct (String.eqb_spec k key); [contradiction|reflexivity].
  - now rewrite IH.
Qed.

(** X12.  A field the front matter is not read from is ignored, wherever it
    stands in the mapping and whatever its value: two documents that differ
    by such a field give the same front matter and the same reports. *)
Theorem parseFrontmatterYaml_ignores_unknown (yaml yaml' : string) (key : string)
    (value : YamlValue) (before after : list (string * YamlValue))
    (onError : option ErrorCallback) (st : State) :
  ~ In key frontmatterKeys ->
  parseYaml yaml = Ok (YObject (before ++ after)) ->
  parseYaml yaml' = Ok (YObject (before ++ (key, value) :: after)) ->
  parseFrontmatterYaml parseYaml yaml' onError st
  = parseFrontmatterYaml parseYaml yaml onError st.
Proof.
  intros Hkey Hyaml Hyaml'. unfold parseFrontmatterYaml, stringField, arrayField.
  unfold tryCatch, bind at 1 3, liftOutcome. rewrite Hyaml, Hyaml'.
  cbn [falsy typeOf String.eqb Ascii.eqb Bool.eqb orb negb].
  unfold frontmatterKeys in Hkey. cbn [In] in Hkey.
  rewrite !(field_other _ key value) by (intros ->; tauto).
  reflexivity.
Qed.

End FrontmatterProperties.

(** A numeric title and a boolean author: the title is dropped in silence,
    the author with a warning, and the language is kept. *)
Lemma parseFrontmatterYaml_recovers_witness :
  exists frontmatter warnings,
    parseFrontmatterYaml
      (fun _ => Ok (YObject [("title", YNumber false); ("author", YBool true);
                             ("lang", YString "en")]))
      "title: 5" (Some Examples.listen) initialState
    = (Ok frontmatter, addReports initialState (noted (Some Examples.listen) warnings))
    /\ warnings = [badAuthor (YBool true)]
    /\ fm_title frontmatter = None
    /\ fm_lang frontmatter = Some "en".
Proof.
  destruct (parseFrontmatterYaml_recovers
              (fun _ => Ok (YObject [("title", YNumber false); ("author", YBool true);
                                     ("lang", YString "en")]))
              "title: 5" (Some Examples.listen) initialState)
    as (frontmatter & warnings & Hrun & _ & _ & _ & _ & Hfields).
  - intros error. reflexivity.
  - destruct (Hfields _ eq_refl) as (Hw & Ht & _ & _ & _ & _ & _ & Hl & _).
    exists frontmatter, warnings. now repeat split.
Defined.

(** A [draft] field between [title] and [lang]. *)
Lemma parseFrontmatterYaml_ignores_unknown_witness :
  let decode (yaml : string) :=
    if String.eqb yaml "a"
    then Ok (YObject [("title", YString "T"); ("lang", YString "en")])
    else Ok (YObject [("title", YString "T"); ("draft", YBool true); ("lang", YString "en")]) in
  parseFrontmatterYaml decode "b" None initialState
  = parseFrontmatterYaml decode "a" None initialState.
Proof.
  intros decode.
  apply (parseFrontmatterYaml_ignores_unknown decode "a" "b" "draft" (YBool true)
           [("title", YString "T")] [("lang", YString "en")] None initialState).
  - cbn. intros H. repeat (destruct H as [H|H]; [discriminate H|]). exact H.
  - reflexivity.
  - reflexivity.
Defined.

(** ** Language codes (module [utils]) *)

Lemma lowerChar_idem (c : ascii) : Js.lowerChar (Js.lowerChar c) = Js.lowerChar c.
Proof. destruct c as [[] [] [] [] [] [] [] []]; reflexivity. Qed.

Lemma isWhiteSpace_lower (c : ascii) : Js.isWhiteSpace (Js.lowerChar c) = Js.isWhiteSpace c.
Proof. destruct c as [[] [] [] [] [] [] [] []]; reflexivity. Qed.

Lemma isSeparator_lower (c : ascii) :
  Ascii.eqb (Js.lowerChar c) "-" || Ascii.eqb (Js.lowerChar c) "_"
  = Ascii.eqb c "-" || Ascii.eqb c "_".
Proof. destruct c as [[] [] [] [] [] [] [] []]; reflexivity. Qed.

Lemma toLowerCase_idem (s : string) : Js.toLowerCase (Js.toLowerCase s) = Js.toLowerCase s.
Proof.
  induction s as [|c s IH]; [reflexivity|]. simpl. now rewrite lowerChar_idem, IH.
Qed.

Lemma truthy_lower (s : string) : Js.truthy (Js.toLowerCase s) = Js.truthy s.
Proof. now destruct s. Qed.

Lemma trimStart_lower (s : string) :
  Js.trimStart (Js.toLowerCase s) = Js.toLowerCase (Js.trimStart s).
Proof.
  induction s as [|c s IH]; [reflexivity|]. simpl.
  rewrite isWhiteSpace_lower. now destruct (Js.isWhiteSpace c).
Qed.

Lemma trimEnd_lower (s : string) :
  Js.trimEnd (Js.toLowerCase s) = Js.toLowerCase (Js.trimEnd s).
Proof.
  induction s as [|c s IH]; [reflexivity|]. simpl.
  rewrite IH, isWhiteSpace_lower.
  destruct (Js.trimEnd s); [now destruct (Js.isWhiteSpace c)|reflexivity].
Qed.

Lemma trim_lower (s : string) : Js.trim (Js.toLowerCase s) = Js.toLowerCase (Js.trim s).
Proof. unfold Js.trim. now rewrite trimStart_lower, trimEnd_lower. Qed.

Lemma beforeDashOrUnderscore_lower (s : string) :
  beforeDashOrUnderscore (Js.toLowerCase s) = Js.toLowerCase (beforeDashOrUnderscore s).
Proof.
  induction s as [|c s IH]; [reflexivity|]. simpl.
  rewrite isSeparator_lower, IH. now destruct (_ || _).
Qed.

Lemma langByName_lower (v : string) (entries : list LangEntry) :
  langByName (Js.toLowerCase v) entries = langByName v entries.
Proof.
  induction entries as [|entry rest IH]; [reflexivity|].
  cbn [langByName]. now rewrite toLowerCase_idem, IH.
Qed.

Section LanguageProperties.

Variable langsCodes1 : list string.
Variable langsAll : list LangEntry.
Variable langsWhere : string -> string -> option LangEntry.

Lemma coerceLanguage_lower (v : string) :
  coerceLanguage langsCodes1 langsAll langsWhere (Some (Js.toLowerCase v))
  = coerceLanguage langsCodes1 langsAll langsWhere (Some v).
Proof.
  unfold coerceLanguage.
  rewrite truthy_lower, !trim_lower, truthy_lower, beforeDashOrUnderscore_lower.
  now rewrite !toLowerCase_idem, langByName_lower.
Qed.

(** X13.  The language lookup does not see the case of its argument: two
    names that differ only by case get the same code, or both none. *)
Theorem coerceLanguage_ignores_case (v w : string) :
  Js.toLowerCase v = Js.toLowerCase w ->
  coerceLanguage langsCodes1 langsAll langsWhere (Some v)
  = coerceLanguage langsCodes1 langsAll langsWhere (Some w).
Proof.
  intros H. rewrite <- (coerceLanguage_lower v), <- (coerceLanguage_lower w).
  now rewrite H.
Qed.

Lemma langByName_entry (v code : string) (entries : list LangEntry) :
  langByName v entries = Some code ->
  code <> ""
  /\ exists entry,
       In entry entries /\ lang_1 entry = Some code
       /\ (Js.toLowerCase <$> lang_name entry = Some (Js.toLowerCase v)
           \/ Js.toLowerCase <$> lang_local entry = Some (Js.toLowerCase v)).
Proof.
  induction entries as [|entry rest IH]; [discriminate|]. cbn [langByName].
  assert (Hmatch : forall f : option string,
            match f with
            | Some n => Js.truthy n && String.eqb (Js.toLowerCase n) (Js.toLowerCase v)
                        && Js.truthyOpt (lang_1 entry)
            | None => false
            end = true ->
            Js.toLowerCase <$> f = Some (Js.toLowerCase v)
            /\ Js.truthyOpt (lang_1 entry) = true).
  { intros [n|]; [|discriminate]. intros H.
    apply andb_prop in H as [H H1]. apply andb_prop in H as [_ H].
    apply String.eqb_eq in H. cbn. now rewrite H. }
  assert (Hcode : Js.truthyOpt (lang_1 entry) = true -> lang_1 entry = Some code ->
                  code <> "").
  { intros H1 H2. rewrite H2 in H1. now destruct code. }
  destruct (match lang_name entry with Some _ => _ | None => _ end) eqn:Hname.
  - intros H. apply Hmatch in Hname as [Hn H1]. split; [now apply Hcode|].
    exists entry. split; [now left|]. split; [exact H|now left].
  - destruct (match lang_local entry with Some _ => _ | None => _ end) eqn:Hlocal.
    + intros H. apply Hmatch in Hlocal as [Hn H1]. split; [now apply Hcode|].
      exists entry. split; [now left|]. split; [exact H|now right].
    + intros H. apply IH in H as (Hne & e & Hin & He). split; [exact Hne|].
      exists e. split; [now right|exact He].
Qed.

Lemma langWhere1_entry (criterion v code : string) :
  langWhere1 langsWhere criterion v = Some code ->
  code <> "" /\ exists entry, langsWhere criterion v = Some entry /\ lang_1 entry = Some code.
Proof.
  unfold langWhere1. destruct (langsWhere criterion v) as [entry|]; [|discriminate].
  destruct (Js.truthyOpt (lang_1 entry)) eqn:H1; [|discriminate].
  intros H. split; [rewrite H in H1; now destruct code|]. now exists entry.
Qed.

(** X14.  [coerceLanguage] makes up no code.  An absent or blank argument
    gives none; a code it returns is either the part of the trimmed
    argument before the first dash or underscore, in lower case, found in
    the table of two-letter codes, or the non-empty two-letter code of an
    entry of the language table: one whose name or local name is the
    argument, case apart, or one the table gives for the argument in lower
    case as a code of another kind. *)
Theorem coerceLanguage_known (value : option string) :
  (value = None \/ (exists v, value = Some v /\ Js.trim v = "") ->
   coerceLanguage langsCodes1 langsAll langsWhere value = None)
  /\ forall code,
       coerceLanguage langsCodes1 langsAll langsWhere value = Some code ->
       exists v,
         value = Some v /\ Js.trim v <> ""
         /\ ((code = Js.toLowerCase (beforeDashOrUnderscore (Js.trim v))
              /\ In code langsCodes1)
             \/ (code <> ""
                 /\ exists entry,
                      lang_1 entry = Some code
                      /\ ((In entry langsAll
                           /\ (Js.toLowerCase <$> lang_name entry
                                 = Some (Js.toLowerCase (Js.trim v))
                               \/ Js.toLowerCase <$> lang_local entry
                                    = Some (Js.toLowerCase (Js.trim v))))
                          \/ exists criterion,
                               In criterion ["2"; "2B"; "3"]
                               /\ langsWhere criterion (Js.toLowerCase (Js.trim v))
                                  = Some entry))).
Proof.
  split.
  - intros [->|(v & -> & Hv)]; [reflexivity|]. unfold coerceLanguage.
    rewrite Hv. now destruct (Js.truthy v).
  - intros code. unfold coerceLanguage. destruct value as [v|]; [|discriminate].
    destruct (Js.truthy v); [|discriminate]. cbn [negb].
    destruct (Js.trim v) as [|c t] eqn:Hv; [discriminate|]. cbn [Js.truthy negb].
    intros H. exists v. split; [reflexivity|]. rewrite Hv. split; [discriminate|].
    destruct (existsb _ langsCodes1) eqn:Hcodes.
    { left. injection H as <-. split; [reflexivity|].
      apply existsb_exists in Hcodes as (x & Hin & Hx).
      apply String.eqb_eq in Hx. subst x. exact Hin. }
    right.
    destruct (langByName (String c t) langsAll) as [code'|] eqn:Hname.
    { injection H as <-. apply langByName_entry in Hname as (Hne & entry & Hin & H1 & Hn).
      split; [exact Hne|]. exists entry. split; [exact H1|]. left. now split. }
    destruct (langWhere1 langsWhere "2" _) as [code'|] eqn:H2.
    { injection H as <-. apply langWhere1_entry in H2 as (Hne & entry & Hw & H1).
      split; [exact Hne|]. exists entry. split; [exact H1|]. right.
      exists "2". split; [now left|exact Hw]. }
    destruct (langWhere1 langsWhere "2B" _) as [code'|] eqn:H2B.
    { injection H as <-. apply langWhere1_entry in H2B as (Hne & entry & Hw & H1).
      split; [exact Hne|]. exists entry. split; [exact H1|]. right.
      exists "2B". split; [right; now left|exact Hw]. }
    apply langWhere1_entry in H as (Hne & entry & Hw & H1).
    split; [exact Hne|]. exists entry. split; [exact H1|]. right.
    exists "3". split; [right; right; now left|exact Hw].
Qed.

End LanguageProperties.

Module LanguageExamples.

Definition english : LangEntry :=
  {| lang_name := Some "English"; lang_local := Some "English"; lang_1 := Some "en";
     lang_2 := Some "eng"; lang_2B := Some "eng"; lang_3 := Some "eng" |}.

Definition codes : list string := ["en"].
Definition entries : list LangEntry := [english].
Definition where_ (criterion value : string) : option LangEntry :=
  if String.eqb value "eng" then Some english else None.

End LanguageExamples.

(** A language name in upper and in lower case. *)
Lemma coerceLanguage_ignores_case_witness :
  coerceLanguage LanguageExamples.codes LanguageExamples.entries LanguageExamples.where_
    (Some "ENGLISH")
  = coerceLanguage LanguageExamples.codes LanguageExamples.entries LanguageExamples.where_
      (Some "english").
Proof.
  apply (coerceLanguage_ignores_case LanguageExamples.codes LanguageExamples.entries
           LanguageExamples.where_ "ENGLISH" "english").
  reflexivity.
Defined.

(** A blank argument, and a locale with an underscore and white space around. *)
Lemma coerceLanguage_known_witness :
  coerceLanguage LanguageExamples.codes LanguageExamples.entries LanguageExamples.where_
    (Some "   ") = None
  /\ exists v, Some " EN_us " = Some v /\ Js.trim v <> "".
Proof.
  destruct (coerceLanguage_known LanguageExamples.codes LanguageExamples.entries
              LanguageExamples.where_ (Some "   ")) as [Hblank _].
  destruct (coerceLanguage_known LanguageExamples.codes LanguageExamples.entries
              LanguageExamples.where_ (Some " EN_us ")) as [_ Hcode].
  split.
  - apply Hblank. right. exists "   ". now split.
  - destruct (Hcode "en" eq_refl) as (v & Hv & Hne & _). now exists v.
Defined.

(** ** Computations that return *)

(** The computation returns normally from every state. *)
Definition returns {A} (m : M A) : Prop :=
  forall st, exists a st', m st = (Ok a, st').

Lemma returns_ret {A} (a : A) : returns (ret a).
Proof. intros st. now exists a, st. Qed.

Lemma returns_bind {A B} (m : M A) (k : A -> M B) :
  returns m -> (forall a, returns (k a)) -> returns (bind m k).
Proof.
  intros Hm Hk st. destruct (Hm st) as (a & s1 & H). unfold bind. rewrite H. apply Hk.
Qed.

Lemma returns_try {A} (m : M A) (h : Exn -> M A) : returns m -> returns (tryCatch m h).
Proof.
  intros Hm st. destruct (Hm st) as (a & s1 & H). unfold tryCatch. rewrite H.
  now exists a, s1.
Qed.

Lemma returns_catch {A} (m : M A) (h : Exn -> M A) :
  (forall e, returns (h e)) -> returns (tryCatch m h).
Proof.
  intros Hh st. unfold tryCatch. destruct (m st) as [[a|e] s1]; [now exists a, s1|].
  apply Hh.
Qed.

Lemma returns_report (onError : option ErrorCallback) (error : ConversionError) :
  returnsNormally onError error -> returns (report onError error).
Proof. intros H st. rewrite (report_returns _ _ _ H). eauto. Qed.

Lemma returns_mapM {A B} (f : A -> M B) (xs : list A) :
  (forall x, returns (f x)) -> returns (mapM f xs).
Proof.
  intros Hf. induction xs as [|x xs IH]; cbn [mapM]; [apply returns_ret|].
  apply returns_bind; [apply Hf|]. intros y.
  apply returns_bind; [exact IH|]. intros ys. apply returns_ret.
Qed.

Lemma returns_warn {A} (onError : option ErrorCallback) (error : ConversionError) (a : A) :
  quiet onError -> returns (report onError error ;;; ret a).
Proof.
  intros Hq. apply returns_bind; [apply returns_report, Hq|]. intros _. apply returns_ret.
Qed.

Section PipelineReturns.

Variable remark : string -> Outcome Root.
Variable tex2typst : string -> Outcome string.
Variable parseYaml : string -> Outcome YamlValue.
Variable langsCodes1 : list string.
Variable langsAll : list LangEntry.
Variable langsWhere : string -> string -> option LangEntry.
Variable getCodes : list string.
Variable getCode : string -> option string.
Variable toUpperCase : string -> string.

Lemma renderBlock_returns (fuel : nat) (node : Node) (i : nat) (ctx : RenderContext) :
  quiet (onError ctx) -> returns (renderBlock tex2typst (S fuel) node i ctx).
Proof.
  intros Hq. rewrite renderBlock_S. apply returns_catch. intros e. now apply returns_warn.
Qed.

Lemma renderBody_returns (fuel : nat) (nodes : list Node) (ctx : RenderContext) :
  quiet (onError ctx) -> returns (renderBody tex2typst (S fuel) nodes ctx).
Proof.
  intros Hq. unfold renderBody. apply returns_bind.
  - apply returns_mapM. intros node. now apply renderBlock_returns.
  - intros rendered. apply returns_ret.
Qed.

Lemma headerParts_returns (metadata : DocumentMetadata) (ctx : RenderContext) :
  quiet (onError ctx) -> returns (headerParts metadata ctx).
Proof.
  intros Hq. unfold headerParts. apply returns_bind; [|intros; apply returns_ret].
  destruct (hasMetadata metadata); [|apply returns_ret].
  unfold documentBlock. apply returns_catch. intros e. now apply returns_warn.
Qed.

Lemma buildOutput_returns (fuel : nat) (tree : Root) (metadata : DocumentMetadata)
    (leadingTitleIndex : option nat) (ctx : RenderContext) :
  quiet (onError ctx) ->
  returns (buildOutput tex2typst (S fuel) tree metadata leadingTitleIndex ctx).
Proof.
  intros Hq. unfold buildOutput. apply returns_try. apply returns_bind.
  - unfold outputParts. apply returns_bind; [now apply renderBody_returns|]. intros body.
    apply returns_bind; [now apply headerParts_returns|]. intros parts.
    apply returns_bind; [|intros; apply returns_ret].
    intros st. unfold buildWarningsSection, readExternalImages, bind.
    destruct (externalImages st); cbn; unfold ret; eauto.
  - intros [parts body]. apply returns_ret.
Qed.

Lemma parseFrontmatter_returns (root : Root) (onError : option ErrorCallback) :
  quiet onError -> returns (parseFrontmatter parseYaml root onError).
Proof.
  intros Hq. unfold parseFrontmatter.
  destruct (findYaml root) as [value|]; [|apply returns_ret].
  destruct (Js.truthy value); [|apply returns_ret].
  unfold parseFrontmatterYaml. apply returns_catch. intros e. now apply returns_warn.
Qed.

(** X15.  The conversion fails only when the parser does.  With a callback
    that returns, or none, and a call stack that is not exhausted at the
    start, [markdown2typst] returns a document for whatever tree the parser
    gives: no failure of a later stage, from a cyclic footnote to a converter
    that throws, ends the conversion. *)
Theorem markdown2typst_returns (fuel : nat) (markdown : string)
    (options : Markdown2TypstOptions) (tree : Root) (st : State) :
  quiet (opt_onError options) ->
  remark markdown = Ok tree ->
  exists output st',
    markdown2typst remark tex2typst parseYaml langsCodes1 langsAll langsWhere getCodes
      getCode toUpperCase (S fuel) markdown options st
    = (Ok output, st').
Proof.
  intros Hq Htree. revert st. change (returns
    (markdown2typst remark tex2typst parseYaml langsCodes1 langsAll langsWhere getCodes
       getCode toUpperCase (S fuel) markdown options)).
  unfold markdown2typst. apply returns_try.
  apply returns_bind.
  { unfold parseMarkdown. apply returns_try. intros st. unfold liftOutcome.
    rewrite Htree. eauto. }
  intros tree'. apply returns_bind.
  { intros st. rewrite (collectDefinitions_quiet _ _ _ Hq). eauto. }
  intros defs. apply returns_bind.
  { intros st. rewrite (collectFootnotes_quiet _ _ _ Hq). eauto. }
  intros footnotes. apply returns_bind; [now apply parseFrontmatter_returns|].
  intros frontmatter. apply returns_bind.
  { destruct (opt_useH1AsTitle options); [|apply returns_ret].
    unfold findLeadingH1. apply returns_try, returns_ret. }
  intros leadingH1. apply returns_bind.
  { intros st. unfold freshWarnings. eauto. }
  intros _. now apply buildOutput_returns.
Qed.

(** X16.  When the parser throws, the callback is handed the failure
    twice, first by the parser stage and then by the conversion, both as
    errors carrying the exception, and the parser's exception leaves
    [markdown2typst]; nothing else is reported. *)
Theorem markdown2typst_parse_failure (fuel : nat) (markdown : string)
    (options : Markdown2TypstOptions) (error : Exn) (st : State) :
  quiet (opt_onError options) ->
  remark markdown = Throw error ->
  markdown2typst remark tex2typst parseYaml langsCodes1 langsAll langsWhere getCodes
    getCode toUpperCase fuel markdown options st
  = (Throw error,
     addReports st (noted (opt_onError options) [parseFailed error; conversionFailed error]))
  /\ severity (parseFailed error) = ERROR
  /\ severity (conversionFailed error) = ERROR
  /\ originalError (parseFailed error) = Some error
  /\ originalError (conversionFailed error) = Some error.
Proof.
  intros Hq Hparse. split; [|now repeat split].
  unfold markdown2typst, parseMarkdown. monad. rewrite Hparse.
  rewrite (report_returns _ _ _ (Hq _)), (report_returns _ _ _ (Hq _)).
  rewrite addReports_app, <- noted_app. reflexivity.
Qed.

End PipelineReturns.

(** A footnote that refers to itself and display math the converter rejects:
    the conversion returns. *)
Lemma markdown2typst_returns_witness :
  let cyclic : Root :=
    [ NParagraph [NFootnoteReference "a"];
      NFootnoteDefinition "a" [NParagraph [NFootnoteReference "a"]];
      NMath "\frac" ] in
  exists output st',
    markdown2typst (fun _ => Ok cyclic) (fun _ => Throw (JsError "bad math"))
      Examples.noYaml [] [] (fun _ _ => None) [] (fun _ => None) Examples.upper
      8 "" Examples.plainOptions initialState
    = (Ok output, st').
Proof.
  intros cyclic.
  apply (markdown2typst_returns (fun _ => Ok cyclic) (fun _ => Throw (JsError "bad math"))
           Examples.noYaml [] [] (fun _ _ => None) [] (fun _ => None) Examples.upper
           7 "" Examples.plainOptions cyclic initialState).
  - intros error. exact I.
  - reflexivity.
Defined.

(** A parser that throws, under a callback that listens. *)
Lemma markdown2typst_parse_failure_witness :
  markdown2typst (fun _ => Throw (JsError "no parse")) Examples.noMath
    Examples.noYaml [] [] (fun _ _ => None) [] (fun _ => None) Examples.upper
    8 "" (FaultExamples.options (Some Examples.listen)) initialState
  = (Throw (JsError "no parse"),
     addReports initialState
       [parseFailed (JsError "no parse"); conversionFailed (JsError "no parse")]).
Proof.
  apply (markdown2typst_parse_failure (fun _ => Throw (JsError "no parse")) Examples.noMath
           Examples.noYaml [] [] (fun _ _ => None) [] (fun _ => None) Examples.upper
           8 "" (FaultExamples.options (Some Examples.listen)) (JsError "no parse")
           initialState).
  - intros error. reflexivity.
  - reflexivity.
Defined.

(** ** Blocks (module [block-renderer]) *)

(** The block kinds that are indented as a whole once they are rendered:
    all but lists, which indent item by item, and tables. *)
Definition indentedWhole (node : Node) : bool :=
  match node with
  | NList _ _ | NTable _ _ => false
  | _ => true
  end.

Lemma renderCodeBlock_at_indent (lang : option string) (value : string) (indentLevel : nat) :
  renderCodeBlock lang value indentLevel
  = indentLines (renderCodeBlock lang value 0) indentLevel.
Proof.
  unfold renderCodeBlock. rewrite indentLines_join by discriminate. reflexivity.
Qed.

Section BlockProperties.

Variable tex2typst : string -> Outcome string.

Lemma renderBlockquote_at_indent (fuel : nat) (children : list Node) (i : nat)
    (ctx : RenderContext) (st : State) :
  renderBlockquote tex2typst fuel children i ctx st
  = (s <- renderBlockquote tex2typst fuel children 0 ctx ;; ret (indentLines s i)) st.
Proof.
  destruct fuel as [|fuel]; [reflexivity|]. cbn [renderBlockquote].
  unfold bind at 1 2 3. destruct (mapM _ children st) as [[rendered|e] s1]; [|reflexivity].
  destruct (negb (Js.truthy (Js.trim (Js.join (nl +:+ nl) (filterNonEmpty rendered))))).
  - unfold ret. do 2 f_equal.
    change (indentLines "#quote[" 0 +:+ nl +:+ indentLines "]" 0)
      with (Js.join nl ["#quote["; "]"]).
    rewrite (indentLines_join ["#quote["; "]"] i) by discriminate. reflexivity.
  - unfold ret. do 2 f_equal.
    set (body := Js.join (nl +:+ nl) (filterNonEmpty rendered)).
    change (indentLines "#quote[" 0) with "#quote[".
    change (indentLines "]" 0) with "]".
    rewrite (indentLines_join ["#quote["; indentLines body (0 + 1); "]"] i) by discriminate.
    cbn [map]. rewrite indentLines_add. now rewrite (Nat.add_comm i 1).
Qed.

Lemma renderBlockDispatch_at_indent (fuel : nat) (node : Node) (i : nat)
    (ctx : RenderContext) (st : State) :
  indentedWhole node = true ->
  renderBlockDispatch tex2typst fuel node i ctx st
  = (rendered <- renderBlockDispatch tex2typst fuel node 0 ctx ;;
     ret ((fun text => indentLines text i) <$> rendered)) st.
Proof.
  intros Hnode.
  destruct node; try discriminate Hnode; unfold renderBlockDispatch;
    try reflexivity;
    try (unfold bind, ret; destruct (report _ _ st) as [[[]|e] s1]; reflexivity).
  - (* heading *)
    destruct fuel as [|fuel]; [reflexivity|]. cbn [renderHeading].
    unfold bind, ret. now destruct (renderInlines _ _ _ _ st) as [[s|e] s1].
  - (* paragraph *)
    unfold bind, ret. now destruct (renderParagraph _ _ _ _ st) as [[s|e] s1].
  - (* code *)
    unfold bind, ret. cbn [fmap option_fmap option_map].
    now rewrite renderCodeBlock_at_indent.
  - (* blockquote *)
    unfold bind at 1 2. rewrite renderBlockquote_at_indent. unfold bind, ret.
    now destruct (renderBlockquote _ _ _ _ _ st) as [[s|e] s1].
  - (* math *)
    unfold renderMathBlock. monad.
    destruct (tex2typst (Js.trim value)) as [typst|e]; [reflexivity|].
    now destruct (report _ _ st) as [[[]|e'] s1].
Qed.

(** X17.  A block that is neither a list nor a table renders at an indent
    level as it does at level 0, with the same reports, and is then indented
    as a whole: headings, paragraphs, code (fences and code lines alike),
    quotes, rules and display math get the margin on every line. *)
Theorem renderBlock_indents_whole (fuel : nat) (node : Node) (i : nat)
    (ctx : RenderContext) (st : State) :
  indentedWhole node = true ->
  renderBlock tex2typst fuel node i ctx st
  = (rendered <- renderBlock tex2typst fuel node 0 ctx ;;
     ret ((fun text => indentLines text i) <$> rendered)) st.
Proof.
  intros Hnode. destruct fuel as [|fuel]; [reflexivity|]. rewrite !renderBlock_S.
  pose proof (renderBlockDispatch_at_indent fuel node i ctx st Hnode) as Hdispatch.
  unfold tryCatch, bind, ret in *. rewrite Hdispatch.
  destruct (renderBlockDispatch tex2typst fuel node 0 ctx st) as [[rendered|e] s1];
    [reflexivity|].
  now destruct (report _ _ s1) as [[[]|e'] s2].
Qed.

(** X18.  The number of [=] signs of a heading is its depth brought into
    the range 1 to 6: a heading renders as the heading of that level does,
    and once its children are rendered the block is that many signs, a space
    and the children, indented. *)
Theorem renderHeading_level (fuel depth : nat) (children : list Node) (i : nat)
    (ctx : RenderContext) (st : State) :
  let level := Nat.min (Nat.max depth 1) 6 in
  1 <= level <= 6
  /\ (1 <= depth <= 6 -> level = depth)
  /\ renderBlock tex2typst fuel (NHeading depth children) i ctx st
     = renderBlock tex2typst fuel (NHeading level children) i ctx st
  /\ forall text st',
       renderInlines tex2typst fuel children ctx st = (Ok text, st') ->
       renderBlock tex2typst (S (S fuel)) (NHeading depth children) i ctx st
       = (Ok (Some (indentLines (Js.repeat "=" level +:+ " " +:+ text) i)), st').
Proof.
  intros level. split; [unfold level; lia|]. split; [unfold level; lia|]. split.
  - destruct fuel as [|[|fuel]]; try reflexivity.
    rewrite !renderBlock_S. unfold renderBlockDispatch. cbn [renderHeading].
    replace (Nat.min (Nat.max level 1) 6) with level by (unfold level; lia).
    reflexivity.
  - intros text st' Hch. rewrite renderBlock_S. unfold renderBlockDispatch.
    cbn [renderHeading]. monad. now rewrite Hch.
Qed.

(** X19.  A table without rows, or whose first row has no cells, renders
    as the empty text with one warning, which the body then drops: the
    table leaves no trace in the document. *)
Theorem renderTable_degenerate (fuel : nat) (align : option (list (option AlignType)))
    (rows : list (list (list Node))) (i : nat) (ctx : RenderContext) (st : State) :
  let warning := match rows with [] => emptyTable | _ => noColumns end in
  rows = [] \/ (exists rest, rows = [] :: rest) ->
  returnsNormally (onError ctx) warning ->
  renderBlock tex2typst (S (S fuel)) (NTable align rows) i ctx st
  = (Ok (Some ""), addReports st (noted (onError ctx) [warning]))
  /\ renderBody tex2typst (S (S fuel)) [NTable align rows] ctx st
     = (Ok "", addReports st (noted (onError ctx) [warning]))
  /\ severity warning = WARNING.
Proof.
  intros warning Hrows Hcb.
  assert (Hblock : forall j,
            renderBlock tex2typst (S (S fuel)) (NTable align rows) j ctx st
            = (Ok (Some ""), addReports st (noted (onError ctx) [warning]))).
  { intros j. rewrite renderBlock_S. unfold renderBlockDispatch. cbn [renderTable].
    destruct Hrows as [->|[rest ->]]; cbn [length]; monad;
      now rewrite (report_returns _ _ _ Hcb). }
  split; [apply Hblock|]. split.
  - unfold renderBody. cbn [mapM]. unfold bind at 1 2. rewrite Hblock. reflexivity.
  - unfold warning. now destruct rows.
Qed.

(** X20.  Display math is always delimited: the converter's result between
    dollar signs and spaces, or, when the converter throws, the trimmed
    source between them with one warning carrying the exception and the
    source; the block is rendered either way. *)
Theorem renderMathBlock_fallback (value : string) (i : nat) (ctx : RenderContext)
    (st : State) :
  (forall error, tex2typst (Js.trim value) = Throw error ->
                 returnsNormally (onError ctx) (blockMathFailed (Js.trim value) error)) ->
  exists math warnings,
    renderMathBlock tex2typst value i ctx st
    = (Ok (indentLines ("$ " +:+ math +:+ " $") i),
       addReports st (noted (onError ctx) warnings))
    /\ match tex2typst (Js.trim value) with
       | Ok typst => math = typst /\ warnings = []
       | Throw error =>
           math = Js.trim value
           /\ warnings = [blockMathFailed (Js.trim value) error]
           /\ detail "latex" (details (blockMathFailed (Js.trim value) error))
              = Some (Js.trim value)
       end.
Proof.
  intros Hcb. unfold renderMathBlock. monad.
  destruct (tex2typst (Js.trim value)) as [typst|error] eqn:Hmath.
  - exists typst, []. now rewrite addReports_noted_nil.
  - exists (Js.trim value), [blockMathFailed (Js.trim value) error].
    now rewrite (report_returns _ _ _ (Hcb _ eq_refl)).
Qed.

(** ** Inline content (module [inline-renderer]) *)

(** X21.  A reference whose identifier is defined renders exactly as a
    link to the definition's URL with the same children does, reports
    included; and the identifier is looked up case apart, so references
    that differ by case or by label render alike. *)
Theorem renderLinkReference_as_link (fuel : nat) (identifier : string)
    (label : option string) (children : list Node) (ctx : RenderContext)
    (def : DefinitionNode) (st : State) :
  definitions ctx !! Js.toLowerCase identifier = Some def ->
  renderLinkReference tex2typst fuel identifier label children ctx st
  = (text <- renderLink tex2typst fuel (def_url def) children ctx ;; ret (Some text)) st
  /\ forall other otherLabel,
       Js.toLowerCase other = Js.toLowerCase identifier ->
       renderLinkReference tex2typst fuel other otherLabel children ctx st
       = renderLinkReference tex2typst fuel identifier label children ctx st.
Proof.
  intros Hdef.
  assert (H : forall id lbl, Js.toLowerCase id = Js.toLowerCase identifier ->
            renderLinkReference tex2typst fuel id lbl children ctx st
            = (text <- renderLink tex2typst fuel (def_url def) children ctx ;;
               ret (Some text)) st).
  { intros id lbl Hid. destruct fuel as [|fuel]; [reflexivity|].
    cbn [renderLinkReference renderLink]. rewrite Hid, Hdef. monad.
    destruct (renderInlines tex2typst fuel children ctx st) as [[rendered|e] s1];
      [|reflexivity].
    now destruct (negb (Js.truthy (Js.trim rendered))). }
  split; [now apply H|]. intros other otherLabel Hother.
  now rewrite (H other otherLabel Hother), (H identifier label eq_refl).
Qed.

Lemma join_empty_app (xs ys : list string) :
  Js.join "" (xs ++ ys) = Js.join "" xs +:+ Js.join "" ys.
Proof.
  induction xs as [|x xs IH]; [reflexivity|].
  destruct xs as [|x' xs].
  - cbn [app]. destruct ys as [|y ys]; [now rewrite append_empty_r|reflexivity].
  - change ((x :: x' :: xs) ++ ys) with (x :: x' :: (xs ++ ys)).
    rewrite !join_cons2. change (x' :: xs ++ ys) with ((x' :: xs) ++ ys).
    rewrite IH. now rewrite !append_assoc.
Qed.

Lemma filterNonEmpty_app (xs ys : list (option string)) :
  filterNonEmpty (xs ++ ys) = filterNonEmpty xs ++ filterNonEmpty ys.
Proof.
  induction xs as [|x xs IH]; [reflexivity|].
  cbn [app]. rewrite filterNonEmpty_cons, IH, (filterNonEmpty_cons x xs).
  now rewrite app_assoc.
Qed.

(** X22.  Inline content is rendered sibling by sibling and concatenated:
    a run of siblings renders to the rendering of its first part followed
    by the rendering of the rest, in that order and with the reports in that
    order; so a text split in two nodes renders as the one text does. *)
Theorem renderInlines_concatenates (fuel : nat) (first rest : list Node)
    (ctx : RenderContext) (st : State) :
  renderInlines tex2typst (S fuel) (first ++ rest) ctx st
  = (a <- renderInlines tex2typst (S fuel) first ctx ;;
     b <- renderInlines tex2typst (S fuel) rest ctx ;;
     ret (a +:+ b)) st
  /\ forall a b,
       renderInlines tex2typst (S (S fuel)) [NText (a +:+ b)] ctx st
       = renderInlines tex2typst (S (S fuel)) [NText a; NText b] ctx st.
Proof.
  split.
  - cbn [renderInlines]. unfold bind at 1. rewrite mapM_app. unfold bind, ret.
    destruct (mapM _ first st) as [[r1|e] s1]; [|reflexivity].
    destruct (mapM _ rest s1) as [[r2|e] s2]; [|reflexivity].
    now rewrite filterNonEmpty_app, join_empty_app.
  - intros a b. cbn [renderInlines renderInline mapM]. monad.
    rewrite escapeTypstText_app.
    destruct (escapeTypstText a) as [|c1 t1] eqn:Ha,
             (escapeTypstText b) as [|c2 t2] eqn:Hb;
      cbn [filterNonEmpty Js.truthy]; rewrite ?append_empty_r; reflexivity.
Qed.

End BlockProperties.

(** ** The document header (module [output-builder]) *)

Lemma docArgLines_snoc (docArgs : list string) (last : string) :
  docArgLines (docArgs ++ [last])
  = map (fun arg => "  " +:+ arg +:+ ",") docArgs ++ ["  " +:+ last].
Proof.
  induction docArgs as [|a rest IH]; [reflexivity|].
  cbn [app map]. rewrite <- IH. destruct rest; reflexivity.
Qed.

(** X23.  The arguments of the document call are written one per line,
    each behind two spaces, with a comma after every argument but the
    last; no argument, no line. *)
Theorem docArgLines_commas (docArgs : list string) (last : string) :
  docArgLines (docArgs ++ [last])
  = map (fun arg => "  " +:+ arg +:+ ",") docArgs ++ ["  " +:+ last]
  /\ length (docArgLines (docArgs ++ [last])) = S (length docArgs)
  /\ docArgLines [] = [].
Proof.
  split; [apply docArgLines_snoc|]. split; [|reflexivity].
  rewrite docArgLines_snoc, length_app, length_map. cbn. lia.
Qed.

Section BodyOnly.

Variable tex2typst : string -> Outcome string.

(** X24.  Without metadata (no title, author, description, date or
    keywords), abstract, language or region, the output is the body alone
    when no remote image was rendered, without header or blank line before
    it; when one was rendered, the output is an empty line, the helper
    preamble and, if the body is not empty, a blank line and the body. *)
Theorem buildOutput_body_only (fuel : nat) (tree : Root) (metadata : DocumentMetadata)
    (leadingTitleIndex : option nat) (ctx : RenderContext) (body : string)
    (st st' : State) :
  hasMetadata metadata = false ->
  Js.truthyOpt (abstract metadata) = false ->
  Js.truthyOpt (lang metadata) = false ->
  Js.truthyOpt (region metadata) = false ->
  renderBody tex2typst fuel (nodesForBody tree metadata leadingTitleIndex) ctx st
  = (Ok body, st') ->
  buildOutput tex2typst fuel tree metadata leadingTitleIndex ctx st
  = (Ok (if externalImages st'
         then Js.join nl ([""; warningsSection]
                          ++ (if Js.truthy body then [""; body] else []))
         else body), st').
Proof.
  intros Hmeta Habs Hlang Hregion Hbody.
  unfold buildOutput, outputParts, tryCatch. unfold bind at 1 2. rewrite Hbody.
  unfold headerParts. rewrite Hmeta, Habs, Hlang, Hregion, andb_false_r.
  cbn [orb]. monad. unfold buildWarningsSection, readExternalImages, bind, ret.
  destruct st' as [flag reports]. cbn [externalImages].
  destruct flag; cbn [negb]; change (Js.truthy warningsSection) with true; cbv iota;
    destruct (Js.truthy body) eqn:Hb; cbn [app length Nat.ltb Nat.leb andb];
    try reflexivity.
Qed.

End BodyOnly.

(** A quote around a code block of two lines, at level 2. *)
Lemma renderBlock_indents_whole_witness :
  renderBlock Examples.noMath 9 (NBlockquote [NCode (Some "c") ("a" +:+ nl +:+ "b")]) 2
    {| definitions := ∅; footnoteDefinitions := ∅; onError := None |} initialState
  = (rendered <- renderBlock Examples.noMath 9
                   (NBlockquote [NCode (Some "c") ("a" +:+ nl +:+ "b")]) 0
                   {| definitions := ∅; footnoteDefinitions := ∅; onError := None |} ;;
     ret ((fun text => indentLines text 2) <$> rendered)) initialState.
Proof.
  apply (renderBlock_indents_whole Examples.noMath 9
           (NBlockquote [NCode (Some "c") ("a" +:+ nl +:+ "b")]) 2
           {| definitions := ∅; footnoteDefinitions := ∅; onError := None |} initialState).
  reflexivity.
Defined.

(** A table whose header row has no cell. *)
Lemma renderTable_degenerate_witness :
  renderBody Examples.noMath 5 [NTable None [[]; [[NText "cell"]]]]
    (FaultExamples.context Examples.listen) initialState
  = (Ok "", addReports initialState [noColumns]).
Proof.
  apply (renderTable_degenerate Examples.noMath 3 None [[]; [[NText "cell"]]] 0
           (FaultExamples.context Examples.listen) initialState).
  - right. now exists [[[NText "cell"]]].
  - reflexivity.
Defined.

(** A converter that throws: the trimmed source between the delimiters. *)
Lemma renderMathBlock_fallback_witness :
  exists math warnings,
    renderMathBlock (fun _ => Throw (JsError "bad")) " x^ " 0
      (FaultExamples.context Examples.listen) initialState
    = (Ok (indentLines ("$ " +:+ math +:+ " $") 0),
       addReports initialState (noted (Some Examples.listen) warnings))
    /\ math = "x^".
Proof.
  destruct (renderMathBlock_fallback (fun _ => Throw (JsError "bad")) " x^ " 0
              (FaultExamples.context Examples.listen) initialState)
    as (math & warnings & Hrun & Hmath & _).
  - intros error _. reflexivity.
  - exists math, warnings. split; [exact Hrun|exact Hmath].
Defined.

(** A reference written [REF] to a definition written [Ref]. *)
Lemma renderLinkReference_as_link_witness :
  let ctx := {| definitions := <["ref" := {| def_identifier := "Ref";
                                             def_url := "https://e.com" |}]> ∅;
                footnoteDefinitions := ∅; onError := None |} in
  renderLinkReference Examples.noMath 5 "REF" None [NText "x"] ctx initialState
  = (text <- renderLink Examples.noMath 5 "https://e.com" [NText "x"] ctx ;;
     ret (Some text)) initialState.
Proof.
  intros ctx.
  refine (proj1 (renderLinkReference_as_link Examples.noMath 5 "REF" None [NText "x"] ctx
                   {| def_identifier := "Ref"; def_url := "https://e.com" |} initialState
                   _)).
  reflexivity.
Defined.

(** The empty tree gives the empty output; a remote image gives the
    preamble behind an empty line. *)
Lemma buildOutput_body_only_witness :
  let metadata :=
    {| title := ""; authors := []; description := None; keywords := None;
       date := None; abstract := None; lang := None; region := None |} in
  let ctx := {| definitions := ∅; footnoteDefinitions := ∅; onError := None |} in
  buildOutput Examples.noMath 9 [] metadata None ctx initialState = (Ok "", initialState)
  /\ buildOutput Examples.noMath 9 [NParagraph [NImage "https://e.com/a.png"]]
       metadata None ctx initialState
     = (Ok (Js.join nl [""; warningsSection; ""; externalImage "https://e.com/a.png"]),
        {| externalImages := true; reported := [] |}).
Proof.
  intros metadata ctx. split.
  - apply (buildOutput_body_only Examples.noMath 9 [] metadata None ctx "" initialState
             initialState); reflexivity.
  - apply (buildOutput_body_only Examples.noMath 9
             [NParagraph [NImage "https://e.com/a.png"]] metadata None ctx
             (externalImage "https://e.com/a.png") initialState
             {| externalImages := true; reported := [] |}); reflexivity.
Defined.

(** ** Lists, footnotes and the body *)

Lemma join_head (sep x : string) (xs : list string) :
  exists tail, Js.join sep (x :: xs) = x +:+ tail.
Proof.
  destruct xs as [|y ys].
  - exists "". cbn. now rewrite append_empty_r.
  - exists (sep +:+ Js.join sep (y :: ys)). reflexivity.
Qed.

Lemma truthy_append (a b : string) :
  Js.truthy (a +:+ b) = Js.truthy a || Js.truthy b.
Proof. destruct a; [reflexivity|]. now rewrite append_cons. Qed.

Lemma mapM_Forall {A B} (f : A -> M B) (P : B -> Prop) :
  (forall x s y s', f x s = (Ok y, s') -> P y) ->
  forall xs s ys s', mapM f xs s = (Ok ys, s') -> Forall P ys /\ length ys = length xs.
Proof.
  intros Hf xs. induction xs as [|x xs IH]; intros s ys s' H.
  - apply ret_Ok in H as [<- _]. now split.
  - cbn [mapM] in H. apply bind_Ok in H as (y & s1 & Hy & H).
    apply bind_Ok in H as (ys' & s2 & Hys & H). apply ret_Ok in H as [<- _].
    destruct (IH _ _ _ Hys) as [HP Hlen]. split.
    + constructor; [eapply Hf; eassumption|exact HP].
    + cbn [length]. now rewrite Hlen.
Qed.

Lemma filter_truthy_id (xs : list string) :
  Forall (fun s => Js.truthy s = true) xs -> List.filter Js.truthy xs = xs.
Proof.
  induction 1 as [|x xs Hx _ IH]; [reflexivity|]. cbn [List.filter].
  now rewrite Hx, IH.
Qed.

Lemma filterNonEmpty_truthy (xs : list (option string)) :
  Forall (fun s => Js.truthy s = true) (filterNonEmpty xs).
Proof.
  induction xs as [|[s|] xs IH]; cbn [filterNonEmpty]; [constructor| |exact IH].
  destruct (Js.truthy s) eqn:Hs; [now constructor|exact IH].
Qed.

Lemma join_truthy (sep : string) (xs : list string) :
  xs <> [] -> Forall (fun s => Js.truthy s = true) xs -> Js.truthy (Js.join sep xs) = true.
Proof.
  intros Hne H. destruct H as [|x xs Hx _]; [contradiction|].
  destruct (join_head sep x xs) as [tail ->]. now rewrite truthy_append, Hx.
Qed.

(** Two rendered parts of a body, a blank line between them when both are
    there. *)
Definition joinBlocks (a b : string) : string :=
  if Js.truthy a then (if Js.truthy b then a +:+ nl +:+ nl +:+ b else a) else b.

Lemma join_blocks_app (xs ys : list (option string)) :
  Js.join (nl +:+ nl) (filterNonEmpty (xs ++ ys))
  = joinBlocks (Js.join (nl +:+ nl) (filterNonEmpty xs))
               (Js.join (nl +:+ nl) (filterNonEmpty ys)).
Proof.
  rewrite filterNonEmpty_app. unfold joinBlocks.
  pose proof (filterNonEmpty_truthy xs) as Hxs.
  pose proof (filterNonEmpty_truthy ys) as Hys.
  destruct (filterNonEmpty xs) as [|x xs'] eqn:Ex; [reflexivity|].
  rewrite (join_truthy _ (x :: xs')) by (discriminate || exact Hxs).
  destruct (filterNonEmpty ys) as [|y ys'] eqn:Ey.
  - now rewrite app_nil_r.
  - rewrite (join_truthy _ (y :: ys')) by (discriminate || exact Hys).
    rewrite join_app by discriminate. now rewrite append_assoc.
Qed.

Section BodyProperties.

Variable tex2typst : string -> Outcome string.

(** X25.  The body is rendered block by block, in order: the body of a
    run of nodes is the body of its first part and the body of the rest with
    one blank line between them, and no blank line when either part renders
    to nothing, so nodes that render nothing leave no gap; the reports come
    in the same order. *)
Theorem renderBody_separates_blocks (fuel : nat) (first rest : list Node)
    (ctx : RenderContext) (st : State) :
  renderBody tex2typst fuel (first ++ rest) ctx st
  = (a <- renderBody tex2typst fuel first ctx ;;
     b <- renderBody tex2typst fuel rest ctx ;;
     ret (joinBlocks a b)) st.
Proof.
  unfold renderBody. unfold bind at 1. rewrite mapM_app. unfold bind, ret.
  destruct (mapM _ first st) as [[r1|e] s1]; [|reflexivity].
  destruct (mapM _ rest s1) as [[r2|e] s2]; [|reflexivity].
  now rewrite join_blocks_app.
Qed.

(** What an item of a list starts with. *)
Definition itemStart (ordered : bool) (indentLevel : nat) : string :=
  Js.repeat "  " indentLevel +:+ (if ordered then "+" else "-").

Lemma renderListItem_start (fuel : nat) (children : list Node) (marker : string)
    (i : nat) (ctx : RenderContext) (st st' : State) (text : string) :
  renderListItem tex2typst fuel children marker i ctx st = (Ok text, st') ->
  exists tail, text = Js.repeat "  " i +:+ marker +:+ tail.
Proof.
  destruct fuel as [|fuel]; [discriminate|]. cbn [renderListItem].
  set (renderChild := fun child : Node => _).
  assert (Hplain : forall nodes s s' t,
            (pushed <- mapM renderChild nodes ;;
             ret (Js.join nl ((Js.repeat "  " i +:+ marker) :: omap id pushed))) s
            = (Ok t, s') ->
            exists tail, t = Js.repeat "  " i +:+ marker +:+ tail).
  { intros nodes s s' t H. apply bind_Ok in H as (pushed & s1 & _ & H).
    apply ret_Ok in H as [<- _].
    destruct (join_head nl (Js.repeat "  " i +:+ marker) (omap id pushed)) as [tail ->].
    exists tail. now rewrite append_assoc. }
  destruct children as [|child rest]; [apply Hplain|].
  destruct child; try apply Hplain.
  intros H. apply bind_Ok in H as (p & s1 & _ & H).
  apply bind_Ok in H as (pushed & s2 & _ & H). apply ret_Ok in H as [<- _].
  destruct (join_head nl (Js.repeat "  " i +:+ marker +:+ " " +:+ p) (omap id pushed))
    as [tail ->].
  exists (" " +:+ p +:+ tail). now rewrite !append_assoc.
Qed.

(** X26.  A list that renders keeps all its items: every item renders to
    a text that starts with the margin and the marker, [+] in an ordered list
    and [-] in an unordered one, so no item is dropped as empty and the list
    is the items joined by line feeds, as many as the list has. *)
Theorem renderList_keeps_items (fuel : nat) (ordered : bool) (items : list (list Node))
    (i : nat) (ctx : RenderContext) (st st' : State) (text : string) :
  renderList tex2typst (S fuel) ordered items i ctx st = (Ok text, st') ->
  exists rendered,
    mapM (fun item => renderListItem tex2typst fuel item (if ordered then "+" else "-") i ctx)
         items st
    = (Ok rendered, st')
    /\ text = Js.join nl rendered
    /\ length rendered = length items
    /\ Forall (fun item => exists tail, item = itemStart ordered i +:+ tail) rendered.
Proof.
  cbn [renderList]. intros H. apply bind_Ok in H as (rendered & s1 & Hitems & H).
  apply ret_Ok in H as [<- <-]. exists rendered.
  assert (Hitem : forall item s y s',
            renderListItem tex2typst fuel item (if ordered then "+" else "-") i ctx s
            = (Ok y, s') ->
            exists tail, y = itemStart ordered i +:+ tail).
  { intros item s y s' H. apply renderListItem_start in H as [tail ->].
    exists tail. unfold itemStart. now rewrite append_assoc. }
  destruct (mapM_Forall _ _ Hitem _ _ _ _ Hitems) as [Hstart Hlen].
  split; [exact Hitems|]. split; [|split; [exact Hlen|exact Hstart]].
  f_equal. apply filter_truthy_id.
  eapply List.Forall_impl; [|exact Hstart]. intros item [tail ->].
  unfold itemStart. rewrite append_assoc, !truthy_append.
  destruct ordered; cbn; now rewrite orb_true_r.
Qed.

(** X27.  A reference to a footnote that is defined (the identifier looked
    up in lower case) puts the footnote in the text: its blocks rendered at
    indent 0, those that render nothing dropped, joined by one space and
    trimmed, inside the footnote call; when rendering the blocks throws, the
    exception is handed to the callback as an error and the reference
    renders as the empty text. *)
Theorem footnote_reference_inlined (fuel : nat) (identifier : string) (ctx : RenderContext)
    (def : FootnoteDefinition) (st : State) :
  footnoteDefinitions ctx !! Js.toLowerCase identifier = Some def ->
  (forall error, returnsNormally (onError ctx) (footnoteFailed identifier error)) ->
  exists text st',
    renderInline tex2typst (S fuel) (NFootnoteReference identifier) ctx st
    = (Ok (Some text), st')
    /\ match mapM (fun child => renderBlock tex2typst fuel child 0 ctx) (fn_children def) st with
       | (Ok rendered, s1) =>
           text = "#footnote[" +:+ Js.trim (Js.join " " (filterNonEmpty rendered)) +:+ "]"
           /\ st' = s1
       | (Throw error, s1) =>
           text = ""
           /\ st' = addReports s1 (noted (onError ctx) [footnoteFailed identifier error])
           /\ severity (footnoteFailed identifier error) = ERROR
       end.
Proof.
  intros Hdef Hcb. cbn [renderInline]. rewrite Hdef. monad.
  destruct (mapM _ (fn_children def) st) as [[rendered|error] s1].
  - eexists; eexists. now split.
  - rewrite (report_returns _ _ _ (Hcb error)). eexists; eexists. now split.
Qed.

End BodyProperties.

Section FailureReported.

Variable remark : string -> Outcome Root.
Variable tex2typst : string -> Outcome string.
Variable parseYaml : string -> Outcome YamlValue.
Variable langsCodes1 : list string.
Variable langsAll : list LangEntry.
Variable langsWhere : string -> string -> option LangEntry.
Variable getCodes : list string.
Variable getCode : string -> option string.
Variable toUpperCase : string -> string.

(** X28.  No conversion fails in silence: when [markdown2typst] throws,
    the last thing it did was to hand the callback, if there is one, a fatal
    error that carries the exception that ended the conversion; and it
    throws that exception, or the one the callback threw on that error. *)
Theorem markdown2typst_failure_reported (fuel : nat) (markdown : string)
    (options : Markdown2TypstOptions) (error : Exn) (st st' : State) :
  markdown2typst remark tex2typst parseYaml langsCodes1 langsAll langsWhere getCodes
    getCode toUpperCase fuel markdown options st
  = (Throw error, st') ->
  exists cause before,
    st' = addReports before (noted (opt_onError options) [conversionFailed cause])
    /\ severity (conversionFailed cause) = ERROR
    /\ originalError (conversionFailed cause) = Some cause
    /\ (error = cause
        \/ exists callback,
             opt_onError options = Some callback
             /\ callback (conversionFailed cause) = Some error).
Proof.
  unfold markdown2typst. unfold tryCatch at 1.
  match goal with |- context [let (_, _) := ?body st in _] => destruct (body st) as [[out|e] s1] end;
    [discriminate|].
  unfold bind, throw, report.
  destruct (opt_onError options) as [callback|] eqn:Hcb; cbn [noted].
  - destruct (callback (conversionFailed e)) as [e'|] eqn:He.
    + intros [= <- <-]. exists e, s1. split; [reflexivity|]. split; [reflexivity|].
      split; [reflexivity|]. right. now exists callback.
    + intros [= <- <-]. exists e, s1. split; [reflexivity|]. split; [reflexivity|].
      split; [reflexivity|]. now left.
  - intros [= <- <-]. exists e, s1. rewrite addReports_nil. now repeat split; try left.
Qed.

End FailureReported.

(** An ordered list of an item with text and an item without children. *)
Lemma renderList_keeps_items_witness :
  exists rendered,
    mapM (fun item => renderListItem Examples.noMath 5 item "+" 1
                        {| definitions := ∅; footnoteDefinitions := ∅; onError := None |})
         [[NParagraph [NText "a"]]; []] initialState
    = (Ok rendered, initialState)
    /\ ("  + a" +:+ nl +:+ "  +") = Js.join nl rendered
    /\ length rendered = 2.
Proof.
  destruct (renderList_keeps_items Examples.noMath 5 true [[NParagraph [NText "a"]]; []] 1
              {| definitions := ∅; footnoteDefinitions := ∅; onError := None |}
              initialState initialState ("  + a" +:+ nl +:+ "  +") eq_refl)
    as (rendered & Hrun & Htext & Hlen & _).
  exists rendered. now repeat split.
Defined.

(** A footnote of two paragraphs, referred to in upper case. *)
Lemma footnote_reference_inlined_witness :
  let ctx :=
    {| definitions := ∅;
       footnoteDefinitions :=
         <["n" := {| fn_identifier := "N";
                     fn_children := [NParagraph [NText "one"]; NParagraph [NText "two"]] |}]> ∅;
       onError := None |} in
  exists text st',
    renderInline Examples.noMath 9 (NFootnoteReference "N") ctx initialState
    = (Ok (Some text), st')
    /\ text = "#footnote[one two]".
Proof.
  intros ctx.
  destruct (footnote_reference_inlined Examples.noMath 8 "N" ctx
              {| fn_identifier := "N";
                 fn_children := [NParagraph [NText "one"]; NParagraph [NText "two"]] |}
              initialState eq_refl (fun _ => I))
    as (text & st' & Hrun & Htext).
  exists text, st'. split; [exact Hrun|]. exact (proj1 Htext).
Defined.

(** A parser that throws: the last report is the fatal error of the
    conversion, with the parser's exception. *)
Lemma markdown2typst_failure_reported_witness :
  exists cause before,
    addReports initialState
      [parseFailed (JsError "no parse"); conversionFailed (JsError "no parse")]
    = addReports before (noted (Some Examples.listen) [conversionFailed cause])
    /\ JsError "no parse" = cause.
Proof.
  destruct (markdown2typst_failure_reported (fun _ => Throw (JsError "no parse"))
              Examples.noMath Examples.noYaml [] [] (fun _ _ => None) [] (fun _ => None)
              Examples.upper 8 "" (FaultExamples.options (Some Examples.listen))
              (JsError "no parse") initialState
              (addReports initialState
                 [parseFailed (JsError "no parse"); conversionFailed (JsError "no parse")])
              eq_refl)
    as (cause & before & Hstate & _ & _ & [Hcause|(callback & Hcb & Hthrow)]).
  - exists cause, before. now split.
  - exfalso. injection Hcb as <-. discriminate Hthrow.
Defined.

(** ** The single-file version: inline YAML values

    The earlier, single-file [markdown2typst.ts] reads the front matter
    line by line, without a YAML decoder.  Its helpers for scalars and
    inline lists are embedded here. *)

Module Legacy.

(** [s.endsWith(c)] for a one-character [c]. *)
Fixpoint endsWith (c : ascii) (s : string) : bool :=
  match s with
  | "" => false
  | String x "" => Ascii.eqb x c
  | String _ s' => endsWith c s'
  end.

(** [s.slice(0, -1)] *)
Fixpoint dropLast (s : string) : string :=
  match s with
  | "" => ""
  | String _ "" => ""
  | String x s' => String x (dropLast s')
  end.

(** [s.slice(1, -1)] *)
Definition slice (s : string) : string :=
  match s with
  | "" => ""
  | String _ s' => dropLast s'
  end.

Definition squote : ascii := "'"%char.

(** [v.startsWith(q) && v.endsWith(q) && v.length >= 2] *)
Definition quotedBy (q : ascii) (v : string) : bool :=
  Js.startsWith (String q "") v && endsWith q v && (2 <=? String.length v)%nat.

Definition stripYamlScalar (value : string) : string :=
  let v := Js.trim value in
  let v := if quotedBy dquote v || quotedBy squote v then slice v else v in
  Js.trim v.

Definition parseInlineYamlList (value : string) : list string :=
  let v := Js.trim value in
  if negb (Js.truthy v) then []
  else if Js.startsWith "[" v && endsWith "]" v
       then List.filter Js.truthy (map stripYamlScalar (Js.split "," (slice v)))
       else List.filter Js.truthy [stripYamlScalar v].

End Legacy.

Lemma trimStart_cases (s : string) :
  Js.trimStart s = ""
  \/ exists c u, Js.trimStart s = String c u /\ Js.isWhiteSpace c = false.
Proof.
  induction s as [|c s IH]; [now left|]. cbn [Js.trimStart].
  destruct (Js.isWhiteSpace c) eqn:Hc; [exact IH|]. right. now exists c, s.
Qed.

Lemma trimEnd_idem (s : string) : Js.trimEnd (Js.trimEnd s) = Js.trimEnd s.
Proof.
  induction s as [|c s IH]; [reflexivity|]. cbn [Js.trimEnd].
  destruct (Js.trimEnd s) as [|d t] eqn:Ht.
  - destruct (Js.isWhiteSpace c) eqn:Hc; [reflexivity|].
    cbn [Js.trimEnd]. now rewrite Hc.
  - cbn [Js.trimEnd] in IH |- *. now rewrite IH.
Qed.

Lemma trimEnd_head (c : ascii) (u : string) :
  Js.isWhiteSpace c = false -> exists u', Js.trimEnd (String c u) = String c u'.
Proof.
  intros Hc. cbn [Js.trimEnd]. destruct (Js.trimEnd u) as [|d t].
  - rewrite Hc. now exists "".
  - now exists (String d t).
Qed.

Lemma trim_idem (s : string) : Js.trim (Js.trim s) = Js.trim s.
Proof.
  unfold Js.trim. destruct (trimStart_cases s) as [->|(c & u & -> & Hc)]; [reflexivity|].
  destruct (trimEnd_head c u Hc) as [u' Hu]. rewrite Hu.
  cbn [Js.trimStart]. rewrite Hc, <- Hu. apply trimEnd_idem.
Qed.

Lemma trimEnd_snoc (t : string) (b : ascii) :
  Js.isWhiteSpace b = false -> Js.trimEnd (t +:+ String b "") = t +:+ String b "".
Proof.
  intros Hb. induction t as [|c t IH].
  - rewrite append_nil_l. cbn [Js.trimEnd]. now rewrite Hb.
  - rewrite append_cons. cbn [Js.trimEnd]. rewrite IH.
    destruct (t +:+ String b "") eqn:Ht; [|reflexivity].
    destruct t; discriminate Ht.
Qed.

(** A text between two characters that are not white space is trimmed. *)
Lemma trim_between (a b : ascii) (t : string) :
  Js.isWhiteSpace a = false -> Js.isWhiteSpace b = false ->
  Js.trim (String a (t +:+ String b "")) = String a (t +:+ String b "").
Proof.
  intros Ha Hb. unfold Js.trim. cbn [Js.trimStart]. rewrite Ha.
  change (String a (t +:+ String b "")) with (String a t +:+ String b "").
  now apply trimEnd_snoc.
Qed.

Lemma endsWith_snoc (c : ascii) (t : string) : Legacy.endsWith c (t +:+ String c "") = true.
Proof.
  induction t as [|x t IH].
  - rewrite append_nil_l. cbn. apply Ascii.eqb_refl.
  - rewrite append_cons. cbn [Legacy.endsWith].
    destruct (t +:+ String c "") eqn:Ht; [destruct t; discriminate Ht|exact IH].
Qed.

Lemma dropLast_snoc (c : ascii) (t : string) : Legacy.dropLast (t +:+ String c "") = t.
Proof.
  induction t as [|x t IH]; [reflexivity|].
  rewrite append_cons. cbn [Legacy.dropLast].
  destruct (t +:+ String c "") eqn:Ht; [destruct t; discriminate Ht|now rewrite IH].
Qed.

Lemma startsWith_head (q : ascii) (t : string) :
  Js.startsWith (String q "") (String q t) = true.
Proof.
  unfold Js.startsWith. cbn [String.prefix].
  destruct (ascii_dec q q) as [_|Hne]; [now destruct t|now elim Hne].
Qed.

Lemma quotedBy_between (q : ascii) (t : string) :
  Legacy.quotedBy q (String q (t +:+ String q "")) = true.
Proof.
  unfold Legacy.quotedBy. rewrite startsWith_head.
  change (String q (t +:+ String q "")) with (String q t +:+ String q "").
  rewrite endsWith_snoc, length_append. cbn [String.length andb].
  apply Nat.leb_le. lia.
Qed.

Lemma stripYamlScalar_trimmed (value : string) :
  Js.trim (Legacy.stripYamlScalar value) = Legacy.stripYamlScalar value.
Proof. unfold Legacy.stripYamlScalar. apply trim_idem. Qed.

(** X29.  [stripYamlScalar] gives a text without white space around it;
    a text between two double quotes, or between two single quotes, gives
    what stands between the quotes, trimmed, so only one pair of quotes is
    taken off; and a text whose trimmed form does not start with a quote is
    just trimmed. *)
Theorem stripYamlScalar_unquotes (value : string) :
  Js.trim (Legacy.stripYamlScalar value) = Legacy.stripYamlScalar value
  /\ (forall q, q = dquote \/ q = Legacy.squote ->
        Legacy.stripYamlScalar (String q (value +:+ String q "")) = Js.trim value)
  /\ (Js.startsWith dq (Js.trim value) = false ->
      Js.startsWith "'" (Js.trim value) = false ->
      Legacy.stripYamlScalar value = Js.trim value).
Proof.
  split; [apply stripYamlScalar_trimmed|]. split.
  - intros q Hq. unfold Legacy.stripYamlScalar.
    assert (Hws : Js.isWhiteSpace q = false) by (destruct Hq as [->| ->]; reflexivity).
    rewrite (trim_between q q value Hws Hws).
    assert (Hquoted : Legacy.quotedBy dquote (String q (value +:+ String q ""))
                      || Legacy.quotedBy Legacy.squote (String q (value +:+ String q ""))
                      = true).
    { destruct Hq as [->| ->]; rewrite quotedBy_between; [reflexivity|apply orb_true_r]. }
    rewrite Hquoted. cbn [Legacy.slice]. now rewrite dropLast_snoc.
  - intros Hd Hs. unfold Legacy.stripYamlScalar, Legacy.quotedBy.
    change (String dquote "") with dq. change (String Legacy.squote "") with "'".
    rewrite Hd, Hs. cbn [andb orb]. apply trim_idem.
Qed.

Lemma filter_truthy_items (items : list string) :
  Forall (fun item => item <> "" /\ Js.trim item = item)
         (List.filter Js.truthy (map Legacy.stripYamlScalar items)).
Proof.
  apply List.Forall_forall. intros item Hin.
  apply List.filter_In in Hin as [Hin Htruthy].
  apply List.in_map_iff in Hin as (raw & <- & _). split.
  - intros H. now rewrite H in Htruthy.
  - apply stripYamlScalar_trimmed.
Qed.

(** X30.  [parseInlineYamlList] gives no empty item and no item with
    white space around it; a blank value gives the empty list; and a
    bracketed list of items without commas gives the items, each stripped
    of its quotes and white space, the empty ones left out, in their
    order. *)
Theorem parseInlineYamlList_items (value : string) :
  Forall (fun item => item <> "" /\ Js.trim item = item) (Legacy.parseInlineYamlList value)
  /\ (Js.trim value = "" -> Legacy.parseInlineYamlList value = [])
  /\ forall items,
       items <> [] ->
       Forall (fun item => hasChar "," item = false) items ->
       Legacy.parseInlineYamlList ("[" +:+ Js.join "," items +:+ "]")
       = List.filter Js.truthy (map Legacy.stripYamlScalar items).
Proof.
  split; [|split].
  - unfold Legacy.parseInlineYamlList.
    destruct (negb (Js.truthy (Js.trim value))); [constructor|].
    destruct (_ && _); [apply filter_truthy_items|].
    apply (filter_truthy_items [Js.trim value]).
  - intros H. unfold Legacy.parseInlineYamlList. now rewrite H.
  - intros items Hne Hfree. unfold Legacy.parseInlineYamlList.
    change ("[" +:+ Js.join "," items +:+ "]")
      with (String "[" (Js.join "," items +:+ String "]" "")).
    rewrite (trim_between "[" "]" (Js.join "," items)) by reflexivity.
    cbn [Js.truthy negb]. change "[" with (String "[" "") at 1.
    rewrite startsWith_head.
    change (String "[" (Js.join "," items +:+ String "]" ""))
      with (String "[" (Js.join "," items) +:+ String "]" "") at 1.
    rewrite endsWith_snoc. cbn [andb Legacy.slice]. rewrite dropLast_snoc.
    change (Js.join "," items) with (Js.join (String "," "") items).
    now rewrite (split_join "," items Hne Hfree).
Qed.

(** A quoted name with spaces, and a list of three items of which one is
    empty. *)
Lemma parseInlineYamlList_items_witness :
  Legacy.parseInlineYamlList ("[" +:+ Js.join "," [" 'Ann' "; " "; "Bob"] +:+ "]")
  = ["Ann"; "Bob"].
Proof.
  refine (proj2 (proj2 (parseInlineYamlList_items "")) [" 'Ann' "; " "; "Bob"] _ _).
  - discriminate.
  - repeat constructor.
Defined.

(** A quoted text with inner white space, and a plain one. *)
Lemma stripYamlScalar_unquotes_witness :
  Legacy.stripYamlScalar (String dquote (" a b " +:+ String dquote "")) = "a b"
  /\ Legacy.stripYamlScalar "  plain " = "plain".
Proof.
  split.
  - exact (proj1 (proj2 (stripYamlScalar_unquotes " a b ")) dquote (or_introl eq_refl)).
  - exact (proj2 (proj2 (stripYamlScalar_unquotes "  plain ")) eq_refl eq_refl).
Defined.

(** ** Remote images that are shown
       (modules [inline-renderer], [block-renderer], [output-builder]) *)

(** The nesting of a node: one for a leaf, one more than the deepest child
    otherwise. *)
Fixpoint height (node : Node) : nat :=
  match node with
  | NStrong children | NEmphasis children | NDelete children | NMark children
  | NSubscript children | NSuperscript children | NLink _ children
  | NLinkReference _ _ children | NFootnoteDefinition _ children
  | NHeading _ children | NParagraph children | NBlockquote children =>
      S (list_max (map height children))
  | NList _ items => S (list_max (map (fun item => list_max (map height item)) items))
  | NTable _ rows =>
      S (list_max (map (fun row => list_max (map (fun cell => list_max (map height cell)) row))
                       rows))
  | _ => 1
  end.

Definition heights (nodes : list Node) : nat := list_max (map height nodes).

(** A remote image stands in the inline node at a place the inline renderer
    renders: the node is the image, or the image is shown in a child of an
    emphasis, a strike-through, a highlight, a subscript, a superscript, a
    link or a link reference. *)
Fixpoint showsRemoteImage (node : Node) : bool :=
  match node with
  | NImage url => isExternalUrl url
  | NStrong children | NEmphasis children | NDelete children | NMark children
  | NSubscript children | NSuperscript children | NLink _ children
  | NLinkReference _ _ children => existsb showsRemoteImage children
  | _ => false
  end.

(** The paragraph is a table-of-contents marker. *)
Definition isToc (defs : gmap string DefinitionNode) (children : list Node) : bool :=
  String.eqb (Js.toLowerCase (Js.trim (plainTextFromPhrasing children defs))) "[toc]".

(** A remote image stands in the block at a place the block renderer
    renders: in a heading, in a paragraph that is not a table-of-contents
    marker, in a cell of a table whose header row has a cell, or in a block
    of a block quote or of a list item.  Footnote definitions are not
    followed. *)
Fixpoint blockShowsRemoteImage (defs : gmap string DefinitionNode) (node : Node) : bool :=
  match node with
  | NHeading _ children => existsb showsRemoteImage children
  | NParagraph children => negb (isToc defs children) && existsb showsRemoteImage children
  | NBlockquote children => existsb (blockShowsRemoteImage defs) children
  | NList _ items => existsb (existsb (blockShowsRemoteImage defs)) items
  | NTable _ rows =>
      match rows with
      | [] => false
      | headerRow :: dataRows =>
          (0 <? length headerRow)%nat
          && existsb (existsb showsRemoteImage) (headerRow ++ concat dataRows)
      end
  | _ => false
  end.

Lemma height_pos (node : Node) : 1 <= height node.
Proof. destruct node; cbn [height]; lia. Qed.

Lemma list_max_In (n : nat) (l : list nat) : In n l -> n <= list_max l.
Proof.
  induction l as [|m l IH]; [intros []|]. simpl. intros [->|H]; [lia|].
  specialize (IH H). lia.
Qed.

Lemma heights_In (node : Node) (nodes : list Node) : In node nodes -> height node <= heights nodes.
Proof. intros H. apply list_max_In, in_map, H. Qed.

Lemma heights_item (item : list Node) (items : list (list Node)) :
  In item items -> heights item <= list_max (map heights items).
Proof. intros H. apply list_max_In. now apply (in_map heights). Qed.

Lemma heights_cell (cell : list Node) (row : list (list Node)) (rows : list (list (list Node))) :
  In row rows -> In cell row ->
  heights cell <= list_max (map (fun row => list_max (map heights row)) rows).
Proof.
  intros Hrow Hcell.
  transitivity (list_max (map heights row)).
  - apply list_max_In. now apply (in_map heights).
  - apply list_max_In. now apply (in_map (fun row => list_max (map heights row))).
Qed.

Lemma heights_incl (xs ys : list Node) :
  (forall x, In x xs -> In x ys) -> heights xs <= heights ys.
Proof.
  intros Hsub. unfold heights at 1. apply list_max_le, List.Forall_forall.
  intros n Hn. apply List.in_map_iff in Hn as (x & <- & Hx). apply heights_In, Hsub, Hx.
Qed.

(** The computation returns, and sets the flag when [shown] holds. *)
Definition reaches {A} (m : M A) (shown : bool) : Prop :=
  returns m /\ (shown = true -> setsFlag m).

Lemma setsFlag_after {A B} (m : M A) (k : A -> M B) :
  returns m -> (forall a, setsFlag (k a)) -> setsFlag (bind m k).
Proof.
  intros Hm Hk s. unfold bind. destruct (Hm s) as (a & s1 & ->). apply Hk.
Qed.

Lemma setsFlag_try {A} (m : M A) (h : Exn -> M A) :
  setsFlag m -> (forall e, keepsFlag (h e)) -> setsFlag (tryCatch m h).
Proof.
  intros Hm Hh s. unfold tryCatch. specialize (Hm s).
  destruct (m s) as [[a|e] s1]; [exact Hm | now apply Hh].
Qed.

Lemma keepsFlag_report (onError : option ErrorCallback) (error : ConversionError) :
  keepsFlag (report onError error).
Proof. intros s Hs. now rewrite report_flag. Qed.

Lemma keepsFlag_warn {A} (onError : option ErrorCallback) (error : ConversionError) (a : A) :
  keepsFlag (report onError error ;;; ret a).
Proof. apply keepsFlag_bind; [apply keepsFlag_report | intros; apply keepsFlag_ret]. Qed.

Lemma reaches_bind {A B} (m : M A) (k : A -> M B) (shown : bool) :
  reaches m shown -> (forall a, returns (k a)) -> (forall a, keepsFlag (k a)) ->
  reaches (bind m k) shown.
Proof.
  intros [Hret Hset] Hk Hkeep. split.
  - now apply returns_bind.
  - intros H. apply setsFlag_bind; [now apply Hset | exact Hkeep].
Qed.

Lemma reaches_ret {A B} (m : M A) (f : A -> B) (shown : bool) :
  reaches m shown -> reaches (a <- m ;; ret (f a)) shown.
Proof.
  intros H. apply reaches_bind; [exact H | intros; apply returns_ret | intros; apply keepsFlag_ret].
Qed.

(** Among siblings rendered in their order: all return, and the flag is
    set when one of them sets it. *)
Lemma reaches_mapM {A B} (f : A -> M B) (shown : A -> bool) (xs : list A) :
  (forall x, In x xs -> reaches (f x) (shown x)) ->
  (forall x, keepsFlag (f x)) ->
  reaches (mapM f xs) (existsb shown xs).
Proof.
  intros Hf Hkeep. induction xs as [|x xs IH]; cbn [mapM existsb].
  - split; [apply returns_ret | discriminate].
  - assert (IH' : reaches (mapM f xs) (existsb shown xs))
      by (apply IH; intros; apply Hf; now right).
    destruct (Hf x (or_introl eq_refl)) as [Hx Hxset]. destruct IH' as [Hxs Hxsset].
    split.
    + apply returns_bind; [exact Hx|]. intros y.
      apply returns_bind; [exact Hxs | intros; apply returns_ret].
    + intros H. apply orb_prop in H as [H|H].
      * apply setsFlag_bind; [now apply Hxset|]. intros y.
        apply keepsFlag_bind; [now apply mapM_keepsFlag | intros; apply keepsFlag_ret].
      * apply setsFlag_after; [exact Hx|]. intros y.
        apply setsFlag_bind; [now apply Hxsset | intros; apply keepsFlag_ret].
Qed.

Lemma existsb_In {A} (f : A -> bool) (x : A) (xs : list A) :
  In x xs -> f x = true -> existsb f xs = true.
Proof. intros Hin Hx. apply existsb_exists. eauto. Qed.

Section Shown.

Variable tex2typst : string -> Outcome string.
Variable defs : gmap string DefinitionNode.
Variable fns : gmap string FootnoteDefinition.
Variable callback : option ErrorCallback.

Hypothesis callback_quiet : quiet callback.

Let ctx := {| definitions := defs; footnoteDefinitions := fns; onError := callback |}.

(** Every renderer leaves a set flag set. *)
Lemma renderers_keep_flag (fuel : nat) :
  relatedAt tex2typst (fun b _ => b = true) anyUrl defs fns callback callback fuel.
Proof.
  apply renderers_related.
  - intros url _. now apply renderImage_related.
  - apply sameCallback_refl.
  - intros key def _. apply nodesOk_any.
Qed.

(** With [fuel] units of stack, a renderer returns on content it has the
    stack for, and sets the flag when a remote image is shown in it. *)
Definition shownAt (fuel : nat) : Prop :=
  (forall node i, 3 * height node <= fuel ->
     reaches (renderBlock tex2typst fuel node i ctx) (blockShowsRemoteImage defs node))
  /\ (forall depth children i, 3 * heights children + 2 <= fuel ->
        reaches (renderHeading tex2typst fuel depth children i ctx)
                (existsb showsRemoteImage children))
  /\ (forall children, 3 * heights children + 2 <= fuel ->
        reaches (renderParagraph tex2typst fuel children ctx)
                (negb (isToc defs children) && existsb showsRemoteImage children))
  /\ (forall ordered items i, 3 * list_max (map heights items) + 2 <= fuel ->
        reaches (renderList tex2typst fuel ordered items i ctx)
                (existsb (existsb (blockShowsRemoteImage defs)) items))
  /\ (forall children marker i, 3 * heights children + 1 <= fuel ->
        reaches (renderListItem tex2typst fuel children marker i ctx)
                (existsb (blockShowsRemoteImage defs) children))
  /\ (forall align rows i,
        3 * list_max (map (fun row => list_max (map heights row)) rows) + 2 <= fuel ->
        reaches (renderTable tex2typst fuel align rows i ctx)
                (blockShowsRemoteImage defs (NTable align rows)))
  /\ (forall children i, 3 * heights children + 2 <= fuel ->
        reaches (renderBlockquote tex2typst fuel children i ctx)
                (existsb (blockShowsRemoteImage defs) children))
  /\ (forall nodes, 3 * heights nodes + 1 <= fuel ->
        reaches (renderInlines tex2typst fuel nodes ctx) (existsb showsRemoteImage nodes))
  /\ (forall node, 3 * height node <= fuel ->
        reaches (renderInline tex2typst fuel node ctx) (showsRemoteImage node))
  /\ (forall url children, 3 * heights children + 2 <= fuel ->
        reaches (renderLink tex2typst fuel url children ctx)
                (existsb showsRemoteImage children))
  /\ (forall identifier label children, 3 * heights children + 2 <= fuel ->
        reaches (renderLinkReference tex2typst fuel identifier label children ctx)
                (existsb showsRemoteImage children)).

Lemma shownAt_zero : shownAt 0.
Proof.
  unfold shownAt. repeat apply conj; intros; try lia.
  all: match goal with H : 3 * height ?n <= 0 |- _ => pose proof (height_pos n); lia end.
Qed.

Lemma reaches_quiet {A} (m : M A) : returns m -> reaches m false.
Proof. intros H. split; [exact H | discriminate]. Qed.

Lemma returns_renderImage (url : string) : returns (renderImage url).
Proof.
  intros st. unfold renderImage. destruct (isExternalUrl url); cbn; eauto.
Qed.

Lemma reaches_renderImage (url : string) : reaches (renderImage url) (isExternalUrl url).
Proof.
  split; [apply returns_renderImage|]. intros Hurl s. unfold renderImage. now rewrite Hurl.
Qed.

Lemma keepsFlag_try {A} (m : M A) (h : Exn -> M A) :
  keepsFlag m -> (forall e, keepsFlag (h e)) -> keepsFlag (tryCatch m h).
Proof.
  intros Hm Hh s Hs. unfold tryCatch. specialize (Hm s Hs).
  destruct (m s) as [[a|e] s1]; [exact Hm | now apply Hh].
Qed.

Ltac bound := unfold heights in *; cbn [height] in *; lia.

Lemma shownAt_succ (fuel : nat) : shownAt fuel -> shownAt (S fuel).
Proof.
  intros (Hblock & Hheading & Hparagraph & Hlist & Hitem & Htable & Hquote
          & Hinlines & Hinline & Hlink & Hreference).
  pose proof (renderers_keep_flag fuel) as K. unfold relatedAt in K. cbv zeta in K.
  destruct K as (Kblock & Kheading & Kparagraph & Klist & Kitem & Ktable & Kquote
                 & Kinlines & Kinline & Klink & Kreference).
  assert (Kb : forall node i, keepsFlag (renderBlock tex2typst fuel node i ctx))
    by (intros; apply related_keepsFlag, Kblock, nodeOk_any).
  assert (Kl : forall ordered items i, keepsFlag (renderList tex2typst fuel ordered items i ctx))
    by (intros; apply related_keepsFlag, Klist; intros; apply nodesOk_any).
  assert (Ki : forall children marker i,
             keepsFlag (renderListItem tex2typst fuel children marker i ctx))
    by (intros; apply related_keepsFlag, Kitem, nodesOk_any).
  assert (Kis : forall nodes, keepsFlag (renderInlines tex2typst fuel nodes ctx))
    by (intros; apply related_keepsFlag, Kinlines, nodesOk_any).
  assert (Kin : forall node, keepsFlag (renderInline tex2typst fuel node ctx))
    by (intros; apply related_keepsFlag, Kinline, nodeOk_any).
  assert (Kp : forall children, keepsFlag (renderParagraph tex2typst fuel children ctx))
    by (intros; apply related_keepsFlag, Kparagraph, nodesOk_any).
  clear Kblock Kheading Kparagraph Klist Kitem Ktable Kquote Kinlines Kinline Klink Kreference.
  unfold shownAt. repeat apply conj.
  - (* renderBlock *)
    intros node i Hh. rewrite renderBlock_S. split.
    + apply returns_catch. intros e. now apply returns_warn.
    + intros Hshown. apply setsFlag_try; [|intros e; apply keepsFlag_warn].
      destruct node; try discriminate Hshown;
        cbn [renderBlockDispatch]; (apply setsFlag_bind; [|intros; apply keepsFlag_ret]).
      * destruct (Hheading depth children i) as [_ H]; [bound | now apply H].
      * destruct (Hparagraph children) as [_ H]; [bound | now apply H].
      * destruct (Hlist ordered items i) as [_ H]; [bound | now apply H].
      * destruct (Hquote children i) as [_ H]; [bound | now apply H].
      * destruct (Htable align rows i) as [_ H]; [bound | now apply H].
  - (* renderHeading *)
    intros depth children i Hh. cbn [renderHeading]. apply reaches_ret, Hinlines. lia.
  - (* renderParagraph *)
    intros children Hh. cbn [renderParagraph]. cbn [definitions ctx]. unfold isToc.
    destruct (String.eqb _ _); cbn [negb andb].
    + apply reaches_quiet, returns_ret.
    + apply Hinlines. lia.
  - (* renderList *)
    intros ordered items i Hh. cbn [renderList]. apply reaches_ret, reaches_mapM.
    + intros item Hin. apply Hitem. pose proof (heights_item item items Hin). lia.
    + intros item. apply Ki.
  - (* renderListItem *)
    intros children marker i Hh. cbn [renderListItem].
    set (renderChild := fun child : Node => _).
    assert (Hchild : forall child, In child children ->
              reaches (renderChild child) (blockShowsRemoteImage defs child)).
    { intros child Hin. pose proof (heights_In child children Hin) as Hle.
      destruct child; subst renderChild; cbv beta iota; apply reaches_ret;
        try (apply Hblock; lia).
      apply Hlist. cbn [height] in Hle. fold heights in Hle. lia. }
    assert (Kchild : forall child, keepsFlag (renderChild child)).
    { intros child. destruct child; subst renderChild; cbv beta iota;
        (apply keepsFlag_bind; [|intros; apply keepsFlag_ret]); try apply Kb. apply Kl. }
    assert (Hall : reaches (pushed <- mapM renderChild children ;;
                            ret (Js.join nl ((Js.repeat "  " i +:+ marker) :: omap id pushed)))
                           (existsb (blockShowsRemoteImage defs) children)).
    { apply reaches_ret. now apply reaches_mapM. }
    destruct children as [|first rest]; [exact Hall|].
    destruct first; try exact Hall.
    assert (Hfirst : reaches (renderParagraph tex2typst fuel children ctx)
                             (blockShowsRemoteImage defs (NParagraph children))).
    { apply Hparagraph.
      pose proof (heights_In (NParagraph children) (NParagraph children :: rest)
                    (or_introl eq_refl)) as Hle.
      cbn [height] in Hle. fold (heights children) in Hle. lia. }
    assert (Hrest : reaches (mapM renderChild rest)
                            (existsb (blockShowsRemoteImage defs) rest)).
    { apply reaches_mapM; [|exact Kchild]. intros child Hin. apply Hchild. now right. }
    destruct Hfirst as [Hf1 Hf2], Hrest as [Hr1 Hr2]. split.
    + apply returns_bind; [exact Hf1|]. intros p.
      apply returns_bind; [exact Hr1 | intros; apply returns_ret].
    + cbn [existsb]. intros H. apply orb_prop in H as [H|H].
      * apply setsFlag_bind; [now apply Hf2|]. intros p.
        apply keepsFlag_bind; [now apply mapM_keepsFlag | intros; apply keepsFlag_ret].
      * apply setsFlag_after; [exact Hf1|]. intros p.
        apply setsFlag_bind; [now apply Hr2 | intros; apply keepsFlag_ret].
  - (* renderTable *)
    intros align rows i Hh. cbn [renderTable]. split.
    + apply returns_catch. intros e. now apply returns_warn.
    + intros Hshown. apply setsFlag_try; [|intros e; apply keepsFlag_warn].
      cbn [blockShowsRemoteImage] in Hshown.
      destruct rows as [|headerRow dataRows]; [discriminate|].
      apply andb_prop in Hshown as [Hlen Hshown].
      destruct (length headerRow) eqn:Hn; [discriminate|].
      rewrite existsb_app in Hshown.
      assert (Hcell : forall (wrap : string -> string) cells,
                (forall cell, In cell cells -> In cell (headerRow ++ concat dataRows)) ->
                reaches (mapM (fun cell => content <- renderInlines tex2typst fuel cell ctx ;;
                                           ret (wrap content)) cells)
                        (existsb (existsb showsRemoteImage) cells)).
      { intros wrap cells Hsub. apply reaches_mapM.
        - intros cell Hin. apply reaches_ret, Hinlines.
          assert (Hle : heights cell
                        <= list_max (map (fun row => list_max (map heights row))
                                         (headerRow :: dataRows))).
          { apply Hsub, in_app_or in Hin as [Hin|Hin].
            - apply (heights_cell cell headerRow); [now left | exact Hin].
            - apply in_concat in Hin as (row & Hrow & Hin).
              apply (heights_cell cell row); [now right | exact Hin]. }
          lia.
        - intros cell. apply keepsFlag_bind; [apply Kis | intros; apply keepsFlag_ret]. }
      destruct (Hcell (fun content => "[*" +:+ content +:+ "*]") headerRow) as [Hh1 Hh2];
        [intros; apply in_or_app; now left|].
      destruct (Hcell (fun content => "[" +:+ content +:+ "]") (concat dataRows))
        as [Hd1 Hd2]; [intros; apply in_or_app; now right|].
      apply orb_prop in Hshown as [H|H].
      * apply setsFlag_bind; [now apply Hh2|]. intros headerCells.
        apply keepsFlag_bind; [|intros; apply keepsFlag_ret].
        apply mapM_keepsFlag. intros cell.
        apply keepsFlag_bind; [apply Kis | intros; apply keepsFlag_ret].
      * apply setsFlag_after; [exact Hh1|]. intros headerCells.
        apply setsFlag_bind; [now apply Hd2 | intros; apply keepsFlag_ret].
  - (* renderBlockquote *)
    intros children i Hh. cbn [renderBlockquote]. apply reaches_bind.
    + apply reaches_mapM; [|intros; apply Kb].
      intros child Hin. apply Hblock. pose proof (heights_In child children Hin). lia.
    + intros rendered. destruct (negb _); apply returns_ret.
    + intros rendered. destruct (negb _); apply keepsFlag_ret.
  - (* renderInlines *)
    intros nodes Hh. cbn [renderInlines]. apply reaches_ret, reaches_mapM; [|exact Kin].
    intros node Hin. apply Hinline. pose proof (heights_In node nodes Hin). lia.
  - (* renderInline *)
    intros node Hh. cbn [renderInline].
    destruct node; cbn [showsRemoteImage];
      try (apply reaches_quiet, returns_ret);
      try (apply reaches_ret, Hinlines; bound).
    + (* footnote reference *)
      apply reaches_quiet. cbn [footnoteDefinitions ctx].
      destruct (fns !! Js.toLowerCase identifier) as [def|].
      * apply returns_catch. intros e. now apply returns_warn.
      * now apply returns_warn.
    + (* inline math *)
      apply reaches_quiet. unfold renderInlineMath. apply returns_catch.
      intros e. now apply returns_warn.
    + (* image *)
      apply reaches_ret, reaches_renderImage.
    + (* link *)
      apply reaches_ret, Hlink. bound.
    + (* link reference *)
      apply Hreference. bound.
  - (* renderLink *)
    intros url children Hh. cbn [renderLink]. apply reaches_bind.
    + apply Hinlines. lia.
    + intros label. destruct (negb _); apply returns_ret.
    + intros label. destruct (negb _); apply keepsFlag_ret.
  - (* renderLinkReference *)
    intros identifier label children Hh. cbn [renderLinkReference]. cbn [definitions ctx].
    apply reaches_bind.
    + apply Hinlines. lia.
    + intros rendered. destruct (defs !! Js.toLowerCase identifier).
      * apply returns_try. destruct (negb _); apply returns_ret.
      * now apply returns_warn.
    + intros rendered. destruct (defs !! Js.toLowerCase identifier).
      * apply keepsFlag_try; [destruct (negb _); apply keepsFlag_ret|].
        intros e. apply keepsFlag_warn.
      * apply keepsFlag_warn.
Qed.

Lemma renderers_shown (fuel : nat) : shownAt fuel.
Proof.
  induction fuel as [|fuel IH]; [apply shownAt_zero | now apply shownAt_succ].
Qed.

End Shown.

Lemma occursIn_join (sep x : string) (xs : list string) :
  In x xs -> occursIn x (Js.join sep xs).
Proof.
  induction xs as [|y ys IH]; [intros []|]. intros [->|Hin].
  - destruct (join_head sep x ys) as [tail ->]. now exists "", tail.
  - destruct ys as [|z zs]; [destruct Hin|].
    destruct (IH Hin) as (pre & post & Heq). rewrite join_cons2, Heq.
    exists (y +:+ sep +:+ pre), post. now rewrite !append_assoc.
Qed.

Lemma In_nodesForBody (node : Node) (tree : Root) (metadata : DocumentMetadata)
    (leadingTitleIndex : option nat) :
  In node (nodesForBody tree metadata leadingTitleIndex) -> In node tree.
Proof.
  unfold nodesForBody. destruct leadingTitleIndex as [i|]; [|exact (fun H => H)].
  destruct (negb _); [apply In_dropIndex | exact (fun H => H)].
Qed.

(** A block is a node of the body unless it is a heading of depth 1 and
    the leading heading was looked for. *)
Lemma nodesForBody_keeps (block : Node) (tree : Root) (defs : gmap string DefinitionNode)
    (metadata : DocumentMetadata) (useH1AsTitle : bool) :
  let leadingH1 := if useH1AsTitle then findLeadingH1From tree defs 0 else None in
  In block tree ->
  (useH1AsTitle = true -> forall children, block <> NHeading 1 children) ->
  In block (nodesForBody tree metadata (snd <$> leadingH1)).
Proof.
  intros leadingH1 Hin Hblock. subst leadingH1.
  destruct useH1AsTitle; [|exact Hin]. specialize (Hblock eq_refl).
  destruct (findLeadingH1From tree defs 0) as [[text index]|] eqn:Hfound; [|exact Hin].
  apply findLeadingH1From_found in Hfound
    as (before & children & after & -> & _ & -> & _).
  cbn [fmap option_fmap option_map snd]. unfold nodesForBody.
  destruct (negb _); [|exact Hin].
  cbn [Nat.add]. rewrite dropIndex_middle.
  apply in_app_or in Hin as [Hin|[Heq|Hin]]; apply in_or_app; [now left| |now right].
  now elim (Hblock children).
Qed.

Section ShownInOutput.

Variable remark : string -> Outcome Root.
Variable tex2typst : string -> Outcome string.
Variable parseYaml : string -> Outcome YamlValue.
Variable langsCodes1 : list string.
Variable langsAll : list LangEntry.
Variable langsWhere : string -> string -> option LangEntry.
Variable getCodes : list string.
Variable getCode : string -> option string.
Variable toUpperCase : string -> string.

Lemma buildOutput_shape (fuel : nat) (tree : Root) (metadata : DocumentMetadata)
    (leadingTitleIndex : option nat) (ctx : RenderContext) (st st' : State) (out : string) :
  buildOutput tex2typst fuel tree metadata leadingTitleIndex ctx st = (Ok out, st') ->
  exists header body s1,
    renderBody tex2typst fuel (nodesForBody tree metadata leadingTitleIndex) ctx st
    = (Ok body, s1)
    /\ externalImages st' = externalImages s1
    /\ Forall notPreamble header
    /\ out = Js.join nl
               (header ++ preambleParts (externalImages st')
                  ++ bodyParts (header ++ preambleParts (externalImages st')) body).
Proof.
  intros H. unfold buildOutput in H.
  apply tryCatch_Ok in H as [H|(e & s1 & _ & H)].
  - apply bind_Ok in H as ([parts body] & s1 & Hparts & H).
    apply ret_Ok in H as [<- <-].
    apply outputParts_shape in Hparts as (header & s2 & Hbody & Hflag & Hheader & ->).
    exists header, body, s2. repeat (split; [assumption|]).
    destruct (0 <? _)%nat eqn:Hlen; [reflexivity|].
    apply Nat.ltb_ge in Hlen. rewrite !length_app in Hlen.
    destruct header; [|simpl in Hlen; lia].
    destruct (externalImages s1); [simpl in Hlen; lia|].
    unfold bodyParts in *. destruct (Js.truthy body) eqn:Hbody'.
    + simpl in Hlen. lia.
    + destruct body; [reflexivity | discriminate].
  - apply bind_Ok in H as ([] & s2 & _ & H). discriminate H.
Qed.

Lemma notPreamble_not_In (header : list string) :
  Forall notPreamble header -> ~ In warningsSection header.
Proof.
  intros H Hin. rewrite List.Forall_forall in H. specialize (H _ Hin).
  unfold notPreamble in H. now rewrite String.eqb_refl in H.
Qed.

(** The body sets the flag when a remote image is shown in one of its
    blocks. *)
Lemma renderBody_shown (fuel : nat) (nodes : list Node) (ctx : RenderContext) :
  quiet (onError ctx) ->
  3 * heights nodes <= fuel ->
  existsb (blockShowsRemoteImage (definitions ctx)) nodes = true ->
  setsFlag (renderBody tex2typst fuel nodes ctx).
Proof.
  intros Hq Hfuel Hshown. destruct ctx as [defs fns callback]. cbn in Hq, Hshown.
  unfold renderBody. apply setsFlag_bind; [|intros; apply keepsFlag_ret].
  refine (proj2 (reaches_mapM _ (blockShowsRemoteImage defs) nodes _ _) Hshown).
  - intros node Hin.
    apply (renderers_shown tex2typst defs fns callback Hq fuel).
    pose proof (heights_In node nodes Hin). lia.
  - intros node s. apply renderBlock_keeps_flag.
Qed.

Lemma buildOutput_shown (fuel : nat) (tree : Root) (metadata : DocumentMetadata)
    (leadingTitleIndex : option nat) (ctx : RenderContext) (st : State) :
  quiet (onError ctx) ->
  3 * heights tree <= fuel ->
  existsb (blockShowsRemoteImage (definitions ctx))
          (nodesForBody tree metadata leadingTitleIndex) = true ->
  exists out st' header body,
    buildOutput tex2typst fuel tree metadata leadingTitleIndex ctx st = (Ok out, st')
    /\ externalImages st' = true
    /\ ~ In warningsSection header
    /\ out = Js.join nl
               (header ++ [""; warningsSection]
                  ++ bodyParts (header ++ [""; warningsSection]) body)
    /\ occursIn warningsSection out.
Proof.
  intros Hq Hfuel Hshown.
  assert (Hbody : 3 * heights (nodesForBody tree metadata leadingTitleIndex) <= fuel).
  { pose proof (heights_incl (nodesForBody tree metadata leadingTitleIndex) tree
                  (fun node => In_nodesForBody node tree metadata leadingTitleIndex)).
    lia. }
  destruct fuel as [|fuel].
  { apply existsb_exists in Hshown as (block & Hin & _).
    pose proof (heights_In block _ Hin). pose proof (height_pos block). lia. }
  destruct (buildOutput_returns tex2typst fuel tree metadata leadingTitleIndex ctx Hq st)
    as (out & st' & Hout).
  destruct (buildOutput_shape _ _ _ _ _ _ _ _ Hout)
    as (header & body & s1 & Hrender & Hflag & Hheader & Hshape).
  pose proof (renderBody_shown (S fuel) _ ctx Hq Hbody Hshown st) as Hset.
  rewrite Hrender in Hset. cbn [snd] in Hset. rewrite Hset in Hflag.
  rewrite Hflag in Hshape. cbn [preambleParts] in Hshape.
  exists out, st', header, body. repeat (split; [first [assumption | now apply notPreamble_not_In]|]).
  rewrite Hshape. apply occursIn_join, in_or_app. right. right. now left.
Qed.

Lemma bind_step {A B} (m : M A) (k : A -> M B) (s s1 : State) (a : A) :
  m s = (Ok a, s1) -> bind m k s = k a s1.
Proof. intros H. unfold bind. now rewrite H. Qed.

(** The whole conversion: a remote image shown in a block of the document
    brings the preamble into the output; when the leading heading is taken
    as the title, the block must not be a heading of depth 1. *)
Lemma markdown2typst_shown (fuel : nat) (markdown : string) (options : Markdown2TypstOptions)
    (tree : Root) (block : Node) (st : State) :
  remark markdown = Ok tree ->
  quiet (opt_onError options) ->
  3 * heights tree <= fuel ->
  In block tree ->
  blockShowsRemoteImage (definitionsOf tree ∅) block = true ->
  (opt_useH1AsTitle options = true -> forall children, block <> NHeading 1 children) ->
  exists out st' header body,
    markdown2typst remark tex2typst parseYaml langsCodes1 langsAll langsWhere getCodes
      getCode toUpperCase fuel markdown options st
    = (Ok out, st')
    /\ externalImages st' = true
    /\ ~ In warningsSection header
    /\ out = Js.join nl
               (header ++ [""; warningsSection]
                  ++ bodyParts (header ++ [""; warningsSection]) body)
    /\ occursIn warningsSection out.
Proof.
  intros Htree Hq Hfuel Hin Hshown Hblock.
  unfold markdown2typst.
  set (callback := opt_onError options) in *.
  assert (Hparse : parseMarkdown remark markdown callback st = (Ok tree, st)).
  { unfold parseMarkdown, tryCatch, liftOutcome. now rewrite Htree. }
  destruct (parseFrontmatter_returns parseYaml tree callback Hq
              (addReports (addReports st (noted callback (duplicatesOf tree ∅)))
                          (noted callback (duplicateFootnotesOf tree ∅))))
    as (frontmatter & s3 & Hfront).
  set (leading := if opt_useH1AsTitle options
                  then findLeadingH1From tree (definitionsOf tree ∅) 0 else None).
  assert (Hleading : (if opt_useH1AsTitle options
                      then findLeadingH1 tree (definitionsOf tree ∅) callback
                      else ret None) s3 = (Ok leading, s3)).
  { unfold leading. now destruct (opt_useH1AsTitle options). }
  set (metadata := mergeMetadata langsCodes1 langsAll langsWhere getCodes getCode
                     toUpperCase options frontmatter (fst <$> leading)).
  set (ctx := {| definitions := definitionsOf tree ∅;
                 footnoteDefinitions := footnotesOf tree ∅;
                 onError := callback |}).
  destruct (buildOutput_shown fuel tree metadata (snd <$> leading) ctx
              {| externalImages := false; reported := reported s3 |} Hq Hfuel)
    as (out & st' & header & body & Hout & Hrest).
  { apply existsb_In with (x := block); [|exact Hshown].
    exact (nodesForBody_keeps block tree (definitionsOf tree ∅) metadata
             (opt_useH1AsTitle options) Hin Hblock). }
  exists out, st', header, body. split; [|exact Hrest].
  unfold tryCatch.
  rewrite (bind_step _ _ _ _ _ Hparse).
  rewrite (bind_step _ _ _ _ _ (collectDefinitions_quiet callback tree st Hq)).
  rewrite (bind_step _ _ _ _ _ (collectFootnotes_quiet callback tree _ Hq)).
  rewrite (bind_step _ _ _ _ _ Hfront).
  rewrite (bind_step _ _ _ _ _ Hleading).
  unfold bind at 1. unfold freshWarnings at 1.
  fold metadata. fold ctx. now rewrite Hout.
Qed.



End ShownInOutput.


(** * A callback that acts on what it can reach

    The renderers call the callback as a method of the render context,
    [context.onError({...})], so inside the callback [this] is the live
    context, with its warnings record and its two maps; and the caller who
    wrote the callback holds the options object, which [markdown2typst]
    reads again after the first stages have run.  In this second embedding
    of the pipeline a callback is therefore a function of the error and of
    the world it can reach, which it may change before it returns or throws.

    Conventions.
    - The world holds the content of the options object, of the warnings
      record and of the two maps.  The maps are changed in place, and a
      renderer sees the content of a map at the moment of its [get].
    - The callback of a run is fixed: it is the argument [onError] of
      [markdown2typst], the function the caller put in [options.onError];
      the [opt_onError] field of the options in the world is not read.
    - Before the context is created, at stage 5, the three context fields
      of the world are not in reach; [createContext] overwrites them. *)

Declare Scope effect_scope.

Module Effectful.

Record World := {
  options : Markdown2TypstOptions;
  externalImages : bool;
  definitions : gmap string DefinitionNode;
  footnoteDefinitions : gmap string FootnoteDefinition
}.

(** A callback is handed the error in a world: it returns normally
    ([None]) or throws ([Some e]), and leaves a world. *)
Definition ErrorCallback := ConversionError -> World -> option Exn * World.

Definition E (A : Type) : Type := World -> Outcome A * World.

Definition ret {A} (a : A) : E A := fun w => (Ok a, w).

Definition throw {A} (e : Exn) : E A := fun w => (Throw e, w).

Definition bind {A B} (m : E A) (k : A -> E B) : E B :=
  fun w =>
    match m w with
    | (Ok a, w') => k a w'
    | (Throw e, w') => (Throw e, w')
    end.

Notation "x <- m ;; k" := (bind m (fun x => k))
  (at level 100, m at next level, right associativity) : effect_scope.
Notation "m ;;; k" := (bind m (fun _ => k))
  (at level 100, right associativity) : effect_scope.
Local Open Scope effect_scope.

Definition tryCatch {A} (m : E A) (handler : Exn -> E A) : E A :=
  fun w =>
    match m w with
    | (Ok a, w') => (Ok a, w')
    | (Throw e, w') => handler e w'
    end.

Definition liftOutcome {A} (o : Outcome A) : E A := fun w => (o, w).

Fixpoint mapM {A B} (f : A -> E B) (xs : list A) : E (list B) :=
  match xs with
  | [] => ret []
  | x :: xs' => y <- f x ;; ys <- mapM f xs' ;; ret (y :: ys)
  end.

(** [if (onError) { onError(error) }] *)
Definition report (onError : option ErrorCallback) (error : ConversionError) : E unit :=
  fun w =>
    match onError with
    | None => (Ok tt, w)
    | Some callback =>
        match callback error w with
        | (None, w') => (Ok tt, w')
        | (Some e, w') => (Throw e, w')
        end
    end.

(** [context.warnings.externalImages = true] *)
Definition markExternalImages : E unit :=
  fun w => (Ok tt, {| options := options w; externalImages := true;
                      definitions := definitions w;
                      footnoteDefinitions := footnoteDefinitions w |}).

(** [context.warnings.externalImages], read. *)
Definition readExternalImages : E bool := fun w => (Ok (externalImages w), w).

(** The content of [context.definitions], read. *)
Definition readDefinitions : E (gmap string DefinitionNode) :=
  fun w => (Ok (definitions w), w).

(** [definitions.get(key)] *)
Definition getDefinition (key : string) : E (option DefinitionNode) :=
  fun w => (Ok (definitions w !! key), w).

(** [footnoteDefinitions.get(key)] *)
Definition getFootnote (key : string) : E (option FootnoteDefinition) :=
  fun w => (Ok (footnoteDefinitions w !! key), w).

(** The options object, read. *)
Definition readOptions : E Markdown2TypstOptions := fun w => (Ok (options w), w).

(** The context literal of stage 5: the maps just collected and a fresh
    warnings record. *)
Definition createContext (defs : gmap string DefinitionNode)
    (fns : gmap string FootnoteDefinition) : E unit :=
  fun w => (Ok tt, {| options := options w; externalImages := false;
                      definitions := defs; footnoteDefinitions := fns |}).

(** ** Modules [inline-renderer] and [block-renderer] *)

Definition renderImage (url : string) : E string :=
  if isExternalUrl url then
    markExternalImages ;;;
    tryCatch
      (ret ("#external-image(" +:+ nl +:+ "  " +:+ dq +:+ escapeTypstString url +:+ dq +:+ nl +:+ ")"))
      (fun _ => ret ("#external-image(" +:+ nl +:+ "  " +:+ dq +:+ url +:+ dq +:+ nl +:+ ")"))
  else
    tryCatch
      (ret ("#image(" +:+ dq +:+ escapeTypstString url +:+ dq +:+ ")"))
      (fun _ => ret ("#image(" +:+ dq +:+ url +:+ dq +:+ ")")).

Section Renderers.

Variable tex2typst : string -> Outcome string.

(** The callback of the run, as the context holds it. *)
Variable onError : option ErrorCallback.

Definition renderMathBlock (value : string) (indentLevel : nat) : E string :=
  let value := Js.trim value in
  tryCatch
    (typstMath <- liftOutcome (tex2typst value) ;;
     ret (indentLines ("$ " +:+ typstMath +:+ " $") indentLevel))
    (fun error =>
       report onError (blockMathFailed value error) ;;;
       ret (indentLines ("$ " +:+ value +:+ " $") indentLevel)).

Definition renderInlineMath (value : string) (position : option Position)
    : E (option string) :=
  let value := Js.trim value in
  tryCatch
    (typstMath <- liftOutcome (tex2typst value) ;;
     let isDisplay := isDisplayMath position value in
     ret (Some (if isDisplay then "$ " +:+ typstMath +:+ " $"
                else "$" +:+ typstMath +:+ "$")))
    (fun error =>
       report onError (inlineMathFailed value error) ;;;
       let isDisplay := isDisplayMath position value in
       ret (Some (if isDisplay then "$ " +:+ value +:+ " $"
                  else "$" +:+ value +:+ "$"))).

Fixpoint renderBlock (fuel : nat) (node : Node) (indentLevel : nat)
    {struct fuel} : E (option string) :=
  match fuel with
  | O => throw stackOverflow
  | S fuel =>
      tryCatch
        (match node with
         | NYaml _ | NDefinition _ | NFootnoteDefinition _ _ => ret None
         | NHeading depth children =>
             s <- renderHeading fuel depth children indentLevel ;; ret (Some s)
         | NParagraph children =>
             s <- renderParagraph fuel children ;;
             ret (Some (indentLines s indentLevel))
         | NList ordered items =>
             s <- renderList fuel ordered items indentLevel ;; ret (Some s)
         | NCode lang value => ret (Some (renderCodeBlock lang value indentLevel))
         | NBlockquote children =>
             s <- renderBlockquote fuel children indentLevel ;; ret (Some s)
         | NThematicBreak =>
             ret (Some (indentLines "#line(length: 100%, stroke: 0.6pt)" indentLevel))
         | NTable align rows =>
             s <- renderTable fuel align rows indentLevel ;; ret (Some s)
         | NMath value =>
             s <- renderMathBlock value indentLevel ;; ret (Some s)
         | _ =>
             report onError (unknownBlock node) ;;; ret None
         end)
        (fun error =>
           report onError (blockFailed node error) ;;; ret None)
  end

with renderHeading (fuel : nat) (depth : nat) (children : list Node) (indentLevel : nat)
    {struct fuel} : E string :=
  match fuel with
  | O => throw stackOverflow
  | S fuel =>
      let level := Nat.min (Nat.max depth 1) 6 in
      s <- renderInlines fuel children ;;
      ret (indentLines (Js.repeat "=" level +:+ " " +:+ s) indentLevel)
  end

with renderParagraph (fuel : nat) (children : list Node) {struct fuel} : E string :=
  match fuel with
  | O => throw stackOverflow
  | S fuel =>
      defs <- readDefinitions ;;
      let text := Js.toLowerCase (Js.trim (plainTextFromPhrasing children defs)) in
      if String.eqb text "[toc]" then ret "#outline(title: auto, indent: auto)"
      else renderInlines fuel children
  end

with renderList (fuel : nat) (ordered : bool) (items : list (list Node)) (indentLevel : nat)
    {struct fuel} : E string :=
  match fuel with
  | O => throw stackOverflow
  | S fuel =>
      let marker := if ordered then "+" else "-" in
      rendered <- mapM (fun item => renderListItem fuel item marker indentLevel) items ;;
      ret (Js.join nl (List.filter Js.truthy rendered))
  end

with renderListItem (fuel : nat) (children : list Node) (marker : string) (indentLevel : nat)
    {struct fuel} : E string :=
  match fuel with
  | O => throw stackOverflow
  | S fuel =>
      let baseIndent := Js.repeat "  " indentLevel in
      let nestedIndentLevel := indentLevel + 1 in
      let renderChild (child : Node) : E (option string) :=
        match child with
        | NList ordered items =>
            s <- renderList fuel ordered items nestedIndentLevel ;; ret (Some s)
        | _ =>
            rendered <- renderBlock fuel child nestedIndentLevel ;;
            ret (if isNonEmpty rendered then rendered else None)
        end in
      match children with
      | NParagraph first :: rest =>
          p <- renderParagraph fuel first ;;
          pushed <- mapM renderChild rest ;;
          ret (Js.join nl ((baseIndent +:+ marker +:+ " " +:+ p) :: omap id pushed))
      | _ =>
          pushed <- mapM renderChild children ;;
          ret (Js.join nl ((baseIndent +:+ marker) :: omap id pushed))
      end
  end

with renderTable (fuel : nat) (align : option (list (option AlignType)))
    (rows : list (list (list Node))) (indentLevel : nat) {struct fuel} : E string :=
  match fuel with
  | O => throw stackOverflow
  | S fuel =>
      tryCatch
        (match rows with
         | [] => report onError emptyTable ;;; ret ""
         | headerRow :: dataRows =>
             let colCount := length headerRow in
             match colCount with
             | O => report onError noColumns ;;; ret ""
             | _ =>
                 let aligns := map alignName (default [] align) in
                 let columns := Js.join ", " (replicate colCount "1fr") in
                 headerCells <-
                   mapM (fun cell => content <- renderInlines fuel cell ;;
                                     ret ("[*" +:+ content +:+ "*]")) headerRow ;;
                 dataCells <-
                   mapM (fun cell => content <- renderInlines fuel cell ;;
                                     ret ("[" +:+ content +:+ "]")) (concat dataRows) ;;
                 let alignArgs := Js.join ", " (take colCount aligns) in
                 let lines :=
                   [ "#table(";
                     "  columns: (" +:+ columns +:+ "),";
                     "  align: (" +:+ alignArgs +:+ "),";
                     "  table.header(" +:+ Js.join ", " headerCells +:+ "),";
                     "  " +:+ Js.join ", " dataCells;
                     ")" ] in
                 ret (indentLines (Js.join nl lines) indentLevel)
             end
         end)
        (fun error => report onError (tableFailed error) ;;; ret "")
  end

with renderBlockquote (fuel : nat) (children : list Node) (indentLevel : nat)
    {struct fuel} : E string :=
  match fuel with
  | O => throw stackOverflow
  | S fuel =>
      rendered <- mapM (fun child => renderBlock fuel child 0) children ;;
      let body := Js.join (nl +:+ nl) (filterNonEmpty rendered) in
      let open := indentLines "#quote[" indentLevel in
      if negb (Js.truthy (Js.trim body))
      then ret (open +:+ nl +:+ indentLines "]" indentLevel)
      else ret (Js.join nl [open; indentLines body (indentLevel + 1);
                            indentLines "]" indentLevel])
  end

with renderInlines (fuel : nat) (nodes : list Node) {struct fuel} : E string :=
  match fuel with
  | O => throw stackOverflow
  | S fuel =>
      rendered <- mapM (fun node => renderInline fuel node) nodes ;;
      ret (Js.join "" (filterNonEmpty rendered))
  end

with renderInline (fuel : nat) (node : Node) {struct fuel} : E (option string) :=
  match fuel with
  | O => throw stackOverflow
  | S fuel =>
      match node with
      | NText value => ret (Some (escapeTypstText value))
      | NStrong children =>
          s <- renderInlines fuel children ;; ret (Some ("*" +:+ s +:+ "*"))
      | NEmphasis children =>
          s <- renderInlines fuel children ;; ret (Some ("_" +:+ s +:+ "_"))
      | NDelete children =>
          s <- renderInlines fuel children ;; ret (Some ("#strike[" +:+ s +:+ "]"))
      | NMark children =>
          s <- renderInlines fuel children ;; ret (Some ("#highlight[" +:+ s +:+ "]"))
      | NSubscript children =>
          s <- renderInlines fuel children ;; ret (Some ("#sub[" +:+ s +:+ "]"))
      | NSuperscript children =>
          s <- renderInlines fuel children ;; ret (Some ("#super[" +:+ s +:+ "]"))
      | NFootnoteReference identifier =>
          found <- getFootnote (Js.toLowerCase identifier) ;;
          match found with
          | None =>
              report onError (footnoteMissing identifier) ;;; ret (Some "")
          | Some def =>
              tryCatch
                (rendered <- mapM (fun child => renderBlock fuel child 0)
                                  (fn_children def) ;;
                 let content := Js.join " " (filterNonEmpty rendered) in
                 ret (Some ("#footnote[" +:+ Js.trim content +:+ "]")))
                (fun error =>
                   report onError (footnoteFailed identifier error) ;;;
                   ret (Some ""))
          end
      | NInlineCode value => ret (Some (renderInlineCode value))
      | NInlineMath value position => renderInlineMath value position
      | NImage url => s <- renderImage url ;; ret (Some s)
      | NLink url children =>
          s <- renderLink fuel url children ;; ret (Some s)
      | NLinkReference identifier label children =>
          renderLinkReference fuel identifier label children
      | NBreak => ret (Some ("\" +:+ nl))
      | NHtml value => ret (Some (escapeTypstText value))
      | _ => ret None
      end
  end

with renderLink (fuel : nat) (url : string) (children : list Node) {struct fuel} : E string :=
  match fuel with
  | O => throw stackOverflow
  | S fuel =>
      let escaped := escapeTypstString url in
      label <- renderInlines fuel children ;;
      if negb (Js.truthy (Js.trim label))
      then ret ("#link(" +:+ dq +:+ escaped +:+ dq +:+ ")[" +:+ escapeTypstText url +:+ "]")
      else ret ("#link(" +:+ dq +:+ escaped +:+ dq +:+ ")[" +:+ label +:+ "]")
  end

with renderLinkReference (fuel : nat) (identifier : string) (label : option string)
    (children : list Node) {struct fuel} : E (option string) :=
  match fuel with
  | O => throw stackOverflow
  | S fuel =>
      def <- getDefinition (Js.toLowerCase identifier) ;;
      rendered <- renderInlines fuel children ;;
      let fallback :=
        Js.orElse rendered (escapeTypstText (Js.orElse (default "" label) identifier)) in
      match def with
      | None =>
          report onError (linkReferenceMissing identifier) ;;;
          ret (Some fallback)
      | Some def =>
          tryCatch
            (let escaped := escapeTypstString (def_url def) in
             if negb (Js.truthy (Js.trim rendered))
             then ret (Some ("#link(" +:+ dq +:+ escaped +:+ dq +:+ ")["
                             +:+ escapeTypstText (def_url def) +:+ "]"))
             else ret (Some ("#link(" +:+ dq +:+ escaped +:+ dq +:+ ")["
                             +:+ rendered +:+ "]")))
            (fun error =>
               report onError (linkReferenceFailed identifier error) ;;;
               ret (Some fallback))
      end
  end.

(** ** Module [output-builder] *)

Definition buildWarningsSection : E (option string) :=
  hasWarnings <- readExternalImages ;;
  if negb hasWarnings then ret None
  else ret (Some warningsSection).

Definition dateArg (date : string) : E string :=
  tryCatch
    (dateTypst <- liftOutcome (parseDate date) ;;
     ret ("date: " +:+ dateTypst))
    (fun error =>
       report onError (dateFailed date error) ;;;
       ret "date: auto").

Definition documentBlock (metadata : DocumentMetadata) : E (list string) :=
  tryCatch
    (let args1 :=
       (if Js.truthy (title metadata) then ["title: [" +:+ title metadata +:+ "]"] else [])
       ++ (if (0 <? length (authors metadata))%nat
           then ["author: " +:+ renderTypstArray (map quoted (authors metadata))] else [])
       ++ (if Js.truthyOpt (description metadata)
           then ["description: [" +:+ default "" (description metadata) +:+ "]"] else [])
       ++ (if nonEmptyList (keywords metadata)
           then ["keywords: " +:+ renderTypstArray (map quoted (default [] (keywords metadata)))]
           else []) in
     args2 <- (if Js.truthyOpt (date metadata)
               then a <- dateArg (default "" (date metadata)) ;; ret [a]
               else ret []) ;;
     ret (frontmatterHeader ++ ["#set document("] ++ docArgLines (args1 ++ args2) ++ [")"]))
    (fun error =>
       report onError (metadataFailed error) ;;;
       ret frontmatterHeader).

Definition renderBody (fuel : nat) (nodes : list Node) : E string :=
  rendered <- mapM (fun node => renderBlock fuel node 0) nodes ;;
  ret (Js.join (nl +:+ nl) (filterNonEmpty rendered)).

Definition headerParts (metadata : DocumentMetadata) : E (list string) :=
  let hasMeta := hasMetadata metadata in
  parts1 <- (if hasMeta then documentBlock metadata else ret []) ;;
  let parts2 :=
    if Js.truthyOpt (abstract metadata)
    then parts1 ++ (if (0 <? length parts1)%nat then [""] else [])
                ++ ["#let abstract = [" +:+ default "" (abstract metadata) +:+ "]"]
    else parts1 in
  let parts3 :=
    if (Js.truthy (title metadata) || (0 <? length (authors metadata))%nat
        || Js.truthyOpt (date metadata) || Js.truthyOpt (abstract metadata))
       && hasMeta
    then
      let centerLines :=
        (if Js.truthy (title metadata) then ["#title() \ \"] else [])
        ++ (if (0 <? length (authors metadata))%nat
            then ["#context document.author.join(" +:+ dq +:+ ", " +:+ dq +:+ ", last: "
                    +:+ dq +:+ " & " +:+ dq +:+ ") \ \"] else [])
        ++ (if Js.truthyOpt (date metadata)
            then ["#context document.date.display() \ \ "] else [])
        ++ (if Js.truthyOpt (abstract metadata)
            then ["\ *Abstract* \"; "#abstract"] else []) in
      parts2 ++ [""; "#align(center)["; "  " +:+ Js.join " " centerLines; "]"]
    else parts2 in
  let parts4 :=
    if Js.truthyOpt (lang metadata) || Js.truthyOpt (region metadata)
    then
      let textArgs :=
        (if Js.truthyOpt (lang metadata)
         then ["lang: " +:+ dq +:+ default "" (lang metadata) +:+ dq] else [])
        ++ (if Js.truthyOpt (region metadata)
            then ["region: " +:+ dq +:+ default "" (region metadata) +:+ dq] else []) in
      parts3 ++ (if (0 <? length parts3)%nat then [""] else [])
             ++ ["#set text(" +:+ Js.join ", " textArgs +:+ ")"]
    else parts3 in
  ret (if hasMeta
       then parts4 ++ [""; "//  ============================================"]
       else parts4).

Definition outputParts (fuel : nat) (tree : Root) (metadata : DocumentMetadata)
    (leadingTitleIndex : option nat) : E (list string * string) :=
  body <- renderBody fuel (nodesForBody tree metadata leadingTitleIndex) ;;
  parts <- headerParts metadata ;;
  section <- buildWarningsSection ;;
  let parts5 :=
    match section with
    | Some w => if Js.truthy w then parts ++ [""; w] else parts
    | None => parts
    end in
  let parts6 :=
    if (0 <? length parts5)%nat && Js.truthy body then parts5 ++ [""] else parts5 in
  let parts7 := if Js.truthy body then parts6 ++ [body] else parts6 in
  ret (parts7, body).

Definition buildOutput (fuel : nat) (tree : Root) (metadata : DocumentMetadata)
    (leadingTitleIndex : option nat) : E string :=
  tryCatch
    (r <- outputParts fuel tree metadata leadingTitleIndex ;;
     let '(parts, body) := r in
     ret (if (0 <? length parts)%nat then Js.join nl parts else body))
    (fun error =>
       report onError (outputFailed error) ;;;
       throw error).

(** ** Module [collectors] *)

Definition attempt (m : E unit) : E (option Exn) :=
  tryCatch (m ;;; ret None) (fun error => ret (Some error)).

Fixpoint collectDefinitionsLoop (nodes : list Node) (defs : gmap string DefinitionNode)
    : E (gmap string DefinitionNode * option Exn) :=
  match nodes with
  | [] => ret (defs, None)
  | NDefinition def :: rest =>
      let identifier := Js.toLowerCase (def_identifier def) in
      thrown <- attempt (match defs !! identifier with
                         | Some _ => report onError (duplicateDefinition def)
                         | None => ret tt
                         end) ;;
      match thrown with
      | Some error => ret (defs, Some error)
      | None => collectDefinitionsLoop rest (<[identifier := def]> defs)
      end
  | _ :: rest => collectDefinitionsLoop rest defs
  end.

Definition collectDefinitions (root : Root) : E (gmap string DefinitionNode) :=
  r <- collectDefinitionsLoop root ∅ ;;
  match r with
  | (defs, None) => ret defs
  | (defs, Some error) =>
      report onError (collectDefinitionsFailed error) ;;; ret defs
  end.

Fixpoint collectFootnotesLoop (nodes : list Node) (defs : gmap string FootnoteDefinition)
    : E (gmap string FootnoteDefinition * option Exn) :=
  match nodes with
  | [] => ret (defs, None)
  | NFootnoteDefinition ident children :: rest =>
      let identifier := Js.toLowerCase ident in
      thrown <- attempt (match defs !! identifier with
                         | Some _ => report onError (duplicateFootnote ident)
                         | None => ret tt
                         end) ;;
      match thrown with
      | Some error => ret (defs, Some error)
      | None =>
          collectFootnotesLoop rest
            (<[identifier := {| fn_identifier := ident; fn_children := children |}]> defs)
      end
  | _ :: rest => collectFootnotesLoop rest defs
  end.

Definition collectFootnotes (root : Root) : E (gmap string FootnoteDefinition) :=
  r <- collectFootnotesLoop root ∅ ;;
  match r with
  | (defs, None) => ret defs
  | (defs, Some error) =>
      report onError (collectFootnotesFailed error) ;;; ret defs
  end.

Definition findLeadingH1 (root : Root) (defs : gmap string DefinitionNode)
    : E (option (string * nat)) :=
  tryCatch
    (ret (findLeadingH1From root defs 0))
    (fun error => report onError (leadingH1Failed error) ;;; ret None).

(** ** Module [frontmatter] *)

Variable parseYaml : string -> Outcome YamlValue.

Definition parseFrontmatterYaml (yaml : string) : E Frontmatter :=
  tryCatch
    (parsed <- liftOutcome (parseYaml yaml) ;;
     if falsy parsed || negb (String.eqb (typeOf parsed) "object")
     then report onError emptyYaml ;;; ret emptyFrontmatter
     else
       let fields := match parsed with YObject fs => fs | _ => [] end in
       author <-
         match field "author" fields with
         | Some (YString s) => ret (Some (OneAuthor s))
         | Some (YArray items) => ret (Some (ManyAuthors (onlyStrings items)))
         | Some v => report onError (badAuthor v) ;;; ret None
         | None => ret None
         end ;;
       ret {| fm_title := stringField "title" fields;
              fm_author := author;
              fm_authors := arrayField "authors" fields;
              fm_description := stringField "description" fields;
              fm_keywords := arrayField "keywords" fields;
              fm_date := match field "date" fields with
                         | Some (YString s) => Some s
                         | Some (YDate iso) => Some (beforeT iso)
                         | _ => None
                         end;
              fm_abstract := stringField "abstract" fields;
              fm_lang := stringField "lang" fields;
              fm_language := stringField "language" fields;
              fm_region := stringField "region" fields |})
    (fun error => report onError (yamlFailed error) ;;; ret emptyFrontmatter).

Definition parseFrontmatter (root : Root) : E Frontmatter :=
  match findYaml root with
  | Some value =>
      if Js.truthy value then parseFrontmatterYaml value
      else ret emptyFrontmatter
  | None => ret emptyFrontmatter
  end.

(** ** Modules [parser] and [markdown2typst] *)

Variable remark : string -> Outcome Root.
Variable langsCodes1 : list string.
Variable langsAll : list LangEntry.
Variable langsWhere : string -> string -> option LangEntry.
Variable getCodes : list string.
Variable getCode : string -> option string.
Variable toUpperCase : string -> string.

Definition parseMarkdown (markdown : string) : E Root :=
  tryCatch
    (liftOutcome (remark markdown))
    (fun error => report onError (parseFailed error) ;;; throw error).

(** The options are read where the code reads them: [useH1AsTitle] after
    the front matter is parsed, the metadata fields in [mergeMetadata]. *)
Definition markdown2typst (fuel : nat) (markdown : string) : E string :=
  tryCatch
    (tree <- parseMarkdown markdown ;;
     definitions <- collectDefinitions tree ;;
     footnoteDefinitions <- collectFootnotes tree ;;
     frontmatter <- parseFrontmatter tree ;;
     options3 <- readOptions ;;
     leadingH1 <- (if opt_useH1AsTitle options3
                   then findLeadingH1 tree definitions
                   else ret None) ;;
     options4 <- readOptions ;;
     let metadata :=
       mergeMetadata langsCodes1 langsAll langsWhere getCodes getCode toUpperCase
         options4 frontmatter (fst <$> leadingH1) in
     createContext definitions footnoteDefinitions ;;;
     buildOutput fuel tree metadata (snd <$> leadingH1))
    (fun error => report onError (conversionFailed error) ;;; throw error).

End Renderers.

(** The world at the call: the caller's options, and no context yet. *)
Definition initialWorld (options : Markdown2TypstOptions) : World :=
  {| options := options; externalImages := false;
     definitions := ∅; footnoteDefinitions := ∅ |}.

End Effectful.

(** ** The callback only observes when it changes nothing *)

(** The callback returns normally and leaves the world as it found it. *)
Definition onlyObserves (callback : Effectful.ErrorCallback) : Prop :=
  forall error world, callback error world = (None, world).

(** Two computations that do the same from every world. *)
Definition same {A} (m1 m2 : Effectful.E A) : Prop := forall w, m1 w = m2 w.

Lemma same_refl {A} (m : Effectful.E A) : same m m.
Proof. intros w. reflexivity. Qed.

Lemma same_bind {A B} (m1 m2 : Effectful.E A) (k1 k2 : A -> Effectful.E B) :
  same m1 m2 -> (forall a, same (k1 a) (k2 a)) ->
  same (Effectful.bind m1 k1) (Effectful.bind m2 k2).
Proof.
  intros Hm Hk w. unfold Effectful.bind. rewrite Hm.
  destruct (m2 w) as [[a|e] w']; [apply Hk | reflexivity].
Qed.

Lemma same_tryCatch {A} (m1 m2 : Effectful.E A) (h1 h2 : Exn -> Effectful.E A) :
  same m1 m2 -> (forall e, same (h1 e) (h2 e)) ->
  same (Effectful.tryCatch m1 h1) (Effectful.tryCatch m2 h2).
Proof.
  intros Hm Hh w. unfold Effectful.tryCatch. rewrite Hm.
  destruct (m2 w) as [[a|e] w']; [reflexivity | apply Hh].
Qed.

Lemma same_mapM {A B} (f1 f2 : A -> Effectful.E B) (xs : list A) :
  (forall x, same (f1 x) (f2 x)) -> same (Effectful.mapM f1 xs) (Effectful.mapM f2 xs).
Proof.
  intros Hf. induction xs as [|x xs IH]; cbn [Effectful.mapM]; [apply same_refl|].
  apply same_bind; [apply Hf|]. intros y.
  apply same_bind; [exact IH|]. intros ys. apply same_refl.
Qed.

Section OnlyObserves.

Variable callback : Effectful.ErrorCallback.
Hypothesis callback_observes : onlyObserves callback.

Lemma same_report (error : ConversionError) :
  same (Effectful.report (Some callback) error) (Effectful.report None error).
Proof. intros w. unfold Effectful.report. now rewrite callback_observes. Qed.

Ltac ext :=
  repeat
    lazymatch goal with
    | |- same (Effectful.bind _ _) _ => apply same_bind; [|intros ?]
    | |- same (Effectful.tryCatch _ _) _ => apply same_tryCatch; [|intros ?]
    | |- same (Effectful.mapM _ _) _ => apply same_mapM; intros ?
    | |- same (Effectful.report _ _) _ => apply same_report
    | |- same (if ?b then _ else _) _ => destruct b
    | |- same (match ?x with _ => _ end) _ => destruct x
    | |- same _ _ =>
        first [ apply same_refl
              | match goal with H : forall _, _ |- _ => apply H end ]
    end.

Variable tex2typst : string -> Outcome string.

(** All the renderers, with [fuel] units of stack, do the same with the
    callback as without. *)
Definition sameAt (fuel : nat) : Prop :=
  (forall node i,
     same (Effectful.renderBlock tex2typst (Some callback) fuel node i)
          (Effectful.renderBlock tex2typst None fuel node i))
  /\ (forall depth children i,
        same (Effectful.renderHeading tex2typst (Some callback) fuel depth children i)
             (Effectful.renderHeading tex2typst None fuel depth children i))
  /\ (forall children,
        same (Effectful.renderParagraph tex2typst (Some callback) fuel children)
             (Effectful.renderParagraph tex2typst None fuel children))
  /\ (forall ordered items i,
        same (Effectful.renderList tex2typst (Some callback) fuel ordered items i)
             (Effectful.renderList tex2typst None fuel ordered items i))
  /\ (forall children marker i,
        same (Effectful.renderListItem tex2typst (Some callback) fuel children marker i)
             (Effectful.renderListItem tex2typst None fuel children marker i))
  /\ (forall align rows i,
        same (Effectful.renderTable tex2typst (Some callback) fuel align rows i)
             (Effectful.renderTable tex2typst None fuel align rows i))
  /\ (forall children i,
        same (Effectful.renderBlockquote tex2typst (Some callback) fuel children i)
             (Effectful.renderBlockquote tex2typst None fuel children i))
  /\ (forall nodes,
        same (Effectful.renderInlines tex2typst (Some callback) fuel nodes)
             (Effectful.renderInlines tex2typst None fuel nodes))
  /\ (forall node,
        same (Effectful.renderInline tex2typst (Some callback) fuel node)
             (Effectful.renderInline tex2typst None fuel node))
  /\ (forall url children,
        same (Effectful.renderLink tex2typst (Some callback) fuel url children)
             (Effectful.renderLink tex2typst None fuel url children))
  /\ (forall identifier label children,
        same (Effectful.renderLinkReference tex2typst (Some callback) fuel identifier label
                children)
             (Effectful.renderLinkReference tex2typst None fuel identifier label children)).

Lemma sameAt_zero : sameAt 0.
Proof. unfold sameAt. repeat apply conj; intros; apply same_refl. Qed.

Lemma sameAt_succ (fuel : nat) : sameAt fuel -> sameAt (S fuel).
Proof.
  intros (Hblock & Hheading & Hparagraph & Hlist & Hitem & Htable & Hquote
          & Hinlines & Hinline & Hlink & Hreference).
  unfold sameAt. repeat apply conj.
  - intros node i. simpl Effectful.renderBlock. unfold Effectful.renderMathBlock.
    destruct node; ext.
  - intros depth children i. simpl Effectful.renderHeading. ext.
  - intros children. simpl Effectful.renderParagraph. ext.
  - intros ordered items i. simpl Effectful.renderList. ext.
  - intros children marker i. simpl Effectful.renderListItem.
    destruct children as [|first rest]; [ext|].
    destruct first; ext.
  - intros align rows i. simpl Effectful.renderTable. ext.
  - intros children i. simpl Effectful.renderBlockquote. ext.
  - intros nodes. simpl Effectful.renderInlines. ext.
  - intros node. simpl Effectful.renderInline. unfold Effectful.renderInlineMath.
    destruct node; ext.
  - intros url children. simpl Effectful.renderLink. ext.
  - intros identifier label children. simpl Effectful.renderLinkReference. ext.
Qed.

Lemma renderers_same (fuel : nat) : sameAt fuel.
Proof.
  induction fuel as [|fuel IH]; [apply sameAt_zero | now apply sameAt_succ].
Qed.

(** The stages of the pipeline do the same with the callback as without. *)
Lemma collectDefinitionsLoop_same (nodes : list Node) :
  forall defs,
    same (Effectful.collectDefinitionsLoop (Some callback) nodes defs)
         (Effectful.collectDefinitionsLoop None nodes defs).
Proof.
  induction nodes as [|node rest IH]; intros defs; [apply same_refl|].
  destruct node; cbn [Effectful.collectDefinitionsLoop]; try apply IH.
  unfold Effectful.attempt. ext.
Qed.

Lemma collectFootnotesLoop_same (nodes : list Node) :
  forall defs,
    same (Effectful.collectFootnotesLoop (Some callback) nodes defs)
         (Effectful.collectFootnotesLoop None nodes defs).
Proof.
  induction nodes as [|node rest IH]; intros defs; [apply same_refl|].
  destruct node; cbn [Effectful.collectFootnotesLoop]; try apply IH.
  unfold Effectful.attempt. ext.
Qed.

Lemma buildOutput_same (fuel : nat) (tree : Root) (metadata : DocumentMetadata)
    (leadingTitleIndex : option nat) :
  same (Effectful.buildOutput tex2typst (Some callback) fuel tree metadata leadingTitleIndex)
       (Effectful.buildOutput tex2typst None fuel tree metadata leadingTitleIndex).
Proof.
  pose proof (renderers_same fuel) as (Hblock & _).
  unfold Effectful.buildOutput, Effectful.outputParts, Effectful.renderBody,
    Effectful.headerParts, Effectful.documentBlock, Effectful.dateArg.
  ext.
Qed.

Variable parseYaml : string -> Outcome YamlValue.
Variable remark : string -> Outcome Root.
Variable langsCodes1 : list string.
Variable langsAll : list LangEntry.
Variable langsWhere : string -> string -> option LangEntry.
Variable getCodes : list string.
Variable getCode : string -> option string.
Variable toUpperCase : string -> string.

(** The whole conversion does the same with the callback as without. *)
Lemma markdown2typst_same (fuel : nat) (markdown : string) (world : Effectful.World) :
  Effectful.markdown2typst tex2typst (Some callback) parseYaml remark langsCodes1 langsAll
    langsWhere getCodes getCode toUpperCase fuel markdown world
  = Effectful.markdown2typst tex2typst None parseYaml remark langsCodes1 langsAll
      langsWhere getCodes getCode toUpperCase fuel markdown world.
Proof.
  revert world.
  change (same
    (Effectful.markdown2typst tex2typst (Some callback) parseYaml remark langsCodes1 langsAll
       langsWhere getCodes getCode toUpperCase fuel markdown)
    (Effectful.markdown2typst tex2typst None parseYaml remark langsCodes1 langsAll
       langsWhere getCodes getCode toUpperCase fuel markdown)).
  pose proof collectDefinitionsLoop_same as Hdefinitions.
  pose proof collectFootnotesLoop_same as Hfootnotes.
  pose proof buildOutput_same as Houtput.
  unfold Effectful.markdown2typst, Effectful.parseMarkdown, Effectful.collectDefinitions,
    Effectful.collectFootnotes, Effectful.parseFrontmatter, Effectful.parseFrontmatterYaml,
    Effectful.findLeadingH1.
  ext.
Qed.

End OnlyObserves.

Module EffectfulExamples.

Definition convert (tree : Root) (onError : option Effectful.ErrorCallback)
    (options : Markdown2TypstOptions) : Outcome string * Effectful.World :=
  Effectful.markdown2typst Examples.noMath onError Examples.noYaml (fun _ => Ok tree)
    [] [] (fun _ _ => None) [] (fun _ => None) Examples.upper 100 ""
    (Effectful.initialWorld options).

(** [onError(e) { log.push(e) }] *)
Definition listen : Effectful.ErrorCallback := fun _ world => (None, world).

(** [onError(e) { throw new Error('boom') }] *)
Definition boom : Effectful.ErrorCallback := fun _ world => (Some (JsError "boom"), world).

(** [onError(e) { this.warnings.externalImages = true }] *)
Definition setFlag : Effectful.ErrorCallback :=
  fun _ world =>
    (None, {| Effectful.options := Effectful.options world;
              Effectful.externalImages := true;
              Effectful.definitions := Effectful.definitions world;
              Effectful.footnoteDefinitions := Effectful.footnoteDefinitions world |}).

(** [onError(e) { this.definitions.set('later', { identifier: 'later', url: 'https://example.com' }) }] *)
Definition addDefinition : Effectful.ErrorCallback :=
  fun _ world =>
    (None, {| Effectful.options := Effectful.options world;
              Effectful.externalImages := Effectful.externalImages world;
              Effectful.definitions :=
                <["later" := {| def_identifier := "later"; def_url := "https://example.com" |}]>
                  (Effectful.definitions world);
              Effectful.footnoteDefinitions := Effectful.footnoteDefinitions world |}).

(** [onError(e) { options.title = 'Changed' }] *)
Definition setTitle : Effectful.ErrorCallback :=
  fun _ world =>
    let o := Effectful.options world in
    (None, {| Effectful.options :=
                {| opt_title := Some "Changed"; opt_author := opt_author o;
                   opt_authors := opt_authors o; opt_description := opt_description o;
                   opt_keywords := opt_keywords o; opt_date := opt_date o;
                   opt_abstract := opt_abstract o; opt_lang := opt_lang o;
                   opt_language := opt_language o; opt_region := opt_region o;
                   opt_useH1AsTitle := opt_useH1AsTitle o; opt_onError := opt_onError o |};
              Effectful.externalImages := Effectful.externalImages world;
              Effectful.definitions := Effectful.definitions world;
              Effectful.footnoteDefinitions := Effectful.footnoteDefinitions world |}).

(** [See [the docs][missing].] *)
Definition unresolved : Root :=
  [NParagraph [NText "See "; NLinkReference "missing" None [NText "the docs"]; NText "."]].

(** [[one][missing] and [two][later]] *)
Definition twoReferences : Root :=
  [NParagraph [ NLinkReference "missing" None [NText "one"]; NText " and ";
                NLinkReference "later" None [NText "two"] ]].

(** A definition given twice, then [Body]. *)
Definition duplicated : Root :=
  [ NDefinition {| def_identifier := "a"; def_url := "u" |};
    NDefinition {| def_identifier := "a"; def_url := "v" |};
    NParagraph [NText "Body"] ].

End EffectfulExamples.

(** ** The two embeddings agree

    A callback of the first embedding, which only returns or throws, is a
    callback of the second one that leaves the world alone.  With such a
    callback, or none, the two embeddings give the same outcome. *)

Definition liftCallback (onError : option ErrorCallback) : option Effectful.ErrorCallback :=
  match onError with
  | Some callback => Some (fun error world => (callback error, world))
  | None => None
  end.

Section Agree.

(** What a world and a state have in common. *)
Variable R : Effectful.World -> State -> Prop.

(** The relation does not look at the trace. *)
Hypothesis R_trace :
  forall w s errors,
    R w s -> R w {| externalImages := externalImages s; reported := errors |}.

Definition agree {A} (mE : Effectful.E A) (mM : M A) : Prop :=
  forall w s, R w s -> fst (mE w) = fst (mM s) /\ R (snd (mE w)) (snd (mM s)).

Lemma agree_ret {A} (a : A) : agree (Effectful.ret a) (ret a).
Proof. intros w s H. now split. Qed.

Lemma agree_throw {A} (e : Exn) : agree (@Effectful.throw A e) (throw e).
Proof. intros w s H. now split. Qed.

Lemma agree_liftOutcome {A} (o : Outcome A) :
  agree (Effectful.liftOutcome o) (liftOutcome o).
Proof. intros w s H. now split. Qed.

Lemma agree_bind {A B} (mE : Effectful.E A) (mM : M A)
    (kE : A -> Effectful.E B) (kM : A -> M B) :
  agree mE mM -> (forall a, agree (kE a) (kM a)) ->
  agree (Effectful.bind mE kE) (bind mM kM).
Proof.
  intros Hm Hk w s H. unfold Effectful.bind, bind.
  destruct (Hm w s H) as [Hout HR].
  destruct (mE w) as [[a1|e1] w'], (mM s) as [[a2|e2] s']; simpl in *;
    try discriminate Hout.
  - injection Hout as ->. now apply Hk.
  - injection Hout as ->. now split.
Qed.

Lemma agree_tryCatch {A} (mE : Effectful.E A) (mM : M A)
    (hE : Exn -> Effectful.E A) (hM : Exn -> M A) :
  agree mE mM -> (forall e, agree (hE e) (hM e)) ->
  agree (Effectful.tryCatch mE hE) (tryCatch mM hM).
Proof.
  intros Hm Hh w s H. unfold Effectful.tryCatch, tryCatch.
  destruct (Hm w s H) as [Hout HR].
  destruct (mE w) as [[a1|e1] w'], (mM s) as [[a2|e2] s']; simpl in *;
    try discriminate Hout.
  - injection Hout as ->. now split.
  - injection Hout as ->. now apply Hh.
Qed.

Lemma agree_mapM {A B} (fE : A -> Effectful.E B) (fM : A -> M B) (xs : list A) :
  (forall x, agree (fE x) (fM x)) -> agree (Effectful.mapM fE xs) (mapM fM xs).
Proof.
  intros Hf. induction xs as [|x xs IH]; cbn [Effectful.mapM mapM]; [apply agree_ret|].
  apply agree_bind; [apply Hf|]. intros y.
  apply agree_bind; [exact IH|]. intros ys. apply agree_ret.
Qed.

Lemma agree_report (onError : option ErrorCallback) (error : ConversionError) :
  agree (Effectful.report (liftCallback onError) error) (report onError error).
Proof.
  intros w s H. unfold Effectful.report, report, liftCallback.
  destruct onError as [callback|]; [|now split].
  destruct (callback error); simpl; (split; [reflexivity | now apply R_trace]).
Qed.

End Agree.

Section ContextAgree.

Variable opts : Markdown2TypstOptions.
Variable defs : gmap string DefinitionNode.
Variable fns : gmap string FootnoteDefinition.

(** The world holds the options and the two maps, with the flag of the
    state. *)
Definition inContext (w : Effectful.World) (s : State) : Prop :=
  Effectful.options w = opts
  /\ Effectful.externalImages w = externalImages s
  /\ Effectful.definitions w = defs
  /\ Effectful.footnoteDefinitions w = fns.

Lemma inContext_trace (w : Effectful.World) (s : State) (errors : list ConversionError) :
  inContext w s -> inContext w {| externalImages := externalImages s; reported := errors |}.
Proof. exact (fun H => H). Qed.

Lemma agree_getDefinition {A} (key : string)
    (kE : option DefinitionNode -> Effectful.E A) (mM : M A) :
  agree inContext (kE (defs !! key)) mM ->
  agree inContext (Effectful.bind (Effectful.getDefinition key) kE) mM.
Proof.
  intros Hk w s H. unfold Effectful.bind, Effectful.getDefinition.
  destruct H as (Ho & Hf & Hd & Hn). rewrite Hd. apply Hk. now repeat split.
Qed.

Lemma agree_getFootnote {A} (key : string)
    (kE : option FootnoteDefinition -> Effectful.E A) (mM : M A) :
  agree inContext (kE (fns !! key)) mM ->
  agree inContext (Effectful.bind (Effectful.getFootnote key) kE) mM.
Proof.
  intros Hk w s H. unfold Effectful.bind, Effectful.getFootnote.
  destruct H as (Ho & Hf & Hd & Hn). rewrite Hn. apply Hk. now repeat split.
Qed.

Lemma agree_readDefinitions {A}
    (kE : gmap string DefinitionNode -> Effectful.E A) (mM : M A) :
  agree inContext (kE defs) mM ->
  agree inContext (Effectful.bind Effectful.readDefinitions kE) mM.
Proof.
  intros Hk w s H. unfold Effectful.bind, Effectful.readDefinitions.
  destruct H as (Ho & Hf & Hd & Hn). rewrite Hd. apply Hk. now repeat split.
Qed.

Lemma agree_renderImage (url : string) :
  agree inContext (Effectful.renderImage url) (renderImage url).
Proof.
  intros w s (Ho & Hf & Hd & Hn). unfold Effectful.renderImage, renderImage.
  destruct (isExternalUrl url); cbn; repeat split; assumption.
Qed.

Lemma agree_buildWarningsSection :
  agree inContext Effectful.buildWarningsSection buildWarningsSection.
Proof.
  intros w s H. pose proof H as (Ho & Hf & Hd & Hn).
  unfold Effectful.buildWarningsSection, buildWarningsSection, Effectful.bind, bind,
    Effectful.readExternalImages, readExternalImages.
  rewrite Hf. destruct (externalImages s); cbn; now split.
Qed.

(** Before the context is created: the world holds the options. *)
Definition beforeContext (w : Effectful.World) (s : State) : Prop :=
  Effectful.options w = opts.

Lemma beforeContext_trace (w : Effectful.World) (s : State) (errors : list ConversionError) :
  beforeContext w s ->
  beforeContext w {| externalImages := externalImages s; reported := errors |}.
Proof. exact (fun H => H). Qed.

Lemma agree_readOptions {A} (kE : Markdown2TypstOptions -> Effectful.E A) (mM : M A) :
  agree beforeContext (kE opts) mM ->
  agree beforeContext (Effectful.bind Effectful.readOptions kE) mM.
Proof.
  intros Hk w s H. unfold Effectful.bind, Effectful.readOptions.
  pose proof H as Ho. unfold beforeContext in Ho. rewrite Ho. now apply Hk.
Qed.

(** Creating the context brings the world and the state together. *)
Lemma agree_createContext {A} (mE : Effectful.E A) (mM : M A) :
  agree inContext mE mM ->
  agree beforeContext (Effectful.bind (Effectful.createContext defs fns) (fun _ => mE))
                      (bind freshWarnings (fun _ => mM)).
Proof.
  intros Hm w s H. unfold Effectful.bind, bind, Effectful.createContext, freshWarnings.
  unfold beforeContext in H.
  match goal with
  | |- fst (mE ?w') = fst (mM ?s') /\ _ =>
      destruct (Hm w' s') as [Hout (Ho & _)]; [now repeat split|]
  end.
  now split.
Qed.

End ContextAgree.

Ltac agr :=
  repeat
    lazymatch goal with
    | |- agree _ (Effectful.bind (Effectful.getDefinition _) _) _ =>
        apply agree_getDefinition
    | |- agree _ (Effectful.bind (Effectful.getFootnote _) _) _ =>
        apply agree_getFootnote
    | |- agree _ (Effectful.bind Effectful.readDefinitions _) _ =>
        apply agree_readDefinitions
    | |- agree _ (Effectful.bind Effectful.readOptions _) _ =>
        apply agree_readOptions
    | |- agree _ (Effectful.bind (Effectful.createContext _ _) _) _ =>
        apply agree_createContext
    | |- agree _ (Effectful.bind _ _) _ => apply agree_bind; [|intros ?]
    | |- agree _ (Effectful.tryCatch _ _) _ => apply agree_tryCatch; [|intros ?]
    | |- agree _ (Effectful.mapM _ _) _ => apply agree_mapM; intros ?
    | |- agree (inContext _ _ _) (Effectful.report _ _) _ =>
        apply agree_report, inContext_trace
    | |- agree (beforeContext _) (Effectful.report _ _) _ =>
        apply agree_report, beforeContext_trace
    | |- agree _ (Effectful.ret _) _ => apply agree_ret
    | |- agree _ (Effectful.throw _) _ => apply agree_throw
    | |- agree _ (Effectful.liftOutcome _) _ => apply agree_liftOutcome
    | |- agree _ (Effectful.renderImage _) _ => apply agree_renderImage
    | |- agree _ Effectful.buildWarningsSection _ => apply agree_buildWarningsSection
    | |- agree _ (if ?b then _ else _) _ => destruct b
    | |- agree _ (match ?x with _ => _ end) _ => destruct x
    | |- agree _ _ _ => match goal with H : forall _, _ |- _ => apply H end
    end.

Section RenderersAgree.

Variable tex2typst : string -> Outcome string.
Variable callback : option ErrorCallback.
Variable opts : Markdown2TypstOptions.
Variable defs : gmap string DefinitionNode.
Variable fns : gmap string FootnoteDefinition.

Let ctx := {| definitions := defs; footnoteDefinitions := fns; onError := callback |}.

Definition agreeAt (fuel : nat) : Prop :=
  (forall node i,
     agree (inContext opts defs fns) (Effectful.renderBlock tex2typst (liftCallback callback) fuel node i)
                     (renderBlock tex2typst fuel node i ctx))
  /\ (forall depth children i,
        agree (inContext opts defs fns)
          (Effectful.renderHeading tex2typst (liftCallback callback) fuel depth children i)
          (renderHeading tex2typst fuel depth children i ctx))
  /\ (forall children,
        agree (inContext opts defs fns)
          (Effectful.renderParagraph tex2typst (liftCallback callback) fuel children)
          (renderParagraph tex2typst fuel children ctx))
  /\ (forall ordered items i,
        agree (inContext opts defs fns)
          (Effectful.renderList tex2typst (liftCallback callback) fuel ordered items i)
          (renderList tex2typst fuel ordered items i ctx))
  /\ (forall children marker i,
        agree (inContext opts defs fns)
          (Effectful.renderListItem tex2typst (liftCallback callback) fuel children marker i)
          (renderListItem tex2typst fuel children marker i ctx))
  /\ (forall align rows i,
        agree (inContext opts defs fns)
          (Effectful.renderTable tex2typst (liftCallback callback) fuel align rows i)
          (renderTable tex2typst fuel align rows i ctx))
  /\ (forall children i,
        agree (inContext opts defs fns)
          (Effectful.renderBlockquote tex2typst (liftCallback callback) fuel children i)
          (renderBlockquote tex2typst fuel children i ctx))
  /\ (forall nodes,
        agree (inContext opts defs fns)
          (Effectful.renderInlines tex2typst (liftCallback callback) fuel nodes)
          (renderInlines tex2typst fuel nodes ctx))
  /\ (forall node,
        agree (inContext opts defs fns)
          (Effectful.renderInline tex2typst (liftCallback callback) fuel node)
          (renderInline tex2typst fuel node ctx))
  /\ (forall url children,
        agree (inContext opts defs fns)
          (Effectful.renderLink tex2typst (liftCallback callback) fuel url children)
          (renderLink tex2typst fuel url children ctx))
  /\ (forall identifier label children,
        agree (inContext opts defs fns)
          (Effectful.renderLinkReference tex2typst (liftCallback callback) fuel identifier
             label children)
          (renderLinkReference tex2typst fuel identifier label children ctx)).

Lemma agreeAt_zero : agreeAt 0.
Proof. unfold agreeAt. repeat apply conj; intros; apply agree_throw. Qed.

Lemma agreeAt_succ (fuel : nat) : agreeAt fuel -> agreeAt (S fuel).
Proof.
  intros (Hblock & Hheading & Hparagraph & Hlist & Hitem & Htable & Hquote
          & Hinlines & Hinline & Hlink & Hreference).
  unfold agreeAt. repeat apply conj.
  - intros node i. simpl Effectful.renderBlock. cbn [renderBlock].
    unfold Effectful.renderMathBlock, renderMathBlock. cbn [onError ctx].
    destruct node; agr.
  - intros depth children i. simpl Effectful.renderHeading. cbn [renderHeading]. agr.
  - intros children. simpl Effectful.renderParagraph. cbn [renderParagraph].
    cbn [definitions ctx]. agr.
  - intros ordered items i. simpl Effectful.renderList. cbn [renderList]. agr.
  - intros children marker i. simpl Effectful.renderListItem. cbn [renderListItem].
    destruct children as [|first rest]; [agr|].
    destruct first; agr.
  - intros align rows i. simpl Effectful.renderTable. cbn [renderTable]. cbn [onError ctx].
    agr.
  - intros children i. simpl Effectful.renderBlockquote. cbn [renderBlockquote]. agr.
  - intros nodes. simpl Effectful.renderInlines. cbn [renderInlines]. agr.
  - intros node. simpl Effectful.renderInline. cbn [renderInline].
    unfold Effectful.renderInlineMath, renderInlineMath.
    cbn [onError footnoteDefinitions ctx].
    destruct node; agr.
  - intros url children. simpl Effectful.renderLink. cbn [renderLink]. agr.
  - intros identifier label children. simpl Effectful.renderLinkReference.
    cbn [renderLinkReference]. cbn [onError definitions ctx]. agr.
Qed.

Lemma renderers_agree (fuel : nat) : agreeAt fuel.
Proof.
  induction fuel as [|fuel IH]; [apply agreeAt_zero | now apply agreeAt_succ].
Qed.

End RenderersAgree.

Section PipelineAgree.

Variable remark : string -> Outcome Root.
Variable tex2typst : string -> Outcome string.
Variable parseYaml : string -> Outcome YamlValue.
Variable langsCodes1 : list string.
Variable langsAll : list LangEntry.
Variable langsWhere : string -> string -> option LangEntry.
Variable getCodes : list string.
Variable getCode : string -> option string.
Variable toUpperCase : string -> string.

Variable opts : Markdown2TypstOptions.
Variable callback : option ErrorCallback.

Lemma collectDefinitionsLoop_agree (nodes : list Node) :
  forall defs,
    agree (beforeContext opts)
      (Effectful.collectDefinitionsLoop (liftCallback callback) nodes defs)
      (collectDefinitionsLoop callback nodes defs).
Proof.
  induction nodes as [|node rest IH]; intros defs; [apply agree_ret|].
  destruct node; cbn [Effectful.collectDefinitionsLoop collectDefinitionsLoop];
    try apply IH.
  unfold Effectful.attempt, attempt. agr.
Qed.

Lemma collectFootnotesLoop_agree (nodes : list Node) :
  forall defs,
    agree (beforeContext opts)
      (Effectful.collectFootnotesLoop (liftCallback callback) nodes defs)
      (collectFootnotesLoop callback nodes defs).
Proof.
  induction nodes as [|node rest IH]; intros defs; [apply agree_ret|].
  destruct node; cbn [Effectful.collectFootnotesLoop collectFootnotesLoop];
    try apply IH.
  unfold Effectful.attempt, attempt. agr.
Qed.

Lemma buildOutput_agree (fuel : nat) (tree : Root) (metadata : DocumentMetadata)
    (leadingTitleIndex : option nat) (defs : gmap string DefinitionNode)
    (fns : gmap string FootnoteDefinition) :
  agree (inContext opts defs fns)
    (Effectful.buildOutput tex2typst (liftCallback callback) fuel tree metadata
       leadingTitleIndex)
    (buildOutput tex2typst fuel tree metadata leadingTitleIndex
       {| definitions := defs; footnoteDefinitions := fns; onError := callback |}).
Proof.
  pose proof (renderers_agree tex2typst callback opts defs fns fuel) as (Hblock & _).
  unfold Effectful.buildOutput, buildOutput, Effectful.outputParts, outputParts,
    Effectful.renderBody, renderBody, Effectful.headerParts, headerParts,
    Effectful.documentBlock, documentBlock, Effectful.dateArg, dateArg.
  cbn [onError]. agr.
Qed.

(** With a callback that only returns or throws, or with none, the
    second embedding gives the outcome of the first. *)
Lemma markdown2typst_agree (fuel : nat) (markdown : string)
    (world : Effectful.World) (st : State) :
  opt_onError opts = callback ->
  Effectful.options world = opts ->
  fst (Effectful.markdown2typst tex2typst (liftCallback callback) parseYaml remark
         langsCodes1 langsAll langsWhere getCodes getCode toUpperCase fuel markdown world)
  = fst (markdown2typst remark tex2typst parseYaml langsCodes1 langsAll langsWhere getCodes
           getCode toUpperCase fuel markdown opts st).
Proof.
  intros Hcallback Hworld.
  assert (H : agree (beforeContext opts)
    (Effectful.markdown2typst tex2typst (liftCallback callback) parseYaml remark
       langsCodes1 langsAll langsWhere getCodes getCode toUpperCase fuel markdown)
    (markdown2typst remark tex2typst parseYaml langsCodes1 langsAll langsWhere getCodes
       getCode toUpperCase fuel markdown opts)); [|exact (proj1 (H world st Hworld))].
  pose proof collectDefinitionsLoop_agree as Hdefinitions.
  pose proof collectFootnotesLoop_agree as Hfootnotes.
  pose proof buildOutput_agree as Houtput.
  unfold Effectful.markdown2typst, markdown2typst, Effectful.parseMarkdown, parseMarkdown,
    Effectful.collectDefinitions, collectDefinitions,
    Effectful.collectFootnotes, collectFootnotes,
    Effectful.parseFrontmatter, parseFrontmatter,
    Effectful.parseFrontmatterYaml, parseFrontmatterYaml,
    Effectful.findLeadingH1, findLeadingH1.
  rewrite Hcallback. cbv zeta. agr.
Qed.

End PipelineAgree.

(** ** The callback only observes (module [markdown2typst]) *)

(** C9, as the code has it.  A callback is called with the error, as a
    method of the render context or of the options, and can change what it
    reaches there: the options, the external-image flag and the two
    definition maps.  When the callback returns normally on every error and
    leaves all of these as it found them, the conversion with the callback
    does what the conversion without a callback does, from every world: the
    same output or the same exception, with the same world at the end; and
    that outcome is the one of [markdown2typst] in the first embedding, run
    on the same options without a callback. *)
Theorem callback_only_observes (remark : string -> Outcome Root)
    (tex2typst : string -> Outcome string) (parseYaml : string -> Outcome YamlValue)
    (langsCodes1 : list string) (langsAll : list LangEntry)
    (langsWhere : string -> string -> option LangEntry) (getCodes : list string)
    (getCode : string -> option string) (toUpperCase : string -> string)
    (callback : Effectful.ErrorCallback) (fuel : nat) (markdown : string)
    (world : Effectful.World) (st : State) :
  onlyObserves callback ->
  Effectful.markdown2typst tex2typst (Some callback) parseYaml remark langsCodes1 langsAll
    langsWhere getCodes getCode toUpperCase fuel markdown world
  = Effectful.markdown2typst tex2typst None parseYaml remark langsCodes1 langsAll
      langsWhere getCodes getCode toUpperCase fuel markdown world
  /\ (opt_onError (Effectful.options world) = None ->
      fst (Effectful.markdown2typst tex2typst (Some callback) parseYaml remark langsCodes1
             langsAll langsWhere getCodes getCode toUpperCase fuel markdown world)
      = fst (markdown2typst remark tex2typst parseYaml langsCodes1 langsAll langsWhere
               getCodes getCode toUpperCase fuel markdown (Effectful.options world) st)).
Proof.
  intros Hobserves.
  pose proof (markdown2typst_same callback Hobserves tex2typst parseYaml remark langsCodes1
                langsAll langsWhere getCodes getCode toUpperCase fuel markdown world)
    as Hsame.
  split; [exact Hsame|]. intros Hnone. rewrite Hsame.
  now apply (markdown2typst_agree remark tex2typst parseYaml langsCodes1 langsAll langsWhere
               getCodes getCode toUpperCase (Effectful.options world) None).
Qed.

(** A callback that listens, on a document that warns of an unresolved
    reference: the conversion does what it does without a callback. *)
Lemma callback_only_observes_witness :
  EffectfulExamples.convert EffectfulExamples.unresolved (Some EffectfulExamples.listen)
    Examples.plainOptions
  = EffectfulExamples.convert EffectfulExamples.unresolved None Examples.plainOptions
  /\ fst (EffectfulExamples.convert EffectfulExamples.unresolved
            (Some EffectfulExamples.listen) Examples.plainOptions)
     = fst (Examples.convert EffectfulExamples.unresolved Examples.plainOptions)
  /\ fst (Examples.convert EffectfulExamples.unresolved Examples.plainOptions)
     = Ok "See the docs.".
Proof.
  assert (Hlisten : onlyObserves EffectfulExamples.listen)
    by (intros error world; reflexivity).
  pose proof (callback_only_observes (fun _ => Ok EffectfulExamples.unresolved)
                Examples.noMath Examples.noYaml [] [] (fun _ _ => None) [] (fun _ => None)
                Examples.upper EffectfulExamples.listen 100 ""
                (Effectful.initialWorld Examples.plainOptions) initialState Hlisten)
    as [Hsame Hfirst].
  split; [exact Hsame|]. split; [exact (Hfirst eq_refl)|].
  vm_compute. reflexivity.
Defined.

(** C9, the claim as written fails: a callback that throws ends the
    conversion, and a callback that returns normally changes the output when
    it sets the external-image flag of the context it is called on, adds a
    definition to the context's map, or sets a field of the caller's
    options. *)
Lemma interfering_callback_changes_result :
  let run tree onError := fst (EffectfulExamples.convert tree onError Examples.plainOptions) in
  run EffectfulExamples.unresolved None = Ok "See the docs."
  /\ run EffectfulExamples.unresolved (Some EffectfulExamples.boom) = Throw (JsError "boom")
  /\ run EffectfulExamples.unresolved (Some EffectfulExamples.setFlag)
     = Ok (Js.join nl [""; warningsSection; ""; "See the docs."])
  /\ run EffectfulExamples.twoReferences None = Ok "one and two"
  /\ run EffectfulExamples.twoReferences (Some EffectfulExamples.addDefinition)
     = Ok ("one and #link(" +:+ dq +:+ "https://example.com" +:+ dq +:+ ")[two]")
  /\ run EffectfulExamples.duplicated None = Ok "Body"
  /\ run EffectfulExamples.duplicated (Some EffectfulExamples.setTitle)
     = Ok (Js.join nl
             [ "// ===============  FRONTMATTER  ==============="; "";
               "#set document("; "  title: [Changed]"; ")"; "";
               "#align(center)["; "  #title() \ \"; "]"; "";
               "//  ============================================"; "";
               "Body" ])
  /\ (forall error world,
        fst (EffectfulExamples.setFlag error world) = None
        /\ fst (EffectfulExamples.addDefinition error world) = None
        /\ fst (EffectfulExamples.setTitle error world) = None).
Proof.
  intros run. repeat split; vm_compute; reflexivity.
Qed.

(** ** Remote images under such a callback *)

Section EffectfulPreamble.

Variable remark : string -> Outcome Root.
Variable tex2typst : string -> Outcome string.
Variable parseYaml : string -> Outcome YamlValue.
Variable langsCodes1 : list string.
Variable langsAll : list LangEntry.
Variable langsWhere : string -> string -> option LangEntry.
Variable getCodes : list string.
Variable getCode : string -> option string.
Variable toUpperCase : string -> string.

(** A remote image shown in a block of the document brings the preamble
    into the output of the second embedding too, with a callback that
    returns normally and changes nothing. *)
Lemma effectful_shown (fuel : nat) (markdown : string) (tree : Root) (block : Node)
    (callback : Effectful.ErrorCallback) (world : Effectful.World) :
  onlyObserves callback ->
  opt_onError (Effectful.options world) = None ->
  remark markdown = Ok tree ->
  3 * heights tree <= fuel ->
  In block tree ->
  blockShowsRemoteImage (definitionsOf tree ∅) block = true ->
  (opt_useH1AsTitle (Effectful.options world) = true ->
   forall children, block <> NHeading 1 children) ->
  exists out header body,
    fst (Effectful.markdown2typst tex2typst (Some callback) parseYaml remark langsCodes1
           langsAll langsWhere getCodes getCode toUpperCase fuel markdown world)
    = Ok out
    /\ ~ In warningsSection header
    /\ out = Js.join nl
               (header ++ [""; warningsSection]
                  ++ bodyParts (header ++ [""; warningsSection]) body)
    /\ occursIn warningsSection out.
Proof.
  intros Hobserves Hnone Htree Hfuel Hin Hshown Hblock.
  destruct (markdown2typst_shown remark tex2typst parseYaml langsCodes1 langsAll langsWhere
              getCodes getCode toUpperCase fuel markdown (Effectful.options world) tree
              block initialState Htree)
    as (out & st' & header & body & Hout & _ & Hrest);
    [rewrite Hnone; intros error; exact I | assumption..|].
  exists out, header, body. split; [|exact Hrest].
  rewrite (markdown2typst_same callback Hobserves).
  pose proof (markdown2typst_agree remark tex2typst parseYaml langsCodes1 langsAll
                langsWhere getCodes getCode toUpperCase (Effectful.options world) None fuel
                markdown world initialState Hnone eq_refl) as Hagree.
  cbn [liftCallback] in Hagree. rewrite Hagree. now rewrite Hout.
Qed.

End EffectfulPreamble.
